(** * cruddl: query-tree expansion, operation resolution and create-input preparation

  A shallow embedding of
    - src/query-tree/objects.ts (object / property / merge nodes and the
      [OperationResolver] that is stored in the same file), and
    - src/schema-generation/create-input-type-generator.ts,
  followed by the properties established about them. *)

From Stdlib Require Import String List ZArith Bool Arith Lia.
Import ListNotations.
Open Scope string_scope.
Open Scope list_scope.
Set Warnings "-register-all".

(** ** JavaScript values and plain objects *)

Module JS.

(** [AnyValue] of utils.ts: what a GraphQL input or a result can hold, and
    the functions that reading a member of [Object.prototype] yields. *)
Inductive AnyValue : Type :=
| VUndefined
| VNull
| VBool (b : bool)
| VNumber (z : Z)
| VString (s : string)
| VArray (items : list AnyValue)
| VObject (props : list (string * AnyValue))
| VFunction (member : string).

(** A JavaScript object used as a dictionary: its own enumerable keys in
    insertion order.  Assigning to an existing key keeps its position. *)
Definition Dict (V : Type) := list (string * V).
Definition PlainObject := Dict AnyValue.

Section Dictionaries.
Context {V : Type}.

(** [o.hasOwnProperty(k)]: [k] is one of the own keys. *)
Fixpoint hasKey (k : string) (o : Dict V) : bool :=
  match o with
  | [] => false
  | (k', _) :: o' => if String.eqb k k' then true else hasKey k o'
  end.

Fixpoint getKey (k : string) (o : Dict V) : option V :=
  match o with
  | [] => None
  | (k', v) :: o' => if String.eqb k k' then Some v else getKey k o'
  end.

(** [o[k] = v] *)
Fixpoint setKey (k : string) (v : V) (o : Dict V) : Dict V :=
  match o with
  | [] => [(k, v)]
  | (k', v') :: o' =>
      if String.eqb k k' then (k', v) :: o' else (k', v') :: setKey k v o'
  end.

(** [delete o[k]] *)
Fixpoint deleteKey (k : string) (o : Dict V) : Dict V :=
  match o with
  | [] => []
  | (k', v') :: o' =>
      if String.eqb k k' then deleteKey k o' else (k', v') :: deleteKey k o'
  end.

(** [Object.assign(target, source)], also one step of [{...target, ...source}] *)
Definition assign (target source : Dict V) : Dict V :=
  fold_left (fun o kv => setKey (fst kv) (snd kv) o) source target.

(** lodash [fromPairs] *)
Definition fromPairs (pairs : list (string * V)) : Dict V := assign [] pairs.

(** lodash [toPairs] *)
Definition toPairs (o : Dict V) : list (string * V) := o.
End Dictionaries.

(** The members a plain object inherits from [Object.prototype] under a name
    that a GraphQL field can bear; each of them is a function.  (GraphQL
    reserves the names that begin with two underscores, so [__proto__],
    [__defineGetter__] and the like name no field.) *)
Definition objectPrototypeMembers : list string :=
  ["constructor"; "hasOwnProperty"; "isPrototypeOf"; "propertyIsEnumerable";
   "toLocaleString"; "toString"; "valueOf"].

Definition isInherited (k : string) : bool :=
  existsb (String.eqb k) objectPrototypeMembers.

(** [k in o] on a plain object: an own key, or a member found along the
    prototype chain. *)
Definition hasProperty (k : string) (o : PlainObject) : bool :=
  hasKey k o || isInherited k.

(** [o[k]] on a plain object: the own value, else the inherited member, else
    [undefined]. *)
Definition getProp (k : string) (o : PlainObject) : AnyValue :=
  match getKey k o with
  | Some v => v
  | None => if isInherited k then VFunction k else VUndefined
  end.

(** [v === undefined], [v === null], [v == undefined] *)
Definition isUndefined (v : AnyValue) : bool :=
  match v with VUndefined => true | _ => false end.
Definition isNull (v : AnyValue) : bool :=
  match v with VNull => true | _ => false end.
Definition isNullish (v : AnyValue) : bool :=
  match v with VUndefined | VNull => true | _ => false end.

(** A raised JavaScript [Error], identified by its message. *)
Inductive outcome (A : Type) : Type :=
| Returned (a : A)
| Thrown (message : string).
Arguments Returned {A} a.
Arguments Thrown {A} message.

End JS.
Import JS.

(** ** The query tree (query-tree/objects.ts) *)

Module QueryTree.

(** Object identity: the address of a node object.  [!=] on nodes compares
    these, [new] takes the next free one. *)
Definition Ref := nat.

(** The value of one own property of a node object, as the generic
    traversals see it: a node ([instanceof QueryNode]), an array of nodes
    (an array is not an instance of [QueryNode]), or anything else. *)
Inductive FieldValue (N : Type) : Type :=
| NodeValue (node : N)
| NodeArray (nodes : list N)
| PlainValue (v : AnyValue).
Arguments NodeValue {N} node.
Arguments NodeArray {N} nodes.
Arguments PlainValue {N} v.

(** [class PropertySpecification]: one property of an [ObjectQueryNode]. *)
Record PropertySpecification (N : Type) : Type := mkPropertySpecification {
  propertyRef : Ref;
  propertyName : string;
  valueNode : N
}.
Arguments mkPropertySpecification {N}.
Arguments propertyRef {N}.
Arguments propertyName {N}.
Arguments valueNode {N}.

(** [QueryNode] and the subclasses the resolver tells apart.  Every other
    subclass is an [OtherQueryNode]: its class and its own properties in
    [Object.keys] order. *)
Inductive QueryNode : Type :=
| FlexSearchComplexOperatorQueryNode
    (ref : Ref) (expression : string) (flexSearchLanguage : string)
    (fields : list (string * FieldValue QueryNode))
| ObjectQueryNode (ref : Ref) (properties : list (PropertySpecification QueryNode))
| OtherQueryNode (ref : Ref) (className : string)
    (fields : list (string * FieldValue QueryNode)).

Definition nodeRef (n : QueryNode) : Ref :=
  match n with
  | FlexSearchComplexOperatorQueryNode r _ _ _ => r
  | ObjectQueryNode r _ => r
  | OtherQueryNode r _ _ => r
  end.

(** [static EMPTY = new ObjectQueryNode([])], allocated once at load time. *)
Definition EMPTY : QueryNode := ObjectQueryNode 0 [].

(** [class MergeObjectsQueryNode]: its only own property is the array
    [objectNodes]. *)
Definition MergeObjectsQueryNode (ref : Ref) (objectNodes : list QueryNode) : QueryNode :=
  OtherQueryNode ref "MergeObjectsQueryNode" [("objectNodes", NodeArray objectNodes)].

(** A [PropertySpecification] met as a node of its own (it extends
    [QueryNode]) has the own properties [propertyName] and [valueNode]. *)
Definition PropertySpecificationNode (p : PropertySpecification QueryNode) : QueryNode :=
  OtherQueryNode (propertyRef p) "PropertySpecification"
    [("propertyName", PlainValue (VString (propertyName p)));
     ("valueNode", NodeValue (valueNode p))].

(** Does a [FlexSearchComplexOperatorQueryNode] occur anywhere in the tree
    (property values, node-valued fields and node arrays alike)? *)
Fixpoint containsFlexSearchOperator (n : QueryNode) : bool :=
  match n with
  | FlexSearchComplexOperatorQueryNode _ _ _ _ => true
  | ObjectQueryNode _ properties =>
      existsb (fun p => containsFlexSearchOperator (valueNode p)) properties
  | OtherQueryNode _ _ fields =>
      existsb (fun f =>
                 match snd f with
                 | NodeValue c => containsFlexSearchOperator c
                 | NodeArray cs => existsb containsFlexSearchOperator cs
                 | PlainValue _ => false
                 end) fields
  end.

(** Does the walk of the resolver (property values of object nodes,
    node-valued fields of other nodes) pass an array that holds a search
    operator somewhere below it? *)
Fixpoint operatorHeldInArray (n : QueryNode) : bool :=
  match n with
  | FlexSearchComplexOperatorQueryNode _ _ _ _ => false
  | ObjectQueryNode _ properties =>
      existsb (fun p => operatorHeldInArray (valueNode p)) properties
  | OtherQueryNode _ _ fields =>
      existsb (fun f =>
                 match snd f with
                 | NodeValue c => operatorHeldInArray c
                 | NodeArray cs => existsb containsFlexSearchOperator cs
                 | PlainValue _ => false
                 end) fields
  end.

(** Does the field hold a search operator, directly, in an array or deeper? *)
Definition fieldHoldsOperator (f : string * FieldValue QueryNode) : bool :=
  match snd f with
  | NodeValue c => containsFlexSearchOperator c
  | NodeArray cs => existsb containsFlexSearchOperator cs
  | PlainValue _ => false
  end.

(** The largest reference among the nodes that walk visits. *)
Fixpoint maxVisitedRef (n : QueryNode) : Ref :=
  match n with
  | FlexSearchComplexOperatorQueryNode r _ _ _ => r
  | ObjectQueryNode r properties =>
      Nat.max r (list_max (map (fun p => maxVisitedRef (valueNode p)) properties))
  | OtherQueryNode r _ fields =>
      Nat.max r (list_max (map (fun f =>
                                  match snd f with
                                  | NodeValue c => maxVisitedRef c
                                  | _ => 0
                                  end) fields))
  end.

(** Does a walk from the node along node-valued fields meet a node of one
    of the two classes the resolver treats on their own? *)
Fixpoint meetsSpecialNode (n : QueryNode) : bool :=
  match n with
  | FlexSearchComplexOperatorQueryNode _ _ _ _ => true
  | ObjectQueryNode _ _ => true
  | OtherQueryNode _ _ fields =>
      existsb (fun f =>
                 match snd f with
                 | NodeValue c => meetsSpecialNode c
                 | _ => false
                 end) fields
  end.

(** A property of nodes, lifted to what a field holds. *)
Definition onHeldNodes (OnNode : QueryNode -> Prop) (fv : FieldValue QueryNode) : Prop :=
  match fv with
  | NodeValue c => OnNode c
  | NodeArray cs => Forall OnNode cs
  | PlainValue _ => True
  end.

End QueryTree.
Import QueryTree.

(** ** The operation resolver (second part of query-tree/objects.ts) *)

Module Resolver.

(** *** Data exchanged with the collaborators *)

(** Modelled from the spec: [FlexSearchTokenizable] of the database adapter
    interface, "list of {expression, language}": what [collectTokenizations]
    records for one operator. *)
Record FlexSearchTokenizable : Type := mkTokenizable {
  expression : string;
  language : string
}.

(** Modelled from the spec: [FlexSearchTokenization], one of the "parallel
    list of tokenization results" the adapter answers with. *)
Record FlexSearchTokenization : Type := mkTokenization {
  tokenized : FlexSearchTokenizable;
  tokens : list string
}.

(** Modelled from the spec: [ExecutionOptions], the "configuration surface
    consumed by the Orchestrator": the members [resolveOperation] reads; an
    optional flag that is not set reads as [false]. *)
Record ExecutionOptions : Type := mkExecutionOptions {
  authRoles : option (list string);
  mutationMode : option string;
  recordPlan : bool;
  recordTimings : bool;
  flexSearchMaxFilterableAndSortableAmount : option Z;
  flexSearchRecursionDepth : option Z
}.

(** The options object [{}] *)
Definition noOptions : ExecutionOptions :=
  mkExecutionOptions None None false false None None.

(** The members of the GraphQL operation that [resolveOperation] reads. *)
Record OperationDefinitionNode : Type := mkOperationDefinition {
  operation : string;
  name : option string;
  selectionSet : AnyValue
}.

(** [OperationParams]: the operation and what is copied into the profile. *)
Record OperationParams : Type := mkOperationParams {
  operationDefinition : OperationDefinitionNode;
  context : AnyValue;
  variableValues : AnyValue;
  fragments : AnyValue;
  schema : AnyValue
}.

(** [QueryNodeObjectType] is only handed on to the tree builder. *)
Record QueryNodeObjectType : Type := mkQueryNodeObjectType {
  typeName : string
}.

(** The [fieldContext] object literal. *)
Record FieldContext : Type := mkFieldContext {
  selectionStack : list string;
  flexSearchMaxFilterableAmountOverride : option Z;
  fieldFlexSearchRecursionDepth : option Z
}.

(** Elapsed times are numbers of clock units; a key read before it was
    written is [undefined]. *)
Definition Time := Z.
Definition Timings := Dict (option Time).

(** [res.timings]: the three members the profile copies. *)
Record DatabaseAdapterTimings : Type := mkAdapterTimings {
  adapterPreparation : Timings;
  adapterDatabase : Timings;
  adapterDbConnection : Timings
}.

(** The argument of [executeExt]: [{ queryTree, ...options }]. *)
Record ExecutionArgs : Type := mkExecutionArgs {
  queryTree : QueryNode;
  executionOptions : ExecutionOptions
}.

(** Modelled from the spec: what [executeExt] resolves to,
    "{ data, error?, plan?, stats?, timings? }". *)
Record AdapterResult : Type := mkAdapterResult {
  resData : AnyValue;
  resError : option string;
  resPlan : option AnyValue;
  resStats : option AnyValue;
  resTimings : option DatabaseAdapterTimings
}.

(** Modelled from the spec: the "core-facing contract with the backend":
    [execute], the optional [executeExt], and [tokenizeExpressions]; each of
    them may throw (reject). *)
Record DatabaseAdapter : Type := mkDatabaseAdapter {
  execute : QueryNode -> outcome AnyValue;
  executeExt : option (ExecutionArgs -> outcome AdapterResult);
  tokenizeExpressions :
    list FlexSearchTokenizable -> outcome (list FlexSearchTokenization)
}.

(** The members of [SchemaTransformationContext] that [resolveOperation]
    reads; [profileConsumer] is read for its truthiness only. *)
Record SchemaTransformationContext : Type := mkContext {
  profileConsumer : bool;
  getExecutionOptions : option (OperationParams -> outcome ExecutionOptions);
  databaseAdapter : DatabaseAdapter
}.

(** The [timings] object literal of the profile. *)
Record ProfileTimings : Type := mkProfileTimings {
  database : Timings;
  dbConnection : Timings;
  preparation : Timings;
  total : Time
}.

(** The [profile] object literal. *)
Record RequestProfile : Type := mkRequestProfile {
  timings : ProfileTimings;
  plan : option AnyValue;
  stats : AnyValue;
  profileContext : AnyValue;
  profileOperation : OperationDefinitionNode;
  profileVariableValues : AnyValue;
  profileFragments : AnyValue;
  profileSchema : AnyValue
}.

(** The result envelope [{ data, error, profile }]. *)
Record ExecutionResult : Type := mkExecutionResult {
  data : AnyValue;
  error : option string;
  profile : option RequestProfile
}.

(** The functions the resolver imports from modules that are not part of
    the files modelled here; the resolver is parametric in them.  Those that
    build nodes take the next free reference and return the new one. *)
Record Imports : Type := mkImports {
  distillOperation : OperationParams -> outcome AnyValue;
  buildConditionalObjectQueryNode :
    QueryNode -> QueryNodeObjectType -> AnyValue -> FieldContext -> Ref ->
    outcome (QueryNode * Ref);
  expand : QueryNode -> list FlexSearchTokenization -> Ref -> QueryNode * Ref;
  applyAuthorizationToQueryTree :
    QueryNode -> list string -> Ref -> outcome (QueryNode * Ref);
  (* { canEvaluateStatically, result } *)
  evaluateQueryStatically : QueryNode -> bool * AnyValue;
  (* the value of the k-th reading of the clock *)
  getPreciseTime : nat -> Time
}.

(** *** The process-wide state a request can touch *)

(** Calls that leave the resolver, in the order they are made. *)
Inductive Call : Type :=
| CallDistillOperation
| CallBuildQueryTree
| CallTokenizeExpressions (tokenizations : list FlexSearchTokenizable)
| CallApplyAuthorization (tree : QueryNode)
| CallEvaluateStatically (tree : QueryNode)
| CallExecuteExt (tree : QueryNode)
| CallExecute (tree : QueryNode).

Record World : Type := mkWorld {
  registeredContext : option SchemaTransformationContext;
  nextRef : Ref;
  clockReadings : nat;
  calls : list Call
}.

(** A computation that may throw; the world it leaves behind is kept in
    both cases. *)
Definition M (A : Type) : Type := World -> World * outcome A.

Definition ret {A} (a : A) : M A := fun w => (w, Returned a).

Definition throw {A} (message : string) : M A := fun w => (w, Thrown message).

Definition bind {A B} (c : M A) (k : A -> M B) : M B :=
  fun w =>
    match c w with
    | (w', Returned a) => k a w'
    | (w', Thrown e) => (w', Thrown e)
    end.

(** [try { body } finally { cleanup }] for a cleanup that does not throw. *)
Definition tryFinally {A} (body : M A) (cleanup : World -> World) : M A :=
  fun w =>
    match body w with
    | (w', r) => (cleanup w', r)
    end.

Definition liftOutcome {A} (r : outcome A) : M A := fun w => (w, r).

Definition record (c : Call) : M unit :=
  fun w => (mkWorld (registeredContext w) (nextRef w) (clockReadings w)
                    (calls w ++ [c]), Returned tt).

Definition getNextRef : M Ref := fun w => (w, Returned (nextRef w)).

Definition setNextRef (r : Ref) : M unit :=
  fun w => (mkWorld (registeredContext w) r (clockReadings w) (calls w),
            Returned tt).

Declare Scope resolver_scope.
Delimit Scope resolver_scope with resolver.
Notation "x <- c ;; k" := (bind c (fun x => k))
  (at level 61, c at next level, right associativity) : resolver_scope.
Notation "c ;; k" := (bind c (fun _ => k))
  (at level 61, right associativity) : resolver_scope.
Local Open Scope resolver_scope.

(** Modelled from the spec: [globalContext.registerContext] of config/global,
    a module outside the files modelled here: "the context is registered at
    the start of resolution and unregistered" afterwards; one context is
    registered at a time. *)
Definition registerContext (context : SchemaTransformationContext) : M unit :=
  fun w => (mkWorld (Some context) (nextRef w) (clockReadings w) (calls w),
            Returned tt).

(** Modelled from the spec: [globalContext.unregisterContext], which leaves
    no context registered ("a failed request never leaves stale context"). *)
Definition unregisterContext (w : World) : World :=
  mkWorld None (nextRef w) (clockReadings w) (calls w).

(** Reading the clock: the k-th reading of the process is
    [getPreciseTime k]. *)
Definition now (imports : Imports) : M Time :=
  fun w => (mkWorld (registeredContext w) (nextRef w) (S (clockReadings w))
                    (calls w),
            Returned (getPreciseTime imports (clockReadings w))).

(** Modelled from the spec: [Watch] of utils/watch, a module outside the
    files modelled here.  The orchestrator "collects optional per-phase
    elapsed-time samples": a watch remembers when it was last stopped and
    the samples taken so far. *)
Record Watch : Type := mkWatch {
  lastTime : Time;
  watchTimings : Timings
}.

(** Modelled from the spec: [new Watch()] starts timing at the current
    reading of the clock. *)
Definition newWatch (imports : Imports) : M Watch :=
  t <- now imports ;; ret (mkWatch t []).

(** Modelled from the spec: [watch.stop(name)] stores the time elapsed since
    the previous stop (or since creation) as the sample of the phase [name]. *)
Definition stop (imports : Imports) (name : string) (watch : Watch) : M Watch :=
  t <- now imports ;;
  ret (mkWatch t (setKey name (Some (t - lastTime watch)%Z) (watchTimings watch))).

(** [needsTimings ? new Watch() : undefined] *)
Definition newWatchIf (imports : Imports) (needsTimings : bool) : M (option Watch) :=
  if needsTimings then (w <- newWatch imports ;; ret (Some w)) else ret None.

(** [if (watch) { watch.stop(name); }] *)
Definition stopIf (imports : Imports) (name : string) (watch : option Watch)
  : M (option Watch) :=
  match watch with
  | Some w => w' <- stop imports name w ;; ret (Some w')
  | None => ret None
  end.

(** [watch.timings[name]] *)
Definition readTiming (name : string) (watch : Watch) : option Time :=
  match getKey name (watchTimings watch) with
  | Some t => t
  | None => None
  end.

(** *** queryFlexSearchTokens *)

(** The inner function [collectTokenizations].  An [ObjectQueryNode] has
    the single own property [properties], an array, so the loop over
    [Object.keys] adds nothing to what the loop over the properties
    found. *)
Fixpoint collectTokenizations (queryNode : QueryNode) : list FlexSearchTokenizable :=
  let overKeys :=
    flat_map (fun field : string * FieldValue QueryNode =>
                match snd field with
                | NodeValue childNode => collectTokenizations childNode
                | _ => []
                end) in
  match queryNode with
  | FlexSearchComplexOperatorQueryNode _ expression flexSearchLanguage fields =>
      [mkTokenizable expression flexSearchLanguage] ++ overKeys fields
  | ObjectQueryNode _ properties =>
      flat_map (fun property => collectTokenizations (valueNode property)) properties
  | OtherQueryNode _ _ fields => overKeys fields
  end.

Definition queryFlexSearchTokens (queryTree : QueryNode)
    (databaseAdapter : DatabaseAdapter) : M (list FlexSearchTokenization) :=
  let tokenizations := collectTokenizations queryTree in
  record (CallTokenizeExpressions tokenizations) ;;
  liftOutcome (tokenizeExpressions databaseAdapter tokenizations).

(** *** expandQueryNode *)

(** A loop over a list whose body allocates. *)
Section Allocating.
Context {A B : Type} (body : A -> Ref -> B * Ref).

Fixpoint forEach (items : list A) (next : Ref) : list B * Ref :=
  match items with
  | [] => ([], next)
  | a :: items' =>
      let (b, next1) := body a next in
      let (bs, next2) := forEach items' next1 in
      (b :: bs, next2)
  end.
End Allocating.

Fixpoint expandQueryNode (imports : Imports) (queryNode : QueryNode)
    (tokenizations : list FlexSearchTokenization) (next : Ref) {struct queryNode}
  : QueryNode * Ref :=
  match queryNode with
  | FlexSearchComplexOperatorQueryNode _ _ _ _ =>
      expand imports queryNode tokenizations next
  | ObjectQueryNode _ properties =>
      let (specs, next') :=
        forEach (fun property n =>
                   let (expandedValueNode, n1) :=
                     expandQueryNode imports (valueNode property) tokenizations n in
                   (mkPropertySpecification n1 (propertyName property)
                                            expandedValueNode, S n1))
                properties next in
      (ObjectQueryNode next' specs, S next')
  | OtherQueryNode _ className fields =>
      (* each field paired with "it was put into newFieldValues" *)
      let (visited, next') :=
        forEach (fun (field : string * FieldValue QueryNode) n =>
                   match snd field with
                   | NodeValue oldValue =>
                       let (newValue, n1) :=
                         expandQueryNode imports oldValue tokenizations n in
                       if Nat.eqb (nodeRef newValue) (nodeRef oldValue)
                       then ((field, false), n1)
                       else (((fst field, NodeValue newValue), true), n1)
                   | _ => ((field, false), n)
                   end)
                fields next in
      let hasChanged := existsb snd visited in
      if hasChanged
      then (OtherQueryNode next' className (map fst visited), S next')
      else (queryNode, next')
  end.

(** What expansion achieves on a node none of whose visited arrays holds an
    operator, started with a free reference above those of the visited nodes:
    the counter does not go back, the result is the node itself or a newly
    allocated one, and no operator is left in it. *)
Definition expandsCleanly (imports : Imports) (toks : list FlexSearchTokenization)
    (n : QueryNode) : Prop :=
  forall next,
    maxVisitedRef n < next ->
    operatorHeldInArray n = false ->
    next <= snd (expandQueryNode imports n toks next)
    /\ (fst (expandQueryNode imports n toks next) = n
        \/ next <= nodeRef (fst (expandQueryNode imports n toks next)))
    /\ containsFlexSearchOperator (fst (expandQueryNode imports n toks next)) = false.

Definition expandQueryTree (imports : Imports) (queryNode : QueryNode)
    (tokenizations : list FlexSearchTokenization) : M QueryNode :=
  next <- getNextRef ;;
  let (expanded, next') := expandQueryNode imports queryNode tokenizations next in
  setNextRef next' ;;
  ret expanded.

(** *** resolveOperation *)

(** [if (!options) { options = this.context.getExecutionOptions ? ... : {}; }]:
    the options the request runs with; the callback may throw. *)
Definition effectiveOptions (this : SchemaTransformationContext)
    (operationInfo : OperationParams) (options : option ExecutionOptions)
  : outcome ExecutionOptions :=
  match options with
  | Some given => Returned given
  | None =>
      match getExecutionOptions this with
      | Some callback => callback operationInfo
      | None => Returned noOptions
      end
  end.

(** [operation === 'mutation' && options.mutationMode === 'disallowed'] *)
Definition mutationRejected (operationInfo : OperationParams)
    (options : ExecutionOptions) : bool :=
  String.eqb (operation (operationDefinition operationInfo)) "mutation"
  && match mutationMode options with
     | Some mode => String.eqb mode "disallowed"
     | None => false
     end.

(** The body of the [try] block: it yields the authorized tree, and the
    stopwatch as the block leaves it. *)
Definition prepareQueryTree (imports : Imports) (this : SchemaTransformationContext)
    (operationInfo : OperationParams) (rootType : QueryNodeObjectType)
    (options : ExecutionOptions) (watch : option Watch)
  : M (QueryNode * option Watch) :=
  let requestRoles :=
    match authRoles options with Some roles => roles | None => [] end in
  record CallDistillOperation ;;
  distilled <- liftOutcome (distillOperation imports operationInfo) ;;
  watch <- stopIf imports "distillation" watch ;;
  let rootQueryNode := EMPTY in
  let fieldContext :=
    mkFieldContext [] (flexSearchMaxFilterableAndSortableAmount options)
                   (flexSearchRecursionDepth options) in
  record CallBuildQueryTree ;;
  next <- getNextRef ;;
  built <- liftOutcome (buildConditionalObjectQueryNode imports rootQueryNode
                          rootType distilled fieldContext next) ;;
  setNextRef (snd built) ;;
  let queryTree := fst built in
  tokens <- queryFlexSearchTokens queryTree (databaseAdapter this) ;;
  queryTree <- expandQueryTree imports queryTree tokens ;;
  watch <- stopIf imports "queryTree" watch ;;
  record (CallApplyAuthorization queryTree) ;;
  next <- getNextRef ;;
  authorized <- liftOutcome (applyAuthorizationToQueryTree imports queryTree
                               requestRoles next) ;;
  setNextRef (snd authorized) ;;
  let queryTree := fst authorized in
  watch <- stopIf imports "authorization" watch ;;
  ret (queryTree, watch).

(** [executeExt ? await executeExt({ queryTree, ...options })
                : { data: execute(queryTree) }] *)
Definition runOnAdapter (databaseAdapter : DatabaseAdapter) (queryTree : QueryNode)
    (options : ExecutionOptions) : M AdapterResult :=
  match executeExt databaseAdapter with
  | Some extended =>
      record (CallExecuteExt queryTree) ;;
      liftOutcome (extended (mkExecutionArgs queryTree options))
  | None =>
      record (CallExecute queryTree) ;;
      data <- liftOutcome (execute databaseAdapter queryTree) ;;
      ret (mkAdapterResult data None None None None)
  end.

(** The [timings] object of the profile. *)
Definition profileTimings (dbAdapterTimings : option DatabaseAdapterTimings)
    (watch topLevelWatch : Watch) (elapsed : Time) : ProfileTimings :=
  let preparation :=
    assign (assign (match dbAdapterTimings with
                    | Some t => adapterPreparation t
                    | None => []
                    end)
                   (watchTimings watch))
           [("total", readTiming "preparation" topLevelWatch)] in
  mkProfileTimings
    (match dbAdapterTimings with
     | Some t => adapterDatabase t
     | None => [("total", readTiming "database" watch)]
     end)
    (match dbAdapterTimings with
     | Some t => adapterDbConnection t
     | None => [("total", Some 0%Z)]
     end)
    preparation
    elapsed.

Definition buildProfile (imports : Imports) (operationInfo : OperationParams)
    (watch topLevelWatch : option Watch) (start : option Time)
    (dbAdapterTimings : option DatabaseAdapterTimings)
    (plan : option AnyValue) (stats : AnyValue) : M (option RequestProfile) :=
  match watch, topLevelWatch, start with
  | Some watch, Some topLevelWatch, Some start =>
      finish <- now imports ;;
      ret (Some (mkRequestProfile
                   (profileTimings dbAdapterTimings watch topLevelWatch
                                   (finish - start)%Z)
                   plan stats
                   (context operationInfo)
                   (operationDefinition operationInfo)
                   (variableValues operationInfo)
                   (fragments operationInfo)
                   (schema operationInfo)))
  | _, _, _ => ret None
  end.

(** The statements after the [try] block: static evaluation, the backend
    if it is needed, and the result envelope. *)
Definition finishOperation (imports : Imports) (this : SchemaTransformationContext)
    (operationInfo : OperationParams) (options : ExecutionOptions)
    (watch topLevelWatch : option Watch) (start : option Time)
    (queryTree : QueryNode) : M ExecutionResult :=
  record (CallEvaluateStatically queryTree) ;;
  let (canEvaluateStatically, staticData) :=
    evaluateQueryStatically imports queryTree in
  watches <- match watch, topLevelWatch with
             | Some running, Some topLevel =>
                 running <- stop imports "staticEvaluation" running ;;
                 topLevel <- stop imports "preparation" topLevel ;;
                 ret (Some running, Some topLevel)
             | _, _ => ret (watch, topLevelWatch)
             end ;;
  let watch := fst watches in
  let topLevelWatch := snd watches in
  if canEvaluateStatically
  then
    profile <- buildProfile imports operationInfo watch topLevelWatch start
                            None None (VObject []) ;;
    ret (mkExecutionResult staticData None profile)
  else
    res <- runOnAdapter (databaseAdapter this) queryTree options ;;
    topLevelWatch <- stopIf imports "database" topLevelWatch ;;
    let stats :=
      match resStats res with Some s => s | None => VObject [] end in
    profile <- buildProfile imports operationInfo watch topLevelWatch start
                            (resTimings res) (resPlan res) stats ;;
    ret (mkExecutionResult (resData res) (resError res) profile).

(** [needsTimings] *)
Definition needsTimings (this : SchemaTransformationContext)
    (options : ExecutionOptions) : bool :=
  profileConsumer this || recordPlan options || recordTimings options.

Definition resolveOperation (imports : Imports) (this : SchemaTransformationContext)
    (operationInfo : OperationParams) (rootType : QueryNodeObjectType)
    (options : option ExecutionOptions) : M ExecutionResult :=
  registerContext this ;;
  options <- liftOutcome (effectiveOptions this operationInfo options) ;;
  let needsTimings := needsTimings this options in
  watch <- newWatchIf imports needsTimings ;;
  topLevelWatch <- newWatchIf imports needsTimings ;;
  start <- (if needsTimings
            then (t <- now imports ;; ret (Some t))
            else ret None) ;;
  if mutationRejected operationInfo options
  then throw "Mutations are not allowed"
  else
    prepared <- tryFinally
                  (prepareQueryTree imports this operationInfo rootType options watch)
                  unregisterContext ;;
    finishOperation imports this operationInfo options
                    (snd prepared) topLevelWatch start (fst prepared).

(** *** Reading the call log *)

Definition isBackendCall (c : Call) : bool :=
  match c with
  | CallExecuteExt _ | CallExecute _ => true
  | _ => false
  end.

Definition isTokenizeCall (c : Call) : bool :=
  match c with
  | CallTokenizeExpressions _ => true
  | _ => false
  end.

(** The clock reading number [k] of a request that starts in [w], and the
    time that passes from reading [from] to reading [to]. *)
Definition readingAt (imports : Imports) (w : World) (k : nat) : Time :=
  getPreciseTime imports (k + clockReadings w).

Definition elapsed (imports : Imports) (w : World) (from to : nat) : Time :=
  (readingAt imports w to - readingAt imports w from)%Z.

(** [res.timings.preparation], or [{}] if the adapter reports no timings. *)
Definition adapterPreparationOf (res : AdapterResult) : Timings :=
  match resTimings res with
  | Some t => adapterPreparation t
  | None => []
  end.

(** The phases the stopwatch of the [try] block records. *)
Definition preparationPhases : list string :=
  ["distillation"; "queryTree"; "authorization"].

(** The timing keys the profile of a request shows under [preparation]. *)
Definition profiledPhases : list string :=
  ["distillation"; "queryTree"; "authorization"; "staticEvaluation"; "total"].

End Resolver.
Import Resolver.

(** ** Evaluating a merge node *)

Module Evaluation.

(** Modelled from the spec: the value of a property that an evaluated input
    of a merge holds.  The evaluators of the query tree (the backend
    adapters and the static evaluator) are outside the files modelled here.
    "Setting a property's value to an explicit null sentinel in a later
    input removes that property from the merged result (distinct from a
    JSON null value)." *)
Inductive PropertyValue : Type :=
| Value (v : AnyValue)
| REMOVE.

Definition ObjectValue := Dict PropertyValue.

(** The binding of [k] that is written last in [o]. *)
Definition lastBinding (k : string) (o : list (string * PropertyValue))
  : option PropertyValue :=
  getKey k (rev o).

(** Modelled from the spec: merging one more input into the object merged
    so far.  "Merges the top-level properties ... Non-recursive: nested
    objects are replaced wholesale"; "behaves like the {...objectSpread}
    operator in JavaScript" (doc comment of [MergeObjectsQueryNode]). *)
Definition mergeInto (merged : PlainObject) (input : ObjectValue) : PlainObject :=
  fold_left (fun acc kv =>
               match snd kv with
               | Value v => setKey (fst kv) v acc
               | REMOVE => deleteKey (fst kv) acc
               end) input merged.

(** Modelled from the spec: the merge of the evaluated inputs, in input
    order: "the node that appears later in the input sequence wins". *)
Definition mergeObjects (inputs : list ObjectValue) : PlainObject :=
  fold_left mergeInto inputs [].

(** The [objectNodes] of a [MergeObjectsQueryNode]. *)
Definition objectNodesOf (node : QueryNode) : option (list QueryNode) :=
  match node with
  | OtherQueryNode _ className [(_, NodeArray objectNodes)] =>
      if String.eqb className "MergeObjectsQueryNode" then Some objectNodes else None
  | _ => None
  end.

Fixpoint evaluateAll (evaluate : QueryNode -> option ObjectValue)
    (nodes : list QueryNode) : option (list ObjectValue) :=
  match nodes with
  | [] => Some []
  | n :: nodes' =>
      match evaluate n, evaluateAll evaluate nodes' with
      | Some o, Some os => Some (o :: os)
      | _, _ => None
      end
  end.

(** Modelled from the spec: evaluating a [MergeObjectsQueryNode], given how
    its inputs evaluate. *)
Definition evaluateMerge (evaluate : QueryNode -> option ObjectValue)
    (node : QueryNode) : option PlainObject :=
  match objectNodesOf node with
  | Some objectNodes => option_map mergeObjects (evaluateAll evaluate objectNodes)
  | None => None
  end.

End Evaluation.
Import Evaluation.

(** ** Create input types (schema-generation/create-input-type-generator.ts) *)

Module CreateInput.

(** Modelled from the spec: [Field] of the model, whose declaration is not
    among the files modelled here ("object-model metadata per selected field
    (... default values)"): the members this file reads, and the identity
    of the field object, by which a [Set<Field>] tells fields apart. *)
Record Field : Type := mkField {
  fieldRef : nat;
  name : string;
  hasDefaultValue : bool;
  defaultValue : AnyValue
}.

(** Which of the three classes an input type is an instance of. *)
Inductive InputTypeClass : Type :=
| CreateObjectInputTypeClass
| CreateRootEntityInputTypeClass
| CreateChildEntityInputTypeClass.

(** The implementations of [CreateInputField], and [CreateObjectInputType]
    with its subclasses.  The GraphQL type each of them carries is not read
    by the functions below. *)
Inductive CreateInputField : Type :=
| BasicCreateInputField (field : Field)
| BasicListCreateInputField (field : Field)
| ObjectCreateInputField (field : Field) (objectInputType : CreateObjectInputType)
| ObjectListCreateInputField (field : Field) (objectInputType : CreateObjectInputType)
with CreateObjectInputType : Type :=
| mkCreateObjectInputType (class : InputTypeClass) (typeName : string)
    (fields : list CreateInputField).

Definition fieldOf (inputField : CreateInputField) : Field :=
  match inputField with
  | BasicCreateInputField f => f
  | BasicListCreateInputField f => f
  | ObjectCreateInputField f _ => f
  | ObjectListCreateInputField f _ => f
  end.

(** [get name() { return this.field.name; }] *)
Definition inputFieldName (inputField : CreateInputField) : string :=
  name (fieldOf inputField).

Definition fieldsOf (inputType : CreateObjectInputType) : list CreateInputField :=
  match inputType with
  | mkCreateObjectInputType _ _ fields => fields
  end.

Definition classOf (inputType : CreateObjectInputType) : InputTypeClass :=
  match inputType with
  | mkCreateObjectInputType class _ _ => class
  end.

(** [appliesToMissingFields()] *)
Definition appliesToMissingFields (inputField : CreateInputField) : bool :=
  hasDefaultValue (fieldOf inputField).

(** The predicate of [getApplicableInputFields]:
    [field.name in value || field.appliesToMissingFields()] *)
Definition isApplicable (value : PlainObject) (inputField : CreateInputField) : bool :=
  hasProperty (inputFieldName inputField) value || appliesToMissingFields inputField.

Definition getApplicableInputFields (inputType : CreateObjectInputType)
    (value : PlainObject) : list CreateInputField :=
  filter (isApplicable value) (fieldsOf inputType).

(** What the module takes from outside: the constants of schema-defaults,
    the clock behind [getCurrentISODate] and the generator behind [uuid];
    the k-th date read is [isoDate k], the k-th identifier drawn [uuid k]. *)
Record Runtime : Type := mkRuntime {
  ID_FIELD : string;
  ENTITY_CREATED_AT : string;
  ENTITY_UPDATED_AT : string;
  isoDate : nat -> string;
  uuid : nat -> string
}.

Record Drawn : Type := mkDrawn {
  datesRead : nat;
  uuidsDrawn : nat
}.

(** A computation that reads dates or identifiers and may throw. *)
Definition P (A : Type) : Type := Drawn -> outcome A * Drawn.

Definition pure {A} (a : A) : P A := fun d => (Returned a, d).

Definition raise {A} (message : string) : P A := fun d => (Thrown message, d).

Definition andThen {A B} (c : P A) (k : A -> P B) : P B :=
  fun d =>
    match c d with
    | (Returned a, d') => k a d'
    | (Thrown e, d') => (Thrown e, d')
    end.

Definition getCurrentISODate (runtime : Runtime) : P string :=
  fun d => (Returned (isoDate runtime (datesRead d)),
            mkDrawn (S (datesRead d)) (uuidsDrawn d)).

Definition drawUuid (runtime : Runtime) : P string :=
  fun d => (Returned (uuid runtime (uuidsDrawn d)),
            mkDrawn (datesRead d) (S (uuidsDrawn d))).

(** [items.map(body)] for a body with effects *)
Section Traversal.
Context {A B : Type} (body : A -> P B).

Fixpoint mapP (items : list A) : P (list B) :=
  match items with
  | [] => pure []
  | a :: items' =>
      andThen (body a) (fun b =>
      andThen (mapP items') (fun bs => pure (b :: bs)))
  end.
End Traversal.

(** [getAdditionalProperties] of the three classes *)
Definition getAdditionalProperties (runtime : Runtime) (class : InputTypeClass)
  : P PlainObject :=
  match class with
  | CreateObjectInputTypeClass => pure []
  | CreateRootEntityInputTypeClass =>
      andThen (getCurrentISODate runtime) (fun now =>
      pure (fromPairs [(ENTITY_CREATED_AT runtime, VString now);
                       (ENTITY_UPDATED_AT runtime, VString now)]))
  | CreateChildEntityInputTypeClass =>
      andThen (getCurrentISODate runtime) (fun now =>
      andThen (drawUuid runtime) (fun id =>
      pure (fromPairs [(ID_FIELD runtime, VString id);
                       (ENTITY_CREATED_AT runtime, VString now);
                       (ENTITY_UPDATED_AT runtime, VString now)])))
  end.

(** [typeof value] *)
Definition typeofValue (value : AnyValue) : string :=
  match value with
  | VUndefined => "undefined"
  | VBool _ => "boolean"
  | VNumber _ => "number"
  | VString _ => "string"
  | VNull | VArray _ | VObject _ => "object"
  | VFunction _ => "function"
  end.

Definition doubleQuote : string := String (Ascii.ascii_of_nat 34) EmptyString.

Definition expectedArray (inputField : CreateInputField) (value : AnyValue) : string :=
  "Expected value for " ++ doubleQuote ++ inputFieldName inputField ++ doubleQuote
    ++ " to be an array, but is " ++ doubleQuote ++ typeofValue value ++ doubleQuote.

(** [prepareValue] and [collectAffectedFields] of an object input type are
    declared for a [PlainObject]; handing them anything else is a type
    error.  That includes the function read under the name of an inherited
    member: which properties [in] finds on it depends on the engine and is
    not modelled, a run that comes there stops with this error. *)
Definition notAPlainObject : string := "TypeError: not a plain object".

(** The body of [BasicCreateInputField.getProperties], for the
    [coerceValue] of the class at hand. *)
Definition getPropertiesWith (coerceValue : AnyValue -> P AnyValue) (field : Field)
    (value : AnyValue) : P PlainObject :=
  let value :=
    if isUndefined value && hasDefaultValue field then defaultValue field else value in
  andThen (coerceValue value) (fun value =>
  pure [(name field, value)]).

(** [CreateObjectInputType.prepareValue] and the [coerceValue] of the four
    field classes.  [prepareValue] walks all fields and skips those that
    [getApplicableInputFields] filters out, which contribute no pair. *)
Fixpoint prepareValue (runtime : Runtime) (inputType : CreateObjectInputType)
    (value : PlainObject) {struct inputType} : P PlainObject :=
  match inputType with
  | mkCreateObjectInputType class _ fields =>
      andThen (mapP (fun inputField =>
                       if isApplicable value inputField
                       then andThen (getPropertiesWith
                                       (coerceValue runtime inputField)
                                       (fieldOf inputField)
                                       (getProp (inputFieldName inputField) value))
                                    (fun properties => pure (toPairs properties))
                       else pure [])
                    fields) (fun pairs =>
      andThen (getAdditionalProperties runtime class) (fun additional =>
      pure (fromPairs (concat pairs ++ toPairs additional))))
  end
with coerceValue (runtime : Runtime) (inputField : CreateInputField)
    (value : AnyValue) {struct inputField} : P AnyValue :=
  match inputField with
  | BasicCreateInputField _ => pure value
  | BasicListCreateInputField _ =>
      if isNull value then pure (VArray []) else pure value
  | ObjectCreateInputField _ objectInputType =>
      if isNullish value then pure value
      else match value with
           | VObject o =>
               andThen (prepareValue runtime objectInputType o) (fun prepared =>
               pure (VObject prepared))
           | _ => raise notAPlainObject
           end
  | ObjectListCreateInputField _ objectInputType =>
      if isNull value then pure (VArray [])
      else if isUndefined value then pure VUndefined
      else match value with
           | VArray items =>
               andThen (mapP (fun item =>
                                match item with
                                | VObject o =>
                                    andThen (prepareValue runtime objectInputType o)
                                            (fun prepared => pure (VObject prepared))
                                | _ => raise notAPlainObject
                                end) items) (fun prepared =>
               pure (VArray prepared))
           | _ => raise (expectedArray inputField value)
           end
  end.

Definition getProperties (runtime : Runtime) (inputField : CreateInputField)
    (value : AnyValue) : P PlainObject :=
  getPropertiesWith (coerceValue runtime inputField) (fieldOf inputField) value.

(** [Set<Field>]: insertion-ordered, one entry per field object. *)
Definition FieldSet := list Field.

Definition sameField (f g : Field) : bool := Nat.eqb (fieldRef f) (fieldRef g).

Definition add (f : Field) (fields : FieldSet) : FieldSet :=
  if existsb (sameField f) fields then fields else fields ++ [f].

(** [items.forEach(body)] for a body that updates the set and may throw *)
Section ForEach.
Context {A : Type} (body : A -> FieldSet -> outcome FieldSet).

Fixpoint forEachField (items : list A) (fields : FieldSet) : outcome FieldSet :=
  match items with
  | [] => Returned fields
  | a :: items' =>
      match body a fields with
      | Returned fields' => forEachField items' fields'
      | Thrown e => Thrown e
      end
  end.
End ForEach.

(** [BasicCreateInputField.collectAffectedFields] *)
Definition collectBasic (field : Field) (value : AnyValue) (fields : FieldSet)
  : FieldSet :=
  if isUndefined value then fields else add field fields.

(** [CreateObjectInputType.collectAffectedFields] and the
    [collectAffectedFields] of the four field classes *)
Fixpoint collectAffectedFields (inputType : CreateObjectInputType)
    (value : PlainObject) (fields : FieldSet) {struct inputType} : outcome FieldSet :=
  match inputType with
  | mkCreateObjectInputType _ _ inputFields =>
      forEachField (fun inputField collected =>
                      if isApplicable value inputField
                      then collectAffectedFieldsOf inputField
                             (getProp (inputFieldName inputField) value) collected
                      else Returned collected)
                   inputFields fields
  end
with collectAffectedFieldsOf (inputField : CreateInputField) (value : AnyValue)
    (fields : FieldSet) {struct inputField} : outcome FieldSet :=
  match inputField with
  | BasicCreateInputField field => Returned (collectBasic field value fields)
  | BasicListCreateInputField field => Returned (collectBasic field value fields)
  | ObjectCreateInputField field objectInputType =>
      let fields := collectBasic field value fields in
      if isNullish value then Returned fields
      else match value with
           | VObject o => collectAffectedFields objectInputType o fields
           | _ => Thrown notAPlainObject
           end
  | ObjectListCreateInputField field objectInputType =>
      let fields := collectBasic field value fields in
      if isNullish value then Returned fields
      else match value with
           | VArray items =>
               forEachField (fun item collected =>
                               match item with
                               | VObject o =>
                                   collectAffectedFields objectInputType o collected
                               | _ => Thrown notAPlainObject
                               end) items fields
           | _ => Thrown (expectedArray inputField value)
           end
  end.

(** [getAffectedFields] *)
Definition getAffectedFields (inputType : CreateObjectInputType)
    (value : PlainObject) : outcome (list Field) :=
  collectAffectedFields inputType value [].

(** The model fields of the input types nested below an input type. *)
Fixpoint modelFields (inputType : CreateObjectInputType) : list Field :=
  match inputType with
  | mkCreateObjectInputType _ _ inputFields =>
      flat_map (fun inputField =>
                  fieldOf inputField :: nestedFieldsOf inputField) inputFields
  end
with nestedFieldsOf (inputField : CreateInputField) : list Field :=
  match inputField with
  | BasicCreateInputField _ | BasicListCreateInputField _ => []
  | ObjectCreateInputField _ objectInputType => modelFields objectInputType
  | ObjectListCreateInputField _ objectInputType => modelFields objectInputType
  end.

Definition nestedModelFields (inputType : CreateObjectInputType) : list Field :=
  flat_map nestedFieldsOf (fieldsOf inputType).

(** Is the input field one of the two list-valued classes? *)
Definition isListField (inputField : CreateInputField) : bool :=
  match inputField with
  | BasicListCreateInputField _ | ObjectListCreateInputField _ _ => true
  | _ => false
  end.

(** The keys [getAdditionalProperties] writes for a class of input type. *)
Definition additionalKeys (runtime : Runtime) (class : InputTypeClass) : list string :=
  match class with
  | CreateObjectInputTypeClass => []
  | CreateRootEntityInputTypeClass =>
      [ENTITY_CREATED_AT runtime; ENTITY_UPDATED_AT runtime]
  | CreateChildEntityInputTypeClass =>
      [ID_FIELD runtime; ENTITY_CREATED_AT runtime; ENTITY_UPDATED_AT runtime]
  end.

(** The value [getProperties] hands to [coerceValue]. *)
Definition valueOrDefault (field : Field) (value : AnyValue) : AnyValue :=
  if isUndefined value && hasDefaultValue field then defaultValue field else value.

(** The input gives a value for the field object [F]: in the input object
    itself, or in an object nested in it under an object field or in an item
    of a list of objects, the property of an input field for [F] reads as
    something else than [undefined]. *)
Inductive Given : CreateObjectInputType -> PlainObject -> Field -> Prop :=
| given_here t value f :
    In f (fieldsOf t) ->
    isUndefined (getProp (inputFieldName f) value) = false ->
    Given t value (fieldOf f)
| given_in_object t value field nested o F :
    In (ObjectCreateInputField field nested) (fieldsOf t) ->
    getProp (name field) value = VObject o ->
    Given nested o F ->
    Given t value F
| given_in_item t value field nested items o F :
    In (ObjectListCreateInputField field nested) (fieldsOf t) ->
    getProp (name field) value = VArray items ->
    In (VObject o) items ->
    Given nested o F ->
    Given t value F.

End CreateInput.
Import CreateInput.

(** * Sample inputs *)

Module Samples.

(** Two object nodes that evaluate to {a:1, b:2} and {b:3, c:4}. *)
Definition evaluateSample (node : QueryNode) : option ObjectValue :=
  match nodeRef node with
  | 1 => Some [("a", Value (VNumber 1)); ("b", Value (VNumber 2))]
  | 2 => Some [("b", Value (VNumber 3)); ("c", Value (VNumber 4))]
  | _ => None
  end.

(** A field with a default, a field without one and a nested object. *)
Definition statusField : Field := mkField 1 "status" true (VString "new").
Definition titleField : Field := mkField 2 "title" false VUndefined.
Definition streetField : Field := mkField 3 "street" true (VString "unknown").
Definition addressField : Field := mkField 4 "address" false VUndefined.

Definition sampleAddressInput : CreateObjectInputType :=
  mkCreateObjectInputType CreateObjectInputTypeClass "AddressInput"
    [BasicCreateInputField streetField].

Definition sampleInput : CreateObjectInputType :=
  mkCreateObjectInputType CreateObjectInputTypeClass "CreateTicketInput"
    [BasicCreateInputField statusField;
     BasicCreateInputField titleField;
     ObjectCreateInputField addressField sampleAddressInput].

(** A child entity with a list of scalars and a list of nested objects. *)
Definition tagsField : Field := mkField 5 "tags" false VUndefined.
Definition stopsField : Field := mkField 6 "stops" false VUndefined.

Definition sampleRuntime : Runtime :=
  mkRuntime "id" "createdAt" "updatedAt"
            (fun _ => "2019-01-01T00:00:00.000Z") (fun _ => "generated-id").

Definition sampleListInput : list CreateInputField :=
  [BasicListCreateInputField tagsField;
   ObjectListCreateInputField stopsField sampleAddressInput;
   BasicCreateInputField titleField].

Definition sampleListValue : PlainObject :=
  [("tags", VNull); ("stops", VNull); ("title", VNull)].

Definition samplePrepared : PlainObject :=
  [("tags", VArray []); ("stops", VArray []); ("title", VNull);
   ("id", VString "generated-id");
   ("createdAt", VString "2019-01-01T00:00:00.000Z");
   ("updatedAt", VString "2019-01-01T00:00:00.000Z")].

(** A search operator, and a merge node that holds it in [objectNodes]. *)
Definition operatorNode : QueryNode :=
  FlexSearchComplexOperatorQueryNode 1 "quick fox" "en" [].

Definition mergeWithOperator : QueryNode := MergeObjectsQueryNode 2 [operatorNode].

Definition objectWithOperator : QueryNode :=
  ObjectQueryNode 2 [mkPropertySpecification 3 "matches" operatorNode].

(** Collaborators for a run: the builder yields [tree], an operator expands
    to a constant, authorization leaves the tree as it is, nothing is
    evaluated statically, the clock advances by one unit per reading. *)
Definition sampleImports (tree : QueryNode) : Imports :=
  mkImports
    (fun _ => Returned (VObject []))
    (fun _ _ _ _ next => Returned (tree, next))
    (fun _ _ next =>
       (OtherQueryNode next "ConstBoolQueryNode" [("value", PlainValue (VBool true))],
        S next))
    (fun queryTree _ next => Returned (queryTree, next))
    (fun _ => (false, VUndefined))
    (fun reading => Z.of_nat reading).

Definition failedResult : AdapterResult :=
  mkAdapterResult VUndefined (Some "ArangoError: write-write conflict")
                  (Some (VString "plan")) None None.

(** An adapter whose [executeExt] answers with [answer]. *)
Definition sampleAdapter (answer : AdapterResult) : DatabaseAdapter :=
  mkDatabaseAdapter
    (fun _ => Returned VNull)
    (Some (fun _ => Returned answer))
    (fun tokenizations =>
       Returned (map (fun t => mkTokenization t [expression t]) tokenizations)).

Definition rowsResult : AdapterResult :=
  mkAdapterResult (VString "rows") None None None None.

Definition sampleContext : SchemaTransformationContext :=
  mkContext false None (sampleAdapter rowsResult).

Definition profiledContext (answer : AdapterResult) : SchemaTransformationContext :=
  mkContext true None (sampleAdapter answer).

Definition sampleQuery : OperationParams :=
  mkOperationParams (mkOperationDefinition "query" None VNull) VNull VNull VNull VNull.

Definition sampleMutation : OperationParams :=
  mkOperationParams (mkOperationDefinition "mutation" (Some "createTicket") VNull)
                    VNull VNull VNull VNull.

Definition readOnly : ExecutionOptions :=
  mkExecutionOptions None (Some "disallowed") false false None None.

Definition queryType : QueryNodeObjectType := mkQueryNodeObjectType "Query".

(** No context registered, references 0..3 in use, an empty call log. *)
Definition startWorld : World := mkWorld None 4 0 [].

(** What [objectWithOperator] expands to in [startWorld]. *)
Definition expandedObject : QueryNode :=
  ObjectQueryNode 6
    [mkPropertySpecification 5 "matches"
       (OtherQueryNode 4 "ConstBoolQueryNode" [("value", PlainValue (VBool true))])].

(** A comparison of two literals: no operator and no object node in it. *)
Definition comparisonNode : QueryNode :=
  OtherQueryNode 3 "BinaryOperationQueryNode"
    [("lhs", NodeValue (OtherQueryNode 1 "LiteralQueryNode"
                          [("value", PlainValue (VNumber 1))]));
     ("operator", PlainValue (VString "="));
     ("rhs", NodeValue (OtherQueryNode 2 "LiteralQueryNode"
                          [("value", PlainValue (VNumber 2))]))].

End Samples.
Import Samples.

(** ** Generating create input types (CreateInputTypeGenerator) *)

Module Generator.

(** Modelled from the spec: the types and the fields of the model, whose
    declarations are not among the files modelled here ("object-model
    metadata per selected field (is-list, is-relation/reference, nested
    type's own field metadata, default values)"): the kinds of type
    [CreateInputTypeGenerator] tells apart ([isScalarType], [isEnumType],
    [isRootEntityType], [isChildEntityType]) and the members of a field it
    reads besides those of [Field].  A field names its type; the model
    resolves the name, so that an object type can contain itself, as
    [Skill] with its field [skills: [Skill]] does in the model of
    spec/dev/model/simple.graphqls.  [keyFieldType] is what
    [getKeyFieldTypeOrThrow()] answers for a root entity type: the name of
    the scalar type of its key field, or the error it throws. *)
Inductive ModelType : Type :=
| ScalarType (typeName : string)
| EnumType (typeName : string)
| ObjectTypeNamed (typeName : string).

Record ModelField : Type := mkModelField {
  fieldObject : Field;
  isSystemField : bool;
  isList : bool;
  isRelation : bool;
  typeOf : ModelType
}.

Inductive ObjectKind : Type :=
| RootEntityKind (keyFieldType : outcome string)
| ChildEntityKind
| EntityExtensionKind
| ValueObjectKind.

Record ObjectType : Type := mkObjectType {
  kind : ObjectKind;
  objectTypeName : string;
  objectTypeFields : list ModelField
}.

(** [field.type] for a field of object type: the type of that name. *)
Definition Model : Type := string -> ObjectType.

(** [flatMap] of lodash, for a callback that may throw. *)
Section FlatMap.
Context {A B : Type} (callback : A -> outcome (list B)).

Fixpoint flatMapOutcome (items : list A) : outcome (list B) :=
  match items with
  | [] => Returned []
  | a :: items' =>
      match callback a with
      | Returned bs =>
          match flatMapOutcome items' with
          | Returned rest => Returned (bs ++ rest)
          | Thrown e => Thrown e
          end
      | Thrown e => Thrown e
      end
  end.
End FlatMap.

(** The class [generate] instantiates for an object type
    ([generateForRootEntityType], [generateForChildEntityType],
    [generateForSimpleObjectType]) and the name it gives the input type. *)
Definition inputClassOf (type : ObjectType) : InputTypeClass :=
  match kind type with
  | RootEntityKind _ => CreateRootEntityInputTypeClass
  | ChildEntityKind => CreateChildEntityInputTypeClass
  | EntityExtensionKind | ValueObjectKind => CreateObjectInputTypeClass
  end.

Definition inputTypeName (type : ObjectType) : string :=
  match kind type with
  | RootEntityKind _ | ChildEntityKind => "Create" ++ objectTypeName type ++ "Input"
  | EntityExtensionKind | ValueObjectKind => objectTypeName type ++ "Input"
  end.

(** What the engine throws when the call stack is used up. *)
Definition stackOverflow : string := "RangeError: Maximum call stack size exceeded".

(** [generateFields], for the [generate] it calls on a nested object type.
    The GraphQL input type of a field ([enumTypeGenerator.generate],
    [graphQLScalarType], [GraphQLList], [getInputType]) is built from parts
    outside this file and is not carried by [CreateInputField]; of these
    calls only [getKeyFieldTypeOrThrow] is one that throws by its
    contract. *)
Definition generateFieldsWith (model : Model)
    (generateNested : ObjectType -> outcome CreateObjectInputType)
    (field : ModelField) : outcome (list CreateInputField) :=
  if isSystemField field then Returned []
  else
    match typeOf field with
    | ScalarType _ | EnumType _ =>
        if isList field
        then Returned [BasicListCreateInputField (fieldObject field)]
        else Returned [BasicCreateInputField (fieldObject field)]
    | ObjectTypeNamed typeName =>
        match kind (model typeName) with
        | RootEntityKind keyFieldType =>
            if isRelation field then Returned []
            else
              match keyFieldType with
              | Returned _ => Returned [BasicCreateInputField (fieldObject field)]
              | Thrown e => Thrown e
              end
        | _ =>
            match generateNested (model typeName) with
            | Returned inputType =>
                Returned [if isList field
                          then ObjectListCreateInputField (fieldObject field) inputType
                          else ObjectCreateInputField (fieldObject field) inputType]
            | Thrown e => Thrown e
            end
        end
    end.

(** [generate] with [generateForRootEntityType], [generateForChildEntityType]
    and [generateForSimpleObjectType].  The fields are generated before the
    input type is constructed and before [@memorize] can store anything, so
    a call for a nested type runs within the call for the type that holds
    it: [stack] is the number of nested calls of [generate] the call stack of
    the engine has room for, and [RangeError] is thrown when it is used up.
    For calls that return, memoization only spares work. *)
Fixpoint generate (model : Model) (stack : nat) (type : ObjectType)
  : outcome CreateObjectInputType :=
  match stack with
  | 0 => Thrown stackOverflow
  | S deeper =>
      match flatMapOutcome (generateFieldsWith model (generate model deeper))
                           (objectTypeFields type) with
      | Returned inputFields =>
          Returned (mkCreateObjectInputType (inputClassOf type) (inputTypeName type)
                                            inputFields)
      | Thrown e => Thrown e
      end
  end.

Definition generateFields (model : Model) (stack : nat) (field : ModelField)
  : outcome (list CreateInputField) :=
  generateFieldsWith model (generate model stack) field.

(** [field.type.isRootEntityType] *)
Definition isRootEntity (model : Model) (type : ModelType) : bool :=
  match type with
  | ObjectTypeNamed typeName =>
      match kind (model typeName) with
      | RootEntityKind _ => true
      | _ => false
      end
  | _ => false
  end.

(** Does the generator make an input field for the model field?  Not for a
    system field and not for a relation. *)
Definition hasInputField (model : Model) (f : ModelField) : bool :=
  negb (isSystemField f) && negb (isRootEntity model (typeOf f) && isRelation f).

(** The object type for which [generateFields] calls [generate]: the type
    of a field that is no system field and whose type is a child entity, an
    entity extension or a value object. *)
Definition nestedTypeOf (model : Model) (f : ModelField) : option ObjectType :=
  if isSystemField f then None
  else
    match typeOf f with
    | ObjectTypeNamed typeName =>
        match kind (model typeName) with
        | RootEntityKind _ => None
        | _ => Some (model typeName)
        end
    | _ => None
    end.

(** Is the field a reference to a root entity type whose
    [getKeyFieldTypeOrThrow()] throws? *)
Definition referenceWithoutKey (model : Model) (f : ModelField) : bool :=
  negb (isSystemField f)
  && match typeOf f with
     | ObjectTypeNamed typeName =>
         match kind (model typeName) with
         | RootEntityKind (Thrown _) => negb (isRelation f)
         | _ => false
         end
     | _ => false
     end.

(** The object types for which an input type can be generated: no field is
    a reference without key, and the same holds, to a finite depth, for the
    object types nested in the type. *)
Inductive Generable (model : Model) : ObjectType -> Prop :=
| generable type :
    (forall f, In f (objectTypeFields type) -> referenceWithoutKey model f = false) ->
    (forall f nested,
        In f (objectTypeFields type) -> nestedTypeOf model f = Some nested ->
        Generable model nested) ->
    Generable model type.

End Generator.
Import Generator.

(** ** Observations used in the statements below *)

Module Readings.

(** [options.authRoles || []] *)
Definition requestRolesOf (options : ExecutionOptions) : list string :=
  match authRoles options with Some roles => roles | None => [] end.

(** Is the optional value there? ([if (watch)], [start != undefined]) *)
Definition present {A} (o : option A) : bool :=
  match o with Some _ => true | None => false end.

(** The calls of a request that returns, up to static evaluation. *)
Definition preparationCalls (built expanded authorized : QueryNode) : list Call :=
  [CallDistillOperation; CallBuildQueryTree;
   CallTokenizeExpressions (collectTokenizations built);
   CallApplyAuthorization expanded;
   CallEvaluateStatically authorized].

(** The tree with every reference set to 0: what is left of a tree when the
    identity of its node objects is disregarded. *)
Fixpoint withoutRefs (n : QueryNode) : QueryNode :=
  let inFields :=
    map (fun f : string * FieldValue QueryNode =>
           (fst f,
            match snd f with
            | NodeValue c => NodeValue (withoutRefs c)
            | NodeArray cs => NodeArray (map withoutRefs cs)
            | PlainValue v => PlainValue v
            end)) in
  match n with
  | FlexSearchComplexOperatorQueryNode _ e l fields =>
      FlexSearchComplexOperatorQueryNode 0 e l (inFields fields)
  | ObjectQueryNode _ properties =>
      ObjectQueryNode 0
        (map (fun p => mkPropertySpecification 0 (propertyName p)
                                               (withoutRefs (valueNode p)))
             properties)
  | OtherQueryNode _ className fields => OtherQueryNode 0 className (inFields fields)
  end.

Definition fieldWithoutRefs (f : string * FieldValue QueryNode)
  : string * FieldValue QueryNode :=
  (fst f,
   match snd f with
   | NodeValue c => NodeValue (withoutRefs c)
   | NodeArray cs => NodeArray (map withoutRefs cs)
   | PlainValue v => PlainValue v
   end).

(** The body of the loop over [Object.keys] in [expandQueryNode]: the field
    as it goes into the new object, and whether it was put into
    [newFieldValues]. *)
Definition visitField (imports : Imports) (toks : list FlexSearchTokenization)
    (field : string * FieldValue QueryNode) (n : Ref)
  : (string * FieldValue QueryNode) * bool * Ref :=
  match snd field with
  | NodeValue oldValue =>
      let (newValue, n1) := expandQueryNode imports oldValue toks n in
      if Nat.eqb (nodeRef newValue) (nodeRef oldValue)
      then ((field, false), n1)
      else (((fst field, NodeValue newValue), true), n1)
  | _ => ((field, false), n)
  end.

(** The body of the loop over the properties of an object node. *)
Definition visitProperty (imports : Imports) (toks : list FlexSearchTokenization)
    (property : PropertySpecification QueryNode) (n : Ref)
  : PropertySpecification QueryNode * Ref :=
  let (expandedValueNode, n1) := expandQueryNode imports (valueNode property) toks n in
  (mkPropertySpecification n1 (propertyName property) expandedValueNode, S n1).

(** The field [new] stands where [old] stood: under the same key, and
    with the same value unless [old] held a node. *)
Definition keepsSlot (old new : string * FieldValue QueryNode) : Prop :=
  fst new = fst old
  /\ match snd old with
     | NodeValue _ => exists c, snd new = NodeValue c
     | NodeArray cs => snd new = NodeArray cs
     | PlainValue v => snd new = PlainValue v
     end.

(** What expansion achieves on a node as seen by [collectTokenizations],
    started with a free reference above those of the visited nodes: the
    counter does not go back, the result is the node itself or a newly
    allocated one, and nothing is collected from it. *)
Definition leavesNothingToCollect (imports : Imports)
    (toks : list FlexSearchTokenization) (n : QueryNode) : Prop :=
  forall next,
    maxVisitedRef n < next ->
    next <= snd (expandQueryNode imports n toks next)
    /\ (fst (expandQueryNode imports n toks next) = n
        \/ next <= nodeRef (fst (expandQueryNode imports n toks next)))
    /\ collectTokenizations (fst (expandQueryNode imports n toks next)) = [].

(** The clock has been read and identifiers drawn at least as often in [d']
    as in [d]. *)
Definition notBefore (d d' : Drawn) : Prop :=
  datesRead d <= datesRead d' /\ uuidsDrawn d <= uuidsDrawn d'.

(** A value that is there and is not an array: [value != undefined] and
    [!Array.isArray(value)]. *)
Definition notAList (value : AnyValue) : bool :=
  match value with
  | VUndefined | VNull | VArray _ => false
  | _ => true
  end.

End Readings.
Import Readings.

(** ** Sample models, adapters and runs *)

Module MoreSamples.

(** Collaborators that evaluate every tree statically to [value]. *)
Definition staticImports (tree : QueryNode) (value : AnyValue) : Imports :=
  mkImports
    (distillOperation (sampleImports tree))
    (buildConditionalObjectQueryNode (sampleImports tree))
    (expand (sampleImports tree))
    (applyAuthorizationToQueryTree (sampleImports tree))
    (fun _ => (true, value))
    (getPreciseTime (sampleImports tree)).

(** An adapter without [executeExt] whose [execute] answers [value]. *)
Definition plainAdapter (value : outcome AnyValue) : DatabaseAdapter :=
  mkDatabaseAdapter (fun _ => value) None (fun _ => Returned []).

(** An adapter whose [executeExt] rejects. *)
Definition rejectingAdapter (message : string) : DatabaseAdapter :=
  mkDatabaseAdapter (fun _ => Returned VNull) (Some (fun _ => Thrown message))
                    (fun _ => Returned []).

(** An adapter that cannot tokenize. *)
Definition untokenizingAdapter (message : string) : DatabaseAdapter :=
  mkDatabaseAdapter (fun _ => Returned VNull) None (fun _ => Thrown message).

(** An object node over [comparisonNode]: nothing to collect in it. *)
Definition objectWithComparison : QueryNode :=
  ObjectQueryNode 5 [mkPropertySpecification 4 "equal" comparisonNode].

(** A profiled request whose adapter reports no timings. *)
Definition profiledRun : World * outcome ExecutionResult :=
  resolveOperation (sampleImports comparisonNode) (profiledContext rowsResult)
                   sampleQuery queryType None startWorld.

(** The profile of [profiledRun]: the clock advances by one unit per
    reading. *)
Definition sampleProfile : RequestProfile :=
  mkRequestProfile
    (mkProfileTimings
       [("total", None)]
       [("total", Some 0%Z)]
       [("distillation", Some 3%Z); ("queryTree", Some 1%Z);
        ("authorization", Some 1%Z); ("staticEvaluation", Some 1%Z);
        ("total", Some 6%Z)]
       7%Z)
    None (VObject []) VNull (mkOperationDefinition "query" None VNull)
    VNull VNull VNull.

(** A model: the root entity [Route] with a system field, a scalar, a list
    of scalars, a list of value objects, a reference and a relation; a root
    entity type without key field and a child entity that refers to it from
    a nested value object; and the value object [Skill] of
    spec/dev/model/simple.graphqls, which contains itself. *)
Definition idField : Field := mkField 7 "id" false VUndefined.
Definition driverField : Field := mkField 8 "driver" false VUndefined.
Definition ridesField : Field := mkField 9 "rides" false VUndefined.
Definition descriptionField : Field := mkField 10 "description" false VUndefined.
Definition skillsField : Field := mkField 11 "skills" false VUndefined.

Definition addressType : ObjectType :=
  mkObjectType ValueObjectKind "Address"
    [mkModelField streetField false false false (ScalarType "String")].

Definition driverType : ObjectType :=
  mkObjectType (RootEntityKind (Returned "String")) "Driver" [].

Definition rideType : ObjectType :=
  mkObjectType (RootEntityKind (Returned "ID")) "Ride" [].

Definition routeFields : list ModelField :=
  [mkModelField idField true false false (ScalarType "ID");
   mkModelField titleField false false false (ScalarType "String");
   mkModelField tagsField false true false (ScalarType "String");
   mkModelField stopsField false true false (ObjectTypeNamed "Address");
   mkModelField driverField false false false (ObjectTypeNamed "Driver");
   mkModelField ridesField false true true (ObjectTypeNamed "Ride")].

Definition routeType : ObjectType :=
  mkObjectType (RootEntityKind (Returned "String")) "Route" routeFields.

Definition logType : ObjectType :=
  mkObjectType (RootEntityKind (Thrown "Type Log does not have a key field")) "Log" [].

Definition trailType : ObjectType :=
  mkObjectType ValueObjectKind "Trail"
    [mkModelField titleField false false false (ObjectTypeNamed "Log")].

Definition auditedType : ObjectType :=
  mkObjectType ChildEntityKind "Audited"
    [mkModelField addressField false false false (ObjectTypeNamed "Trail")].

Definition skillType : ObjectType :=
  mkObjectType ValueObjectKind "Skill"
    [mkModelField descriptionField false false false (ScalarType "String");
     mkModelField skillsField false true false (ObjectTypeNamed "Skill")].

(** An input type with a field that bears the name of a member of
    [Object.prototype]. *)
Definition constructorField : Field := mkField 12 "constructor" true (VString "none").

Definition metaInput : CreateObjectInputType :=
  mkCreateObjectInputType CreateObjectInputTypeClass "MetaInput"
    [BasicCreateInputField constructorField].

Definition sampleModel : Model :=
  fun typeName =>
    if String.eqb typeName "Address" then addressType
    else if String.eqb typeName "Driver" then driverType
    else if String.eqb typeName "Ride" then rideType
    else if String.eqb typeName "Route" then routeType
    else if String.eqb typeName "Log" then logType
    else if String.eqb typeName "Trail" then trailType
    else if String.eqb typeName "Audited" then auditedType
    else skillType.

(** The input type [generate] makes for [routeType]. *)
Definition routeInput : CreateObjectInputType :=
  mkCreateObjectInputType CreateRootEntityInputTypeClass "CreateRouteInput"
    [BasicCreateInputField titleField;
     BasicListCreateInputField tagsField;
     ObjectListCreateInputField stopsField sampleAddressInput;
     BasicCreateInputField driverField].

(** An input for [routeInput] with two stops, and what it is prepared to
    when the clock has not been read before. *)
Definition twoStops : PlainObject :=
  [("stops", VArray [VObject [("street", VString "Main Street")];
                     VObject [("street", VString "Side Street")]]);
   ("title", VNull)].

Definition preparedStops : PlainObject :=
  [("title", VNull);
   ("stops", VArray [VObject [("street", VString "Main Street")];
                     VObject [("street", VString "Side Street")]]);
   ("createdAt", VString "2019-01-01T00:00:00.000Z");
   ("updatedAt", VString "2019-01-01T00:00:00.000Z")].

End MoreSamples.
Import MoreSamples.

(** * Properties *)

(** ** Dictionaries *)

Section DictionaryFacts.
Context {V : Type}.
Implicit Types (o : Dict V) (k : string) (v : V).

Lemma getKey_setKey k k' v o :
  getKey k (setKey k' v o) = if String.eqb k k' then Some v else getKey k o.
Proof.
  induction o as [|[k0 v0] o IH]; simpl.
  - destruct (String.eqb_spec k k'); reflexivity.
  - destruct (String.eqb_spec k' k0) as [->|Hne]; simpl.
    + destruct (String.eqb_spec k k0); reflexivity.
    + destruct (String.eqb_spec k k0) as [->|Hne'].
      * destruct (String.eqb_spec k0 k'); [congruence|reflexivity].
      * exact IH.
Qed.

Lemma getKey_deleteKey k k' o :
  getKey k (deleteKey k' o) = if String.eqb k k' then None else getKey k o.
Proof.
  induction o as [|[k0 v0] o IH]; simpl.
  - destruct (String.eqb k k'); reflexivity.
  - destruct (String.eqb_spec k' k0) as [->|Hne]; simpl.
    + rewrite IH. destruct (String.eqb_spec k k0); reflexivity.
    + destruct (String.eqb_spec k k0) as [->|Hne'].
      * destruct (String.eqb_spec k0 k'); [congruence|reflexivity].
      * exact IH.
Qed.

Lemma getKey_app k o1 o2 :
  getKey k (o1 ++ o2) =
  match getKey k o1 with
  | Some v => Some v
  | None => getKey k o2
  end.
Proof.
  induction o1 as [|[k0 v0] o1 IH]; simpl; [reflexivity|].
  destruct (String.eqb k k0); [reflexivity|exact IH].
Qed.

Lemma hasKey_getKey k o :
  hasKey k o = match getKey k o with Some _ => true | None => false end.
Proof.
  induction o as [|[k0 v0] o IH]; simpl; [reflexivity|].
  destruct (String.eqb k k0); [reflexivity|exact IH].
Qed.

Lemma getKey_assign k (target source : Dict V) :
  getKey k (assign target source) =
  match getKey k (rev source) with
  | Some v => Some v
  | None => getKey k target
  end.
Proof.
  unfold assign. revert target.
  induction source as [|[k0 v0] source IH]; intros target; simpl; [reflexivity|].
  rewrite IH, getKey_app, getKey_setKey. simpl.
  destruct (getKey k (rev source)); [reflexivity|].
  destruct (String.eqb k k0); reflexivity.
Qed.

Lemma hasKey_setKey k k' v o :
  hasKey k (setKey k' v o) = String.eqb k k' || hasKey k o.
Proof.
  rewrite !hasKey_getKey, getKey_setKey.
  destruct (String.eqb k k'); reflexivity.
Qed.

Lemma hasKey_assign k (target source : Dict V) :
  hasKey k (assign target source) = hasKey k source || hasKey k target.
Proof.
  unfold assign. revert target.
  induction source as [|[k0 v0] source IH]; intros target; simpl; [reflexivity|].
  rewrite IH, hasKey_setKey.
  destruct (String.eqb k k0), (hasKey k source); reflexivity.
Qed.

End DictionaryFacts.

(** ** Merge nodes *)

Lemma getKey_mergeInto k merged input :
  getKey k (mergeInto merged input) =
  match lastBinding k input with
  | Some (Value v) => Some v
  | Some REMOVE => None
  | None => getKey k merged
  end.
Proof.
  unfold mergeInto, lastBinding. revert merged.
  induction input as [|[k0 pv] input IH]; intros merged; simpl; [reflexivity|].
  rewrite IH, getKey_app. simpl.
  destruct (getKey k (rev input)) as [[v|]|]; try reflexivity.
  destruct pv as [v0|]; simpl.
  - rewrite getKey_setKey. destruct (String.eqb k k0); reflexivity.
  - rewrite getKey_deleteKey. destruct (String.eqb k k0); reflexivity.
Qed.

Lemma getKey_fold_mergeInto_unbound k inputs merged :
  (forall o, In o inputs -> lastBinding k o = None) ->
  getKey k (fold_left mergeInto inputs merged) = getKey k merged.
Proof.
  revert merged.
  induction inputs as [|o inputs IH]; intros merged Hnone; simpl; [reflexivity|].
  rewrite IH by (intros o' Ho'; apply Hnone; right; exact Ho').
  rewrite getKey_mergeInto, (Hnone o) by (left; reflexivity).
  reflexivity.
Qed.

Lemma evaluateMerge_node evaluate r nodes :
  evaluateMerge evaluate (MergeObjectsQueryNode r nodes) =
  option_map mergeObjects (evaluateAll evaluate nodes).
Proof. reflexivity. Qed.

(** C8. Evaluating a [MergeObjectsQueryNode] merges the top-level properties
    of its evaluated inputs and the later input wins: if an input binds the
    property [k] to the value [v] and no input after it mentions [k], the
    merged object binds [k] to [v], whatever the earlier inputs held for [k].
    Merging {a:1, b:2} and {b:3, c:4} yields {a:1, b:3, c:4}. *)
Theorem merge_later_input_wins :
  (forall evaluate r nodes earlier input later k v,
      evaluateAll evaluate nodes = Some (earlier ++ input :: later) ->
      lastBinding k input = Some (Value v) ->
      (forall o, In o later -> lastBinding k o = None) ->
      exists merged,
        evaluateMerge evaluate (MergeObjectsQueryNode r nodes) = Some merged
        /\ getKey k merged = Some v)
  /\ mergeObjects
       [ [("a", Value (VNumber 1)); ("b", Value (VNumber 2))];
         [("b", Value (VNumber 3)); ("c", Value (VNumber 4))] ]
     = [("a", VNumber 1); ("b", VNumber 3); ("c", VNumber 4)].
Proof.
  split; [|reflexivity].
  intros evaluate r nodes earlier input later k v Heval Hbound Hlater.
  exists (mergeObjects (earlier ++ input :: later)). split.
  - rewrite evaluateMerge_node, Heval. reflexivity.
  - unfold mergeObjects. rewrite fold_left_app. simpl.
    rewrite getKey_fold_mergeInto_unbound by exact Hlater.
    rewrite getKey_mergeInto, Hbound. reflexivity.
Qed.

Lemma merge_later_input_wins_witness :
  exists merged,
    evaluateMerge evaluateSample
      (MergeObjectsQueryNode 3 [ObjectQueryNode 1 []; ObjectQueryNode 2 []])
    = Some merged
    /\ getKey "b" merged = Some (VNumber 3).
Proof.
  apply (proj1 merge_later_input_wins evaluateSample 3
           [ObjectQueryNode 1 []; ObjectQueryNode 2 []]
           [ [("a", Value (VNumber 1)); ("b", Value (VNumber 2))] ]
           [("b", Value (VNumber 3)); ("c", Value (VNumber 4))]
           [] "b" (VNumber 3)).
  - reflexivity.
  - reflexivity.
  - intros o [].
Defined.

(** ** Create input types *)

(** The loops of [prepareValue] and [collectAffectedFields] run over
    [getApplicableInputFields]; walking all fields and skipping those that
    are not applicable comes to the same. *)
Lemma mapP_skipping {A B} (applies : A -> bool) (body : A -> P (list B)) items :
  forall d,
    andThen (mapP (fun a => if applies a then body a else pure []) items)
            (fun pairs => pure (concat pairs)) d
    = andThen (mapP body (filter applies items))
              (fun pairs => pure (concat pairs)) d.
Proof.
  induction items as [|a items IH]; intros d; [reflexivity|].
  cbn [mapP filter]. destruct (applies a); cbn [mapP].
  - unfold andThen, pure in *.
    destruct (body a d) as [[b|e] d1]; [|reflexivity].
    specialize (IH d1).
    destruct (mapP _ items d1) as [[skipped|e1] d2],
             (mapP body (filter applies items) d1) as [[kept|e2] d3];
      inversion IH; subst; try reflexivity.
    simpl. congruence.
  - unfold andThen, pure in *.
    specialize (IH d).
    destruct (mapP _ items d) as [[skipped|e1] d2],
             (mapP body (filter applies items) d) as [[kept|e2] d3];
      inversion IH; subst; reflexivity.
Qed.

Lemma andThen_post {A B C} (m : P A) (f : A -> B) (k : B -> P C) d :
  andThen (andThen m (fun a => pure (f a))) k d = andThen m (fun a => k (f a)) d.
Proof.
  unfold andThen, pure. destruct (m d) as [[a|e] d1]; reflexivity.
Qed.

Lemma andThen_same_start {A B} (m1 m2 : P A) (k : A -> P B) d :
  m1 d = m2 d -> andThen m1 k d = andThen m2 k d.
Proof.
  unfold andThen. intros ->. reflexivity.
Qed.

Lemma prepareValue_over_applicable_fields runtime inputType value d :
  prepareValue runtime inputType value d
  = andThen
      (mapP (fun field =>
               andThen (getProperties runtime field (getProp (inputFieldName field) value))
                       (fun properties => pure (toPairs properties)))
            (getApplicableInputFields inputType value))
      (fun pairs =>
         andThen (getAdditionalProperties runtime (classOf inputType))
                 (fun additional =>
                    pure (fromPairs (concat pairs ++ toPairs additional)))) d.
Proof.
  destruct inputType as [class typeName fields].
  unfold getApplicableInputFields. cbn [prepareValue fieldsOf classOf].
  set (finish := fun flat : list (string * AnyValue) =>
                   andThen (getAdditionalProperties runtime class)
                           (fun additional =>
                              pure (fromPairs (flat ++ toPairs additional)))).
  set (body := fun field =>
                 andThen (getProperties runtime field
                            (getProp (inputFieldName field) value))
                         (fun properties => pure (toPairs properties))).
  transitivity
    (andThen (andThen (mapP (fun f => if isApplicable value f then body f else pure [])
                            fields)
                      (fun pairs => pure (concat pairs))) finish d).
  { symmetry. apply (andThen_post _ (@concat (string * AnyValue)) finish). }
  transitivity
    (andThen (andThen (mapP body (filter (isApplicable value) fields))
                      (fun pairs => pure (concat pairs))) finish d).
  { apply andThen_same_start. apply mapP_skipping. }
  apply (andThen_post _ (@concat (string * AnyValue)) finish).
Qed.

Lemma collectAffectedFields_over_applicable_fields inputType value fields :
  collectAffectedFields inputType value fields
  = forEachField (fun field collected =>
                    collectAffectedFieldsOf field
                      (getProp (inputFieldName field) value) collected)
                 (getApplicableInputFields inputType value) fields.
Proof.
  destruct inputType as [class typeName inputFields].
  unfold getApplicableInputFields. cbn [collectAffectedFields fieldsOf].
  revert fields. induction inputFields as [|f inputFields IH]; intros fields;
    [reflexivity|].
  simpl. destruct (isApplicable value f); simpl.
  - destruct (collectAffectedFieldsOf f _ fields); [apply IH|reflexivity].
  - apply IH.
Qed.

(** Induction over an input type and the input types nested in its fields. *)
Section InputTypeInduction.
Variable OnType : CreateObjectInputType -> Prop.
Variable OnField : CreateInputField -> Prop.
Hypothesis type_case :
  forall class typeName fields,
    Forall OnField fields -> OnType (mkCreateObjectInputType class typeName fields).
Hypothesis basic_case : forall field, OnField (BasicCreateInputField field).
Hypothesis basic_list_case : forall field, OnField (BasicListCreateInputField field).
Hypothesis object_case :
  forall field t, OnType t -> OnField (ObjectCreateInputField field t).
Hypothesis object_list_case :
  forall field t, OnType t -> OnField (ObjectListCreateInputField field t).

Lemma inputType_induction : forall t : CreateObjectInputType, OnType t.
Proof.
  fix induction_on_type 1.
  intros [class typeName fields]. apply type_case.
  induction fields as [|f fields IHfields]; constructor; [|exact IHfields].
  destruct f as [field|field|field t|field t].
  - apply basic_case.
  - apply basic_list_case.
  - apply object_case. apply induction_on_type.
  - apply object_list_case. apply induction_on_type.
Qed.
End InputTypeInduction.

Lemma In_add F f fields : In F (add f fields) -> F = f \/ In F fields.
Proof.
  unfold add. destruct (existsb (sameField f) fields).
  - intros H. right. exact H.
  - intros H. apply in_app_or in H. destruct H as [H|[H|[]]].
    + right. exact H.
    + left. symmetry. exact H.
Qed.

Lemma In_collectBasic F field value fields :
  In F (collectBasic field value fields) ->
  In F fields \/ (F = field /\ isUndefined value = false).
Proof.
  unfold collectBasic. destruct (isUndefined value) eqn:Hu.
  - intros H. left. exact H.
  - intros H. apply In_add in H. destruct H as [->|H]; [right|left]; auto.
Qed.

(** What a loop over [items] can have added to the set. *)
Lemma forEachField_added {A} (body : A -> FieldSet -> outcome FieldSet)
    (Added : A -> Field -> Prop) (items : list A) :
  Forall (fun a => forall acc out F,
              body a acc = Returned out -> In F out -> In F acc \/ Added a F) items ->
  forall acc out F,
    forEachField body items acc = Returned out -> In F out ->
    In F acc \/ exists a, In a items /\ Added a F.
Proof.
  induction 1 as [|a items Ha _ IH]; intros acc out F; simpl.
  - intros [= <-] HF. left. exact HF.
  - destruct (body a acc) as [acc'|e] eqn:Hbody; [|discriminate].
    intros Hrest HF.
    destruct (IH _ _ _ Hrest HF) as [Hacc'|[a' [Ha' Hadd]]].
    + destruct (Ha _ _ _ Hbody Hacc') as [Hacc|Hadd].
      * left. exact Hacc.
      * right. exists a. split; [left; reflexivity|exact Hadd].
    + right. exists a'. split; [right; exact Ha'|exact Hadd].
Qed.

Lemma modelFields_own t f :
  In f (fieldsOf t) -> In (fieldOf f) (modelFields t).
Proof.
  destruct t as [class typeName fields]. simpl. intros Hf.
  apply in_flat_map. exists f. split; [exact Hf|left; reflexivity].
Qed.

Lemma modelFields_nested t F :
  In F (nestedModelFields t) -> In F (modelFields t).
Proof.
  destruct t as [class typeName fields]. unfold nestedModelFields. simpl.
  intros HF. apply in_flat_map in HF. destruct HF as [f [Hf HF]].
  apply in_flat_map. exists f. split; [exact Hf|right; exact HF].
Qed.

(** A field object gets into the set only through an input field of the
    object at hand whose input value is not [undefined], or through a nested
    object. *)
Lemma collectAffectedFields_origin t :
  forall value acc out F,
    collectAffectedFields t value acc = Returned out -> In F out ->
    In F acc
    \/ (exists f, In f (fieldsOf t) /\ F = fieldOf f
                  /\ isUndefined (getProp (inputFieldName f) value) = false)
    \/ In F (nestedModelFields t).
Proof.
  induction t using inputType_induction
    with (OnField := fun f =>
            forall value acc out F,
              collectAffectedFieldsOf f value acc = Returned out -> In F out ->
              In F acc \/ (F = fieldOf f /\ isUndefined value = false)
              \/ In F (nestedFieldsOf f)).
  - (* an object input type *)
    rename H into IHfields.
    intros value acc out F Hrun HF. simpl in Hrun.
    eapply (@forEachField_added _ _
              (fun f F =>
                 (F = fieldOf f
                  /\ isUndefined (getProp (inputFieldName f) value) = false)
                 \/ In F (nestedFieldsOf f))) in Hrun; [| |exact HF].
    + destruct Hrun as [Hacc|[f [Hf [[-> Hdef]|Hnested]]]].
      * left. exact Hacc.
      * right. left. exists f. simpl. auto.
      * right. right. unfold nestedModelFields. simpl.
        apply in_flat_map. exists f. auto.
    + eapply Forall_impl; [|exact IHfields].
      intros f IHf acc0 out0 F0.
      destruct (isApplicable value f).
      * intros Hcall HF0. destruct (IHf _ _ _ _ Hcall HF0) as [?|[?|?]]; auto.
      * intros [= <-] HF0. left. exact HF0.
  - (* BasicCreateInputField *)
    intros value acc out F [= <-] HF. simpl.
    apply In_collectBasic in HF. destruct HF as [?|?]; auto.
  - (* BasicListCreateInputField *)
    intros value acc out F [= <-] HF. simpl.
    apply In_collectBasic in HF. destruct HF as [?|?]; auto.
  - (* ObjectCreateInputField *)
    intros value acc out F Hrun HF. simpl in Hrun |- *.
    destruct (isNullish value).
    + injection Hrun as <-. apply In_collectBasic in HF. destruct HF as [?|?]; auto.
    + destruct value; try discriminate.
      destruct (IHt _ _ _ _ Hrun HF) as [Hacc|[[f [Hf [-> _]]]|Hnested]].
      * apply In_collectBasic in Hacc. destruct Hacc as [?|?]; auto.
      * right. right. apply modelFields_own. exact Hf.
      * right. right. apply modelFields_nested. exact Hnested.
  - (* ObjectListCreateInputField *)
    intros value acc out F Hrun HF. simpl in Hrun |- *.
    destruct (isNullish value).
    + injection Hrun as <-. apply In_collectBasic in HF. destruct HF as [?|?]; auto.
    + destruct value; try discriminate.
      eapply (@forEachField_added _ _ (fun _ F => In F (modelFields t)))
        in Hrun; [| |exact HF].
      * destruct Hrun as [Hacc|[_ [_ Hin]]].
        -- apply In_collectBasic in Hacc. destruct Hacc as [?|?]; auto.
        -- right. right. exact Hin.
      * apply Forall_forall. intros item _ acc0 out0 F0 Hcall HF0.
        destruct item; try discriminate.
        destruct (IHt _ _ _ _ Hcall HF0) as [Hacc|[[f [Hf [-> _]]]|Hnested]].
        -- left. exact Hacc.
        -- right. apply modelFields_own. exact Hf.
        -- right. apply modelFields_nested. exact Hnested.
Qed.

(** A field object gets into the set only where the input gives a value for
    it. *)
Lemma collectAffectedFields_given t :
  forall value acc out F,
    collectAffectedFields t value acc = Returned out -> In F out ->
    In F acc \/ Given t value F.
Proof.
  induction t using inputType_induction
    with (OnField := fun f =>
            forall value acc out F,
              collectAffectedFieldsOf f value acc = Returned out -> In F out ->
              In F acc
              \/ (F = fieldOf f /\ isUndefined value = false)
              \/ match f with
                 | ObjectCreateInputField _ nested =>
                     exists o, value = VObject o /\ Given nested o F
                 | ObjectListCreateInputField _ nested =>
                     exists items o,
                       value = VArray items /\ In (VObject o) items
                       /\ Given nested o F
                 | _ => False
                 end).
  - (* an object input type *)
    rename H into IHfields.
    intros value acc out F Hrun HF. simpl in Hrun.
    match goal with
    | |- _ \/ Given ?T _ _ =>
        eapply (@forEachField_added _ _
                  (fun f F => In f (fieldsOf T) /\ Given T value F)) in Hrun;
        [| |exact HF]
    end.
    + destruct Hrun as [Hacc|[f [_ [_ Hgiven]]]]; [left; exact Hacc|right; exact Hgiven].
    + rewrite Forall_forall in IHfields. apply Forall_forall.
      intros f Hf acc0 out0 F0.
      destruct (isApplicable value f).
      * intros Hcall HF0.
        destruct (IHfields f Hf _ _ _ _ Hcall HF0) as [Hacc|[[-> Hdef]|Hnested]].
        -- left. exact Hacc.
        -- right. split; [exact Hf|]. apply given_here; [exact Hf|exact Hdef].
        -- right. split; [exact Hf|].
           destruct f as [field|field|field nested|field nested]; try contradiction.
           ++ destruct Hnested as [o [Hvalue Hgiven]].
              eapply given_in_object; [exact Hf|exact Hvalue|exact Hgiven].
           ++ destruct Hnested as [items [o [Hvalue [Hitem Hgiven]]]].
              eapply given_in_item; [exact Hf|exact Hvalue|exact Hitem|exact Hgiven].
      * intros [= <-] HF0. left. exact HF0.
  - (* BasicCreateInputField *)
    intros value acc out F [= <-] HF. simpl.
    apply In_collectBasic in HF. destruct HF as [?|?]; auto.
  - (* BasicListCreateInputField *)
    intros value acc out F [= <-] HF. simpl.
    apply In_collectBasic in HF. destruct HF as [?|?]; auto.
  - (* ObjectCreateInputField *)
    intros value acc out F Hrun HF. simpl in Hrun |- *.
    destruct (isNullish value).
    + injection Hrun as <-. apply In_collectBasic in HF. destruct HF as [?|?]; auto.
    + destruct value as [| | | | | |o|]; try discriminate.
      destruct (IHt _ _ _ _ Hrun HF) as [Hacc|Hgiven].
      * apply In_collectBasic in Hacc. destruct Hacc as [?|?]; auto.
      * right. right. exists o. split; [reflexivity|exact Hgiven].
  - (* ObjectListCreateInputField *)
    intros value acc out F Hrun HF. simpl in Hrun |- *.
    destruct (isNullish value).
    + injection Hrun as <-. apply In_collectBasic in HF. destruct HF as [?|?]; auto.
    + destruct value as [| | | | |items| |]; try discriminate.
      eapply (@forEachField_added _ _
                (fun item F => exists o, item = VObject o /\ Given t o F))
        in Hrun; [| |exact HF].
      * destruct Hrun as [Hacc|[item [Hitem [o [-> Hgiven]]]]].
        -- apply In_collectBasic in Hacc. destruct Hacc as [?|?]; auto.
        -- right. right. exists items, o. auto.
      * apply Forall_forall. intros item _ acc0 out0 F0 Hcall HF0.
        destruct item as [| | | | | |o|]; try discriminate.
        destruct (IHt _ _ _ _ Hcall HF0) as [Hacc|Hgiven].
        -- left. exact Hacc.
        -- right. exists o. split; [reflexivity|exact Hgiven].
Qed.

(** C10. Every field that [getAffectedFields] reports is given by the input:
    somewhere in the input, at an object of an input type with an input field
    for it, the property of that field reads as something else than
    [undefined].  So a field whose value is [undefined] wherever the input
    could give it is not reported, whether or not it has a default value
    that [prepareValue] fills in; in particular a field of the input type
    itself, declared in no nested type, whose property reads [undefined] in
    the input object.  Where [undefined] is read and [getProperties] would
    fill in the default, [collectAffectedFields] of the field adds nothing.
    (Reading follows the prototype chain: under the name of a member of
    [Object.prototype] an object without that own key reads as the inherited
    function, not as [undefined].) *)
Theorem absent_field_not_affected :
  (forall (t : CreateObjectInputType) (value : PlainObject) (F : Field)
          (affected : list Field),
      getAffectedFields t value = Returned affected ->
      In F affected ->
      Given t value F)
  /\ (forall (t : CreateObjectInputType) (value : PlainObject) (F : Field)
             (affected : list Field),
         getAffectedFields t value = Returned affected ->
         getProp (CreateInput.name F) value = VUndefined ->
         ~ In F (nestedModelFields t) ->
         ~ In F affected)
  /\ (forall f collected,
         collectAffectedFieldsOf f VUndefined collected = Returned collected).
Proof.
  split; [|split].
  - intros t value F affected Hrun HF. unfold getAffectedFields in Hrun.
    destruct (collectAffectedFields_given t value [] affected F Hrun HF) as [[]|Hgiven].
    exact Hgiven.
  - intros t value F affected Hrun Habsent Hnested HF.
    unfold getAffectedFields in Hrun.
    destruct (collectAffectedFields_origin t value [] affected F Hrun HF)
      as [[]|[[f [_ [-> Hdef]]]|Hin]].
    + unfold inputFieldName in Hdef. rewrite Habsent in Hdef. discriminate.
    + exact (Hnested Hin).
  - intros f collected. destruct f; reflexivity.
Qed.

Lemma absent_field_not_affected_witness :
  getAffectedFields sampleInput [("title", VString "t"); ("address", VObject [])]
  = Returned [titleField; addressField]
  /\ Given sampleInput [("title", VString "t"); ("address", VObject [])] addressField
  /\ ~ In statusField [titleField; addressField]
  /\ getAffectedFields metaInput [] = Returned [constructorField]
  /\ Given metaInput [] constructorField.
Proof.
  destruct absent_field_not_affected as [Hgiven [Habsent _]].
  split; [reflexivity|]. split; [|split; [|split]].
  - apply (Hgiven sampleInput [("title", VString "t"); ("address", VObject [])]
             addressField [titleField; addressField]).
    + reflexivity.
    + simpl. auto.
  - apply (Habsent sampleInput
             [("title", VString "t"); ("address", VObject [])] statusField
             [titleField; addressField]).
    + reflexivity.
    + reflexivity.
    + simpl. intros [H|[]]. discriminate H.
  - reflexivity.
  - apply (Hgiven metaInput [] constructorField [constructorField]).
    + reflexivity.
    + simpl. auto.
Defined.

Section PairFacts.
Context {V : Type}.

Lemma getKey_In (k : string) (x : V) (o : Dict V) :
  getKey k o = Some x -> In (k, x) o.
Proof.
  induction o as [|[k0 v0] o IH]; simpl; [discriminate|].
  destruct (String.eqb_spec k k0) as [->|_].
  - intros [= ->]. left. reflexivity.
  - intros H. right. exact (IH H).
Qed.

Lemma In_hasKey (k : string) (x : V) (o : Dict V) :
  In (k, x) o -> hasKey k o = true.
Proof.
  induction o as [|[k0 v0] o IH]; simpl; [intros []|].
  intros [[= -> ->]|H].
  - rewrite String.eqb_refl. reflexivity.
  - destruct (String.eqb k k0); [reflexivity|exact (IH H)].
Qed.

Lemma In_setKey (p : string * V) (k : string) (v : V) (o : Dict V) :
  In p (setKey k v o) -> p = (k, v) \/ In p o.
Proof.
  induction o as [|[k0 v0] o IH]; simpl.
  - intros [<-|[]]. left. reflexivity.
  - destruct (String.eqb_spec k k0) as [->|_]; simpl.
    + intros [<-|H]; auto.
    + intros [<-|H]; auto. destruct (IH H); auto.
Qed.

Lemma In_assign (p : string * V) (target source : Dict V) :
  In p (assign target source) -> In p target \/ In p source.
Proof.
  unfold assign. revert target.
  induction source as [|[k0 v0] source IH]; intros target; simpl; [auto|].
  intros H. destruct (IH _ H) as [H'|H']; [|auto].
  apply In_setKey in H'. destruct H' as [->|?]; auto.
Qed.

Lemma getKey_fromPairs_In (k : string) (x : V) (pairs : list (string * V)) :
  getKey k (fromPairs pairs) = Some x -> In (k, x) pairs.
Proof.
  intros H. apply getKey_In in H. apply In_assign in H.
  destruct H as [[]|H]. exact H.
Qed.

Lemma In_getKey_fromPairs (k : string) (x : V) (pairs : list (string * V)) :
  In (k, x) pairs -> exists y, getKey k (fromPairs pairs) = Some y.
Proof.
  intros H. apply In_hasKey in H.
  assert (Hhas : hasKey k (fromPairs pairs) = true).
  { unfold fromPairs. rewrite hasKey_assign, H. reflexivity. }
  rewrite hasKey_getKey in Hhas.
  destruct (getKey k (fromPairs pairs)) as [y|]; [exists y; reflexivity|discriminate].
Qed.
End PairFacts.

Lemma mapP_results {A B} (body : A -> P B) (items : list A) :
  forall d bs d',
    mapP body items d = (Returned bs, d') ->
    Forall2 (fun a b => exists d1 d2, body a d1 = (Returned b, d2)) items bs.
Proof.
  induction items as [|a items IH]; intros d bs d'; simpl.
  - unfold pure. intros [= <- _]. constructor.
  - unfold andThen at 1.
    destruct (body a d) as [[b|e] d1] eqn:Hbody; [|discriminate].
    unfold andThen at 1.
    destruct (mapP body items d1) as [[bs'|e] d2] eqn:Hrest; [|discriminate].
    unfold pure. intros [= <- _].
    constructor; [exists d, d1; exact Hbody|exact (IH _ _ _ Hrest)].
Qed.

Lemma additionalProperties_strings runtime class d additional d' :
  getAdditionalProperties runtime class d = (Returned additional, d') ->
  forall k x, In (k, x) additional ->
              In k (additionalKeys runtime class) /\ exists s, x = VString s.
Proof.
  destruct class; simpl; unfold andThen, getCurrentISODate, drawUuid, pure; simpl;
    intros [= <- _] k x Hin.
  - destruct Hin.
  - apply In_assign in Hin. destruct Hin as [[]|Hin]. simpl in Hin.
    destruct Hin as [[= <- <-]|[[= <- <-]|[]]]; split; eauto; simpl; auto.
  - apply In_assign in Hin. destruct Hin as [[]|Hin]. simpl in Hin.
    destruct Hin as [[= <- <-]|[[= <- <-]|[[= <- <-]|[]]]]; split; eauto; simpl; auto.
Qed.

Lemma coerceValue_list_field runtime f value d x d' :
  isListField f = true ->
  coerceValue runtime f value d = (Returned x, d') ->
  x <> VNull /\ (value = VNull -> x = VArray []).
Proof.
  destruct f as [field|field|field t|field t]; try discriminate; intros _; simpl.
  - destruct value; unfold pure; intros [= <- _]; split;
      solve [discriminate | reflexivity | intros ?; discriminate].
  - destruct value; simpl; unfold pure, raise; try discriminate;
      try (intros [= <- _]; split;
           solve [discriminate | reflexivity | intros ?; discriminate]).
    unfold andThen.
    match goal with |- context [mapP ?b ?l ?s] => destruct (mapP b l s) as [[r|e] s'] end;
      [|discriminate].
    intros [= <- _]. split; [discriminate|intros ?; discriminate].
Qed.

(** Every pair [prepareValue] gathers from the input fields is the coerced
    input value (or default value) of an applicable field of that name. *)
Lemma prepared_pairs_origin runtime value fields :
  forall d pairs d',
    mapP (fun inputField =>
            if isApplicable value inputField
            then andThen (getPropertiesWith (coerceValue runtime inputField)
                            (fieldOf inputField)
                            (getProp (inputFieldName inputField) value))
                         (fun properties => pure (toPairs properties))
            else pure []) fields d = (Returned pairs, d') ->
    forall g, In g fields -> isApplicable value g = true ->
      exists x d1 d2,
        coerceValue runtime g
          (valueOrDefault (fieldOf g) (getProp (inputFieldName g) value)) d1
        = (Returned x, d2)
        /\ In (inputFieldName g, x) (concat pairs).
Proof.
  intros d pairs d' Hrun. apply mapP_results in Hrun.
  induction Hrun as [|g0 ps fields pairs Hbody _ IH]; intros g Hg Happ.
  - destruct Hg.
  - destruct Hg as [->|Hg].
    + destruct Hbody as [d1 [d2 Hbody]]. rewrite Happ in Hbody.
      unfold andThen, getPropertiesWith in Hbody. fold (valueOrDefault (fieldOf g)
        (getProp (inputFieldName g) value)) in Hbody.
      unfold andThen in Hbody.
      destruct (coerceValue runtime g _ d1) as [[x|e] d3] eqn:Hc; [|discriminate].
      unfold pure, toPairs in Hbody. injection Hbody as <- _.
      exists x, d1, d3. split; [exact Hc|]. simpl. left. reflexivity.
    + destruct (IH g Hg Happ) as [x [d1 [d2 [Hc Hin]]]].
      exists x, d1, d2. split; [exact Hc|]. simpl. apply in_or_app. right. exact Hin.
Qed.

Lemma prepared_pairs_source runtime value fields :
  forall d pairs d',
    mapP (fun inputField =>
            if isApplicable value inputField
            then andThen (getPropertiesWith (coerceValue runtime inputField)
                            (fieldOf inputField)
                            (getProp (inputFieldName inputField) value))
                         (fun properties => pure (toPairs properties))
            else pure []) fields d = (Returned pairs, d') ->
    forall k x, In (k, x) (concat pairs) ->
      exists g d1 d2,
        In g fields /\ inputFieldName g = k
        /\ coerceValue runtime g
             (valueOrDefault (fieldOf g) (getProp (inputFieldName g) value)) d1
           = (Returned x, d2).
Proof.
  intros d pairs d' Hrun. apply mapP_results in Hrun.
  induction Hrun as [|g0 ps fields pairs Hbody _ IH]; intros k x Hin.
  - destruct Hin.
  - simpl in Hin. apply in_app_or in Hin. destruct Hin as [Hin|Hin].
    + destruct Hbody as [d1 [d2 Hbody]].
      destruct (isApplicable value g0).
      * unfold andThen, getPropertiesWith in Hbody.
        fold (valueOrDefault (fieldOf g0) (getProp (inputFieldName g0) value)) in Hbody.
        unfold andThen in Hbody.
        destruct (coerceValue runtime g0 _ d1) as [[y|e] d3] eqn:Hc; [|discriminate].
        unfold pure, toPairs in Hbody. injection Hbody as <- _.
        destruct Hin as [[= <- <-]|[]].
        exists g0, d1, d3. split; [left; reflexivity|]. split; [reflexivity|exact Hc].
      * unfold pure in Hbody. injection Hbody as <- _. destruct Hin.
    + destruct (IH k x Hin) as [g [d1 [d2 [Hg [Hk Hc]]]]].
      exists g, d1, d2. split; [right; exact Hg|]. split; assumption.
Qed.

Lemma getProp_null_hasKey k (value : PlainObject) :
  getProp k value = VNull -> hasKey k value = true.
Proof.
  unfold getProp. rewrite hasKey_getKey.
  destruct (getKey k value); [reflexivity|].
  destruct (isInherited k); discriminate.
Qed.

(** A property that reads as anything but [undefined] is found by [in]. *)
Lemma getProp_given_hasProperty k (value : PlainObject) :
  isUndefined (getProp k value) = false -> hasProperty k value = true.
Proof.
  unfold getProp, hasProperty. rewrite hasKey_getKey.
  destruct (getKey k value); [reflexivity|].
  destruct (isInherited k); [reflexivity|discriminate].
Qed.

(** C9. For the two list-valued classes of create input field, an explicit
    [null] is coerced to the empty list: [getProperties] answers
    [{name: []}] for it, and a value prepared by [prepareValue] holds [[]]
    under the name of a list field that was given as [null], and never holds
    [null] under the name of a list field. *)
Theorem null_list_value_prepared_as_empty_list :
  (forall runtime f d,
      isListField f = true ->
      getProperties runtime f VNull d
      = (Returned [(inputFieldName f, VArray [])], d))
  /\ (forall runtime class typeName fields value d prepared d' f,
         prepareValue runtime (mkCreateObjectInputType class typeName fields) value d
         = (Returned prepared, d') ->
         In f fields ->
         (forall g, In g fields -> inputFieldName g = inputFieldName f ->
                    isListField g = true) ->
         getKey (inputFieldName f) prepared <> Some VNull
         /\ (getProp (inputFieldName f) value = VNull ->
             ~ In (inputFieldName f) (additionalKeys runtime class) ->
             getKey (inputFieldName f) prepared = Some (VArray []))).
Proof.
  split.
  - intros runtime f d Hlist.
    destruct f as [field|field|field t|field t]; try discriminate; reflexivity.
  - intros runtime class typeName fields value d prepared d' f Hrun Hf Hlists.
    simpl in Hrun. unfold andThen at 1 in Hrun.
    match type of Hrun with
    | context [mapP ?b fields d] =>
        destruct (mapP b fields d) as [[pairs|e] d1] eqn:Hpairs
    end; [|discriminate].
    unfold andThen at 1 in Hrun.
    destruct (getAdditionalProperties runtime class d1) as [[additional|e] d2] eqn:Hadd;
      [|discriminate].
    unfold pure, toPairs in Hrun. injection Hrun as <- _.
    assert (Hpair : forall x,
               In (inputFieldName f, x) (concat pairs ++ additional) ->
               (x <> VNull
                /\ (getProp (inputFieldName f) value = VNull -> x = VArray []))
               \/ (In (inputFieldName f) (additionalKeys runtime class)
                   /\ x <> VNull)).
    { intros x Hin. apply in_app_or in Hin. destruct Hin as [Hin|Hin].
      - left.
        destruct (prepared_pairs_source _ _ _ _ _ _ Hpairs _ _ Hin)
          as [g [d3 [d4 [Hg [Hname Hc]]]]].
        destruct (coerceValue_list_field _ _ _ _ _ _ (Hlists g Hg Hname) Hc) as [Hnot Hnull].
        split; [exact Hnot|].
        intros Hgiven. apply Hnull. rewrite Hname, Hgiven. reflexivity.
      - right.
        destruct (additionalProperties_strings _ _ _ _ _ Hadd _ _ Hin) as [Hk [s ->]].
        split; [exact Hk|discriminate]. }
    split.
    + intros Hnull. apply getKey_fromPairs_In in Hnull.
      destruct (Hpair _ Hnull) as [[Hnot _]|[_ Hnot]]; apply Hnot; reflexivity.
    + intros Hgiven Hfree.
      assert (Happ : isApplicable value f = true).
      { unfold isApplicable, hasProperty.
        rewrite (getProp_null_hasKey _ _ Hgiven). reflexivity. }
      destruct (prepared_pairs_origin _ _ _ _ _ _ Hpairs f Hf Happ)
        as [x [d3 [d4 [_ Hin]]]].
      destruct (@In_getKey_fromPairs _ (inputFieldName f) x (concat pairs ++ additional))
        as [y Hy]; [apply in_or_app; left; exact Hin|].
      rewrite Hy. f_equal.
      apply getKey_fromPairs_In in Hy.
      destruct (Hpair _ Hy) as [[_ Hempty]|[Hk _]]; [exact (Hempty Hgiven)|].
      exfalso. exact (Hfree Hk).
Qed.

Lemma null_list_value_prepared_as_empty_list_witness :
  prepareValue sampleRuntime
    (mkCreateObjectInputType CreateChildEntityInputTypeClass "CreateRouteInput"
                             sampleListInput)
    sampleListValue (mkDrawn 0 0)
  = (Returned samplePrepared, mkDrawn 1 1)
  /\ getKey "stops" samplePrepared <> Some VNull
  /\ getKey "stops" samplePrepared = Some (VArray []).
Proof.
  split; [reflexivity|].
  destruct (proj2 null_list_value_prepared_as_empty_list
              sampleRuntime CreateChildEntityInputTypeClass "CreateRouteInput"
              sampleListInput sampleListValue (mkDrawn 0 0) samplePrepared
              (mkDrawn 1 1)
              (ObjectListCreateInputField stopsField sampleAddressInput))
    as [Hnot Hempty].
  - reflexivity.
  - simpl. auto.
  - intros g [<-|[<-|[<-|[]]]]; simpl; intros H;
      solve [reflexivity | discriminate H].
  - split; [exact Hnot|].
    apply Hempty.
    + reflexivity.
    + simpl. intros [H|[H|[H|[]]]]; discriminate H.
Defined.

(** ** The operation resolver *)

(** *** The write guard and the registered context *)

(** C4. When the operation is a mutation and the options the request runs
    with (given, or obtained from the context) set [mutationMode] to
    'disallowed', [resolveOperation] throws "Mutations are not allowed" and
    the call log is as it was: no distillation, no tree building, no
    tokenization call and no backend call has been made. *)
Theorem disallowed_mutation_rejected_before_any_call :
  forall imports this operationInfo rootType options chosen w,
    effectiveOptions this operationInfo options = Returned chosen ->
    operation (operationDefinition operationInfo) = "mutation" ->
    mutationMode chosen = Some "disallowed" ->
    snd (resolveOperation imports this operationInfo rootType options w)
    = Thrown "Mutations are not allowed"
    /\ calls (fst (resolveOperation imports this operationInfo rootType options w))
       = calls w.
Proof.
  intros imports this operationInfo rootType options chosen w Hopts Hop Hmode.
  unfold resolveOperation, bind, registerContext, liftOutcome. simpl.
  rewrite Hopts.
  assert (Hrej : mutationRejected operationInfo chosen = true).
  { unfold mutationRejected. rewrite Hop, Hmode. reflexivity. }
  destruct (needsTimings this chosen); simpl; rewrite Hrej; split; reflexivity.
Qed.

Lemma disallowed_mutation_rejected_before_any_call_witness :
  resolveOperation (sampleImports mergeWithOperator) sampleContext sampleMutation
                   queryType (Some readOnly) startWorld
  = (mkWorld (Some sampleContext) 4 0 [], Thrown "Mutations are not allowed")
  /\ snd (resolveOperation (sampleImports mergeWithOperator) sampleContext
            sampleMutation queryType (Some readOnly) startWorld)
     = Thrown "Mutations are not allowed"
  /\ calls (fst (resolveOperation (sampleImports mergeWithOperator) sampleContext
                   sampleMutation queryType (Some readOnly) startWorld))
     = calls startWorld.
Proof.
  split; [reflexivity|].
  apply (disallowed_mutation_rejected_before_any_call
           (sampleImports mergeWithOperator) sampleContext sampleMutation queryType
           (Some readOnly) readOnly startWorld);
    reflexivity.
Defined.

(** C3, evaluated on the rejected write: the guard throws before the [try]
    block is entered, so the context registered in the first statement is
    still registered when the error leaves [resolveOperation]. *)
Theorem rejected_mutation_leaves_context_registered :
  forall imports this rootType w operationName selection ctx variables frags sch
         roles plan timings amount depth,
    let operationInfo :=
      mkOperationParams (mkOperationDefinition "mutation" operationName selection)
                        ctx variables frags sch in
    let options :=
      mkExecutionOptions roles (Some "disallowed") plan timings amount depth in
    snd (resolveOperation imports this operationInfo rootType (Some options) w)
    = Thrown "Mutations are not allowed"
    /\ registeredContext
         (fst (resolveOperation imports this operationInfo rootType (Some options) w))
       = Some this.
Proof.
  intros. unfold resolveOperation, bind, registerContext, liftOutcome. simpl.
  destruct (needsTimings this options); simpl; split; reflexivity.
Qed.

(** The options callback runs before the [try] block as well: when it throws,
    the context stays registered in the same way. *)
Lemma throwing_options_callback_leaves_context_registered imports this operationInfo
      rootType options message w :
  effectiveOptions this operationInfo options = Thrown message ->
  resolveOperation imports this operationInfo rootType options w
  = (mkWorld (Some this) (nextRef w) (clockReadings w) (calls w), Thrown message).
Proof.
  intros Hopts. unfold resolveOperation, bind, registerContext, liftOutcome.
  rewrite Hopts. reflexivity.
Qed.

(** *** Running the resolver symbolically *)

Ltac step :=
  match goal with
  | |- context [match ?x with _ => _ end] =>
      lazymatch x with
      | context [match _ with _ => _ end] => fail
      | _ => destruct x eqn:?
      end
  end.

Lemma prepareQueryTree_log imports this info rootType opts watch w :
  exists added,
    calls (fst (prepareQueryTree imports this info rootType opts watch w))
    = calls w ++ added
    /\ existsb isBackendCall added = false
    /\ length (filter isTokenizeCall added) <= 1
    /\ (forall prepared,
          snd (prepareQueryTree imports this info rootType opts watch w)
          = Returned prepared ->
          length (filter isTokenizeCall added) = 1)
    /\ registeredContext (fst (prepareQueryTree imports this info rootType opts watch w))
       = registeredContext w.
Proof.
  unfold prepareQueryTree, queryFlexSearchTokens, expandQueryTree, bind, record,
    liftOutcome, getNextRef, setNextRef, stopIf, stop, now, ret.
  simpl.
  repeat (step; simpl).
  all: repeat rewrite <- app_assoc; simpl.
  all: eexists; split; [reflexivity|]; split; [reflexivity|]; split; [simpl; lia|];
    split; [|reflexivity].
  all: intros prepared H; solve [reflexivity | discriminate H].
Qed.

Lemma prepareQueryTree_watch imports this info rootType opts watch w tree watch' :
  snd (prepareQueryTree imports this info rootType opts watch w) = Returned (tree, watch') ->
  match watch with
  | None => watch' = None
  | Some _ => exists stopped, watch' = Some stopped
       /\ forallb (fun phase => hasKey phase (watchTimings stopped)) preparationPhases = true
  end.
Proof.
  unfold prepareQueryTree, queryFlexSearchTokens, expandQueryTree, bind, record, liftOutcome, getNextRef, setNextRef, stopIf, stop, now, ret, bind. simpl.
  repeat (step; simpl); try discriminate.
  all: intros [= <- <-].
  all: try reflexivity.
  all: eexists; (split; [reflexivity|]); unfold preparationPhases, forallb;
    cbn [watchTimings]; rewrite !hasKey_setKey; simpl; rewrite ?orb_true_r; reflexivity.
Qed.



Ltac run_resolver :=
  unfold finishOperation, runOnAdapter, buildProfile, prepareQueryTree,
    queryFlexSearchTokens, expandQueryTree, newWatchIf, newWatch, stopIf, stop, now,
    tryFinally, unregisterContext, registerContext, throw,
    bind, record, liftOutcome, getNextRef, setNextRef, ret;
  simpl.

Lemma finishOperation_log imports this info opts watch topLevelWatch start tree w :
  exists added,
    calls (fst (finishOperation imports this info opts watch topLevelWatch start tree w))
    = calls w ++ CallEvaluateStatically tree :: added
    /\ (added = [] \/ added = [CallExecuteExt tree] \/ added = [CallExecute tree])
    /\ (fst (evaluateQueryStatically imports tree) = true -> added = [])
    /\ registeredContext
         (fst (finishOperation imports this info opts watch topLevelWatch start tree w))
       = registeredContext w.
Proof.
  run_resolver.
  repeat (step; simpl).
  all: repeat rewrite <- app_assoc; simpl.
  all: eexists; split; [reflexivity|]; split; [auto|]; split; [|reflexivity].
  all: try (intros _; reflexivity).
  all: intros H; discriminate H.
Qed.

(** The watch of the [try] block after a run that returns: it has been
    stopped for the three phases, at three readings of the clock. *)
Lemma prepareQueryTree_stops imports this info rootType opts running w w1 tree watch' :
  prepareQueryTree imports this info rootType opts (Some running) w
  = (w1, Returned (tree, watch')) ->
  watch'
  = Some (mkWatch
            (getPreciseTime imports (S (S (clockReadings w))))
            (setKey "authorization"
               (Some (getPreciseTime imports (S (S (clockReadings w)))
                      - getPreciseTime imports (S (clockReadings w)))%Z)
               (setKey "queryTree"
                  (Some (getPreciseTime imports (S (clockReadings w))
                         - getPreciseTime imports (clockReadings w))%Z)
                  (setKey "distillation"
                     (Some (getPreciseTime imports (clockReadings w)
                            - lastTime running)%Z)
                     (watchTimings running)))))
  /\ clockReadings w1 = S (S (S (clockReadings w))).
Proof.
  unfold prepareQueryTree, queryFlexSearchTokens, expandQueryTree, bind, record,
    liftOutcome, getNextRef, setNextRef, stopIf, stop, now, ret, bind. simpl.
  repeat (step; simpl); try discriminate.
  all: intros [= <- <- <-].
  all: split; reflexivity.
Qed.

(** The envelope after an [executeExt] that answers, when timings are
    taken: the profile is built from the answer, the two watches and the
    clock. *)
Lemma finishOperation_backend imports this info opts stopped top began tree w
      extended res discarded :
  evaluateQueryStatically imports tree = (false, discarded) ->
  executeExt (databaseAdapter this) = Some extended ->
  extended (mkExecutionArgs tree opts) = Returned res ->
  snd (finishOperation imports this info opts (Some stopped) (Some top) (Some began)
                       tree w)
  = Returned
      (mkExecutionResult (resData res) (resError res)
         (Some (mkRequestProfile
                  (profileTimings (resTimings res)
                     (mkWatch (getPreciseTime imports (clockReadings w))
                        (setKey "staticEvaluation"
                           (Some (getPreciseTime imports (clockReadings w)
                                  - lastTime stopped)%Z)
                           (watchTimings stopped)))
                     (mkWatch (getPreciseTime imports (S (S (clockReadings w))))
                        (setKey "database"
                           (Some (getPreciseTime imports (S (S (clockReadings w)))
                                  - getPreciseTime imports (S (clockReadings w)))%Z)
                           (setKey "preparation"
                              (Some (getPreciseTime imports (S (clockReadings w))
                                     - lastTime top)%Z)
                              (watchTimings top))))
                     (getPreciseTime imports (S (S (S (clockReadings w)))) - began)%Z)
                  (resPlan res)
                  (match resStats res with Some s => s | None => VObject [] end)
                  (context info) (operationDefinition info) (variableValues info)
                  (fragments info) (schema info)))).
Proof.
  intros Hstatic Hext Hanswer.
  run_resolver. rewrite Hstatic, Hext. simpl. rewrite Hanswer. reflexivity.
Qed.

(** The same without timings: no profile is built. *)
Lemma finishOperation_backend_untimed imports this info opts topLevelWatch start tree w
      extended res discarded :
  evaluateQueryStatically imports tree = (false, discarded) ->
  executeExt (databaseAdapter this) = Some extended ->
  extended (mkExecutionArgs tree opts) = Returned res ->
  snd (finishOperation imports this info opts None topLevelWatch start tree w)
  = Returned (mkExecutionResult (resData res) (resError res) None).
Proof.
  intros Hstatic Hext Hanswer.
  run_resolver. rewrite Hstatic, Hext. simpl.
  destruct topLevelWatch as [top|]; simpl; rewrite Hanswer; reflexivity.
Qed.

(** The head of [resolveOperation] with the watches it starts. *)
Lemma resolveOperation_watches imports this operationInfo rootType options chosen w :
  effectiveOptions this operationInfo options = Returned chosen ->
  resolveOperation imports this operationInfo rootType options w
  = let timed := needsTimings this chosen in
    let w0 :=
      mkWorld (Some this) (nextRef w)
              (if timed then S (S (S (clockReadings w))) else clockReadings w)
              (calls w) in
    if mutationRejected operationInfo chosen
    then (w0, Thrown "Mutations are not allowed")
    else
      match prepareQueryTree imports this operationInfo rootType chosen
              (if timed
               then Some (mkWatch (getPreciseTime imports (clockReadings w)) [])
               else None) w0 with
      | (w1, Returned prepared) =>
          finishOperation imports this operationInfo chosen (snd prepared)
            (if timed
             then Some (mkWatch (getPreciseTime imports (S (clockReadings w))) [])
             else None)
            (if timed
             then Some (getPreciseTime imports (S (S (clockReadings w))))
             else None)
            (fst prepared) (unregisterContext w1)
      | (w1, Thrown e) => (unregisterContext w1, Thrown e)
      end.
Proof.
  intros Hopts. unfold resolveOperation.
  unfold bind at 1. unfold registerContext.
  unfold bind at 1. unfold liftOutcome. rewrite Hopts.
  cbv zeta.
  destruct (needsTimings this chosen).
  - unfold newWatchIf, newWatch, now, tryFinally, throw, bind, ret.
    cbn [registeredContext nextRef clockReadings calls].
    destruct (mutationRejected operationInfo chosen); [reflexivity|].
    match goal with |- context [prepareQueryTree ?a ?b ?c ?d ?e ?f ?g] =>
      destruct (prepareQueryTree a b c d e f g) as [w1 [prepared|e']] end; reflexivity.
  - unfold newWatchIf, newWatch, now, tryFinally, throw, bind, ret.
    cbn [registeredContext nextRef clockReadings calls].
    destruct (mutationRejected operationInfo chosen); [reflexivity|].
    match goal with |- context [prepareQueryTree ?a ?b ?c ?d ?e ?f ?g] =>
      destruct (prepareQueryTree a b c d e f g) as [w1 [prepared|e']] end; reflexivity.
Qed.

(** Past the head of [resolveOperation]: a run that is not rejected is the
    [try] block followed by the rest of the function. *)
Lemma resolveOperation_unfold imports this operationInfo rootType options chosen w :
  effectiveOptions this operationInfo options = Returned chosen ->
  exists w0 watch topLevelWatch start,
    resolveOperation imports this operationInfo rootType options w
    = (if mutationRejected operationInfo chosen
       then (w0, Thrown "Mutations are not allowed")
       else
         match prepareQueryTree imports this operationInfo rootType chosen watch w0 with
         | (w1, Returned prepared) =>
             finishOperation imports this operationInfo chosen (snd prepared)
                             topLevelWatch start (fst prepared) (unregisterContext w1)
         | (w1, Thrown e) => (unregisterContext w1, Thrown e)
         end)
    /\ calls w0 = calls w
    /\ registeredContext w0 = Some this
    /\ (if needsTimings this chosen
        then watch <> None /\ topLevelWatch <> None /\ start <> None
        else watch = None).
Proof.
  intros Hopts. unfold resolveOperation.
  unfold bind at 1. unfold registerContext.
  unfold bind at 1. unfold liftOutcome. rewrite Hopts.
  destruct (needsTimings this chosen).
  - exists (mkWorld (Some this) (nextRef w) (S (S (S (clockReadings w)))) (calls w)),
           (Some (mkWatch (getPreciseTime imports (clockReadings w)) [])),
           (Some (mkWatch (getPreciseTime imports (S (clockReadings w))) [])),
           (Some (getPreciseTime imports (S (S (clockReadings w))))).
    split; [|repeat split; solve [reflexivity | discriminate]].
    unfold newWatchIf, newWatch, now, tryFinally, throw, bind, ret.
    cbn [registeredContext nextRef clockReadings calls].
    destruct (mutationRejected operationInfo chosen); [reflexivity|].
    match goal with |- context [prepareQueryTree ?a ?b ?c ?d ?e ?f ?g] =>
      destruct (prepareQueryTree a b c d e f g) as [w1 [prepared|e']] end; reflexivity.
  - exists (mkWorld (Some this) (nextRef w) (clockReadings w) (calls w)), None, None, None.
    split; [|repeat split; solve [reflexivity | discriminate]].
    unfold newWatchIf, newWatch, now, tryFinally, throw, bind, ret.
    cbn [registeredContext nextRef clockReadings calls].
    destruct (mutationRejected operationInfo chosen); [reflexivity|].
    match goal with |- context [prepareQueryTree ?a ?b ?c ?d ?e ?f ?g] =>
      destruct (prepareQueryTree a b c d e f g) as [w1 [prepared|e']] end; reflexivity.
Qed.

(** Writing one key leaves what is read under the others. *)
Lemma getKey_rev_setKey_other {V} (k k' : string) (v : V) (o : Dict V) :
  k <> k' -> getKey k (rev (setKey k' v o)) = getKey k (rev o).
Proof.
  intros Hne. induction o as [|[k0 v0] o IH]; simpl.
  - destruct (String.eqb_spec k k'); [contradiction|reflexivity].
  - destruct (String.eqb_spec k' k0) as [->|Hother]; simpl.
    + rewrite !getKey_app. simpl.
      destruct (String.eqb_spec k k0); [contradiction|reflexivity].
    + rewrite !getKey_app, IH. reflexivity.
Qed.

(** A run past the guard whose log ends with the call of [executeExt] for
    [tree]: the [try] block returned [tree], and it was not evaluated
    statically. *)
Lemma run_ending_with_executeExt imports this info rootType chosen watch topLevelWatch
      start w0 before tree :
  calls (fst (match prepareQueryTree imports this info rootType chosen watch w0 with
              | (w1, Returned prepared) =>
                  finishOperation imports this info chosen (snd prepared)
                                  topLevelWatch start (fst prepared)
                                  (unregisterContext w1)
              | (w1, Thrown e) => (unregisterContext w1, Thrown e)
              end))
  = calls w0 ++ before ++ [CallExecuteExt tree] ->
  exists w1 watch' discarded,
    prepareQueryTree imports this info rootType chosen watch w0
    = (w1, Returned (tree, watch'))
    /\ evaluateQueryStatically imports tree = (false, discarded).
Proof.
  intros Hlog.
  destruct (prepareQueryTree_log imports this info rootType chosen watch w0)
    as [added [Hadded [Hnoback _]]].
  destruct (prepareQueryTree imports this info rootType chosen watch w0)
    as [w1 [[tree' watch']|e]] eqn:Hprep; simpl in Hadded.
  2:{ simpl in Hlog. rewrite Hadded in Hlog. apply app_inv_head in Hlog.
      subst added. rewrite existsb_app in Hnoback. simpl in Hnoback.
      rewrite orb_true_r in Hnoback. discriminate. }
  cbn [fst snd] in *.
  destruct (finishOperation_log imports this info chosen watch' topLevelWatch
              start tree' (unregisterContext w1))
    as [last [Hlast [Hshape [Hstatic _]]]].
  rewrite Hlast in Hlog. change (calls (unregisterContext w1)) with (calls w1) in Hlog.
  rewrite Hadded, <- app_assoc in Hlog.
  apply app_inv_head in Hlog.
  destruct Hshape as [-> | [-> | ->]].
  - apply app_inj_tail in Hlog. destruct Hlog as [_ H]. discriminate H.
  - change (added ++ [CallEvaluateStatically tree'; CallExecuteExt tree'])
      with (added ++ [CallEvaluateStatically tree'] ++ [CallExecuteExt tree']) in Hlog.
    rewrite app_assoc in Hlog. apply app_inj_tail in Hlog. destruct Hlog as [_ [= ->]].
    destruct (evaluateQueryStatically imports tree) as [[|] discarded] eqn:Heval.
    + specialize (Hstatic eq_refl). discriminate Hstatic.
    + exists w1, watch', discarded. split; reflexivity.
  - change (added ++ [CallEvaluateStatically tree'; CallExecute tree'])
      with (added ++ [CallEvaluateStatically tree'] ++ [CallExecute tree']) in Hlog.
    rewrite app_assoc in Hlog. apply app_inj_tail in Hlog. destruct Hlog as [_ H].
    discriminate H.
Qed.

(** C6. When a run of [resolveOperation] ends with the call of [executeExt]
    and [executeExt] answers with a result that carries an error, the run
    does not throw: it returns the envelope with the data of the answer and
    that error as a value.  If timings are needed (a profile consumer,
    [recordPlan] or [recordTimings]) the envelope carries a profile with the
    plan and statistics of the answer and every timing taken so far: under
    [preparation] the time of each of the four phases and their total,
    between the readings of the clock at which the watches were stopped,
    beside what the adapter reports there; the [database] and [dbConnection]
    timings of the adapter, or [{ total: undefined }] and [{ total: 0 }]
    without them; and the time from the start of the request to the building
    of the profile.  Otherwise no profile is built, as for a request that
    succeeds. *)
Theorem backend_error_returned_in_envelope :
  forall imports this operationInfo rootType options chosen w tree before extended res
         message,
    effectiveOptions this operationInfo options = Returned chosen ->
    executeExt (databaseAdapter this) = Some extended ->
    calls (fst (resolveOperation imports this operationInfo rootType options w))
    = calls w ++ before ++ [CallExecuteExt tree] ->
    extended (mkExecutionArgs tree chosen) = Returned res ->
    resError res = Some message ->
    exists profile,
      snd (resolveOperation imports this operationInfo rootType options w)
      = Returned (mkExecutionResult (resData res) (Some message) profile)
      /\ if needsTimings this chosen
         then exists p,
             profile = Some p
             /\ plan p = resPlan res
             /\ stats p = match resStats res with Some s => s | None => VObject [] end
             /\ forallb (fun phase => hasKey phase (preparation (timings p)))
                        profiledPhases = true
             /\ getKey "distillation" (preparation (timings p))
                = Some (Some (elapsed imports w 0 3))
             /\ getKey "queryTree" (preparation (timings p))
                = Some (Some (elapsed imports w 3 4))
             /\ getKey "authorization" (preparation (timings p))
                = Some (Some (elapsed imports w 4 5))
             /\ getKey "staticEvaluation" (preparation (timings p))
                = Some (Some (elapsed imports w 5 6))
             /\ getKey "total" (preparation (timings p))
                = Some (Some (elapsed imports w 1 7))
             /\ (forall k, ~ In k profiledPhases ->
                           getKey k (preparation (timings p))
                           = getKey k (adapterPreparationOf res))
             /\ database (timings p)
                = match resTimings res with
                  | Some t => adapterDatabase t
                  | None => [("total", None)]
                  end
             /\ dbConnection (timings p)
                = match resTimings res with
                  | Some t => adapterDbConnection t
                  | None => [("total", Some 0%Z)]
                  end
             /\ total (timings p) = elapsed imports w 2 9
         else profile = None.
Proof.
  intros imports this operationInfo rootType options chosen w tree before extended res
         message Hopts Hext Hlog Hanswer Herror.
  rewrite (resolveOperation_watches imports this operationInfo rootType options chosen
             w Hopts) in *.
  cbv zeta in *.
  destruct (mutationRejected operationInfo chosen).
  { exfalso. cbn [fst calls] in Hlog.
    rewrite <- (app_nil_r (calls w)) in Hlog at 1. apply app_inv_head in Hlog.
    destruct before; discriminate. }
  destruct (needsTimings this chosen).
  - destruct (run_ending_with_executeExt _ _ _ _ _ _ _ _ _ _ _ Hlog)
      as [w1 [watch' [discarded [Hprep Heval]]]].
    rewrite Hprep. cbn [fst snd].
    destruct (prepareQueryTree_stops _ _ _ _ _ _ _ _ _ _ Hprep) as [-> Hclock].
    rewrite (finishOperation_backend imports this operationInfo chosen _ _ _ tree
               (unregisterContext w1) extended res discarded Heval Hext Hanswer).
    rewrite Herror. eexists. split; [reflexivity|].
    eexists. split; [reflexivity|].
    cbn [plan stats timings preparation database dbConnection total].
    unfold profileTimings, readTiming, elapsed, readingAt, adapterPreparationOf.
    cbn [preparation database dbConnection total watchTimings lastTime
         unregisterContext clockReadings].
    rewrite Hclock. cbn [clockReadings Nat.add].
    split; [reflexivity|]. split; [reflexivity|].
    split.
    { unfold profiledPhases. cbn [forallb].
      rewrite !hasKey_getKey, !getKey_assign. reflexivity. }
    rewrite !getKey_assign.
    do 5 (split; [reflexivity|]).
    split.
    { intros k Hk. unfold profiledPhases in Hk.
      rewrite getKey_assign. cbn [rev app getKey].
      destruct (String.eqb_spec k "total") as [->|_];
        [exfalso; apply Hk; simpl; auto 10|].
      rewrite getKey_assign.
      rewrite !getKey_rev_setKey_other by (intros ->; apply Hk; simpl; auto 10).
      reflexivity. }
    split; [destruct (resTimings res); reflexivity|].
    split; [destruct (resTimings res); reflexivity|reflexivity].
  - destruct (run_ending_with_executeExt _ _ _ _ _ _ _ _ _ _ _ Hlog)
      as [w1 [watch' [discarded [Hprep Heval]]]].
    rewrite Hprep. cbn [fst snd].
    assert (Hnone : watch' = None).
    { apply (prepareQueryTree_watch imports this operationInfo rootType chosen None
               (mkWorld (Some this) (nextRef w) (clockReadings w) (calls w))
               tree watch').
      rewrite Hprep. reflexivity. }
    subst watch'.
    rewrite (finishOperation_backend_untimed imports this operationInfo chosen None
               None tree (unregisterContext w1) extended res discarded Heval Hext
               Hanswer).
    rewrite Herror. eexists. split; reflexivity.
Qed.

Lemma backend_error_returned_in_envelope_witness :
  exists p,
    snd (resolveOperation (sampleImports objectWithOperator)
           (profiledContext failedResult) sampleQuery queryType None startWorld)
    = Returned (mkExecutionResult VUndefined
                  (Some "ArangoError: write-write conflict") (Some p))
    /\ plan p = Some (VString "plan")
    /\ getKey "distillation" (preparation (timings p)) = Some (Some 3%Z)
    /\ getKey "total" (preparation (timings p)) = Some (Some 6%Z)
    /\ database (timings p) = [("total", None)]
    /\ total (timings p) = 7%Z.
Proof.
  destruct (backend_error_returned_in_envelope
              (sampleImports objectWithOperator) (profiledContext failedResult)
              sampleQuery queryType None noOptions startWorld expandedObject
              [CallDistillOperation; CallBuildQueryTree;
               CallTokenizeExpressions [mkTokenizable "quick fox" "en"];
               CallApplyAuthorization expandedObject;
               CallEvaluateStatically expandedObject]
              (fun _ => Returned failedResult) failedResult
              "ArangoError: write-write conflict")
    as [profile [Hrun Hprofile]].
  - reflexivity.
  - reflexivity.
  - reflexivity.
  - reflexivity.
  - reflexivity.
  - simpl in Hprofile.
    destruct Hprofile
      as [p [Hp [Hplan [_ [_ [Hdistillation [_ [_ [_ [Htotal [_ [Hdatabase
           [_ Helapsed]]]]]]]]]]]]].
    exists p. rewrite Hrun, Hp.
    split; [reflexivity|]. split; [exact Hplan|].
    split; [exact Hdistillation|]. split; [exact Htotal|].
    split; [exact Hdatabase|exact Helapsed].
Defined.

(** Past the guard the context is unregistered on every exit, whether the
    [try] block returns or throws and whatever the backend answers. *)
Lemma context_unregistered_past_guard imports this operationInfo rootType options
      chosen w :
  effectiveOptions this operationInfo options = Returned chosen ->
  mutationRejected operationInfo chosen = false ->
  registeredContext (fst (resolveOperation imports this operationInfo rootType options w))
  = None.
Proof.
  intros Hopts Hguard.
  destruct (resolveOperation_unfold imports this operationInfo rootType options chosen w
              Hopts)
    as [w0 [watch [topLevelWatch [start [Hrun _]]]]].
  rewrite Hrun, Hguard.
  destruct (prepareQueryTree imports this operationInfo rootType chosen watch w0)
    as [w1 [[tree' watch']|e]]; [|reflexivity].
  destruct (finishOperation_log imports this operationInfo chosen watch' topLevelWatch
              start tree' (unregisterContext w1)) as [added [_ [_ [_ Hcontext]]]].
  cbn [fst snd]. rewrite Hcontext. reflexivity.
Qed.

(** A request makes at most one [tokenizeExpressions] call, and exactly one
    if it returns a result. *)
Lemma one_tokenization_call_per_request imports this operationInfo rootType options w :
  exists added,
    calls (fst (resolveOperation imports this operationInfo rootType options w))
    = calls w ++ added
    /\ length (filter isTokenizeCall added) <= 1
    /\ (forall result,
          snd (resolveOperation imports this operationInfo rootType options w)
          = Returned result ->
          length (filter isTokenizeCall added) = 1).
Proof.
  destruct (effectiveOptions this operationInfo options) as [chosen|e] eqn:Hopts.
  - destruct (resolveOperation_unfold imports this operationInfo rootType options chosen
                w Hopts)
      as [w0 [watch [topLevelWatch [start [Hrun [Hcalls0 _]]]]]].
    rewrite Hrun.
    destruct (mutationRejected operationInfo chosen).
    { exists []. simpl. rewrite app_nil_r, Hcalls0.
      split; [reflexivity|]. split; [lia|discriminate]. }
    destruct (prepareQueryTree_log imports this operationInfo rootType chosen watch w0)
      as [added [Hadded [_ [Hmost [Hexact _]]]]].
    destruct (prepareQueryTree imports this operationInfo rootType chosen watch w0)
      as [w1 [[tree' watch']|e]]; cbn [fst snd] in *.
    + destruct (finishOperation_log imports this operationInfo chosen watch' topLevelWatch
                  start tree' (unregisterContext w1)) as [last [Hlast [Hshape _]]].
      exists (added ++ CallEvaluateStatically tree' :: last).
      rewrite Hlast. change (calls (unregisterContext w1)) with (calls w1).
      rewrite Hadded, Hcalls0, <- app_assoc.
      split; [reflexivity|].
      assert (Hcount : length (filter isTokenizeCall
                                 (added ++ CallEvaluateStatically tree' :: last))
                       = length (filter isTokenizeCall added)).
      { rewrite filter_app, length_app. simpl.
        destruct Hshape as [-> | [-> | ->]]; simpl; lia. }
      rewrite Hcount. split; [exact Hmost|].
      intros _ _. exact (Hexact _ eq_refl).
    + exists added. change (calls (unregisterContext w1)) with (calls w1).
      rewrite Hadded, Hcalls0. split; [reflexivity|]. split; [exact Hmost|discriminate].
  - exists []. unfold resolveOperation, bind, registerContext, liftOutcome. simpl.
    rewrite Hopts. simpl. rewrite app_nil_r.
    split; [reflexivity|]. split; [lia|discriminate].
Qed.

(** *** Expansion *)

(** Induction over a query tree: over the property values of an object node
    and over the nodes and node arrays the fields of the other nodes hold. *)
Section QueryNodeInduction.
Variable OnNode : QueryNode -> Prop.
Hypothesis operator_case :
  forall r expression flexSearchLanguage fields,
    Forall (fun f => onHeldNodes OnNode (snd f)) fields ->
    OnNode (FlexSearchComplexOperatorQueryNode r expression flexSearchLanguage fields).
Hypothesis object_node_case :
  forall r properties,
    Forall (fun p => OnNode (valueNode p)) properties ->
    OnNode (ObjectQueryNode r properties).
Hypothesis other_node_case :
  forall r className fields,
    Forall (fun f => onHeldNodes OnNode (snd f)) fields ->
    OnNode (OtherQueryNode r className fields).

Lemma QueryNode_induction : forall n : QueryNode, OnNode n.
Proof.
  fix induction_on_node 1.
  assert (Hfields : forall fields : list (string * FieldValue QueryNode),
             Forall (fun f => onHeldNodes OnNode (snd f)) fields).
  { intros fields.
    induction fields as [|[fieldName fv] fields IHfields]; constructor; [|exact IHfields].
    destruct fv as [c|cs|v]; simpl.
    - apply induction_on_node.
    - induction cs as [|c cs IHcs]; constructor; [apply induction_on_node|exact IHcs].
    - exact I. }
  intros [r expression flexSearchLanguage fields|r properties|r className fields].
  - apply operator_case. apply Hfields.
  - apply object_node_case.
    induction properties as [|p properties IHproperties]; constructor;
      [|exact IHproperties].
    destruct p as [pr pn pv]. simpl. apply induction_on_node.
  - apply other_node_case. apply Hfields.
Qed.
End QueryNodeInduction.

(** The body of the loop over [Object.keys] in [expandQueryNode]. *)
Lemma expandQueryNode_other imports r className fields toks next :
  expandQueryNode imports (OtherQueryNode r className fields) toks next
  = let (visited, next') :=
      forEach (fun (field : string * FieldValue QueryNode) n =>
                 match snd field with
                 | NodeValue oldValue =>
                     let (newValue, n1) := expandQueryNode imports oldValue toks n in
                     if Nat.eqb (nodeRef newValue) (nodeRef oldValue)
                     then ((field, false), n1)
                     else (((fst field, NodeValue newValue), true), n1)
                 | _ => ((field, false), n)
                 end) fields next in
    if existsb snd visited
    then (OtherQueryNode next' className (map fst visited), S next')
    else (OtherQueryNode r className fields, next').
Proof. reflexivity. Qed.

Lemma forEach_fields_unchanged imports toks fields :
  (forall fieldName old k,
      In (fieldName, NodeValue old) fields ->
      nodeRef (fst (expandQueryNode imports old toks k)) = nodeRef old) ->
  forall next,
    existsb snd
      (fst (forEach (fun (field : string * FieldValue QueryNode) n =>
                       match snd field with
                       | NodeValue oldValue =>
                           let (newValue, n1) :=
                             expandQueryNode imports oldValue toks n in
                           if Nat.eqb (nodeRef newValue) (nodeRef oldValue)
                           then ((field, false), n1)
                           else (((fst field, NodeValue newValue), true), n1)
                       | _ => ((field, false), n)
                       end) fields next)) = false.
Proof.
  induction fields as [|[fieldName fv] fields IH]; intros Hkept next; [reflexivity|].
  cbn [forEach snd].
  assert (Hrest : forall fieldName' old k,
             In (fieldName', NodeValue old) fields ->
             nodeRef (fst (expandQueryNode imports old toks k)) = nodeRef old).
  { intros fieldName' old' k Hin. apply (Hkept fieldName' old' k). right. exact Hin. }
  destruct fv as [old|cs|v].
  - pose proof (Hkept fieldName old next (or_introl eq_refl)) as Hold.
    destruct (expandQueryNode imports old toks next) as [new n1]. simpl in Hold.
    rewrite Hold, Nat.eqb_refl.
    specialize (IH Hrest n1).
    destruct (forEach _ fields n1) as [rest n2]. simpl in *. exact IH.
  - specialize (IH Hrest next).
    destruct (forEach _ fields next) as [rest n2]. simpl in *. exact IH.
  - specialize (IH Hrest next).
    destruct (forEach _ fields next) as [rest n2]. simpl in *. exact IH.
Qed.

Lemma forEach_fields_untouched imports toks fields :
  Forall (fun f => onHeldNodes
                     (fun c => forall next,
                          meetsSpecialNode c = false ->
                          expandQueryNode imports c toks next = (c, next))
                     (snd f)) fields ->
  existsb (fun f => match snd f with
                    | NodeValue c => meetsSpecialNode c
                    | _ => false
                    end) fields = false ->
  forall next,
    forEach (fun (field : string * FieldValue QueryNode) n =>
               match snd field with
               | NodeValue oldValue =>
                   let (newValue, n1) := expandQueryNode imports oldValue toks n in
                   if Nat.eqb (nodeRef newValue) (nodeRef oldValue)
                   then ((field, false), n1)
                   else (((fst field, NodeValue newValue), true), n1)
               | _ => ((field, false), n)
               end) fields next
    = (map (fun f => (f, false)) fields, next).
Proof.
  induction 1 as [|[fieldName fv] fields Hf _ IH]; intros Hnone next; [reflexivity|].
  cbn [forEach snd map]. simpl in Hnone.
  apply orb_false_elim in Hnone. destruct Hnone as [Hhere Hnone].
  destruct fv as [old|cs|v]; simpl in Hf.
  - rewrite (Hf next Hhere), Nat.eqb_refl, (IH Hnone next). reflexivity.
  - rewrite (IH Hnone next). reflexivity.
  - rewrite (IH Hnone next). reflexivity.
Qed.

(** C5, as the code has it.  A node that is neither a search operator nor an
    object node is returned as it is when the expansion of each of its
    node-valued fields returns the original reference; a tree in which no
    search operator and no object node is met along node-valued fields is
    returned by reference and nothing is allocated. *)
Theorem expansion_shares_nodes_without_special_nodes :
  forall imports toks,
    (forall r className fields next,
        (forall fieldName old k,
            In (fieldName, NodeValue old) fields ->
            nodeRef (fst (expandQueryNode imports old toks k)) = nodeRef old) ->
        fst (expandQueryNode imports (OtherQueryNode r className fields) toks next)
        = OtherQueryNode r className fields)
    /\ (forall n next,
           meetsSpecialNode n = false ->
           expandQueryNode imports n toks next = (n, next)).
Proof.
  intros imports toks. split.
  - intros r className fields next Hkept.
    rewrite expandQueryNode_other.
    pose proof (forEach_fields_unchanged imports toks fields Hkept next) as Hflags.
    destruct (forEach _ fields next) as [visited next']. simpl in Hflags.
    rewrite Hflags. reflexivity.
  - intros n. induction n using QueryNode_induction; intros next Hnone;
      try discriminate Hnone.
    rewrite expandQueryNode_other.
    rewrite (forEach_fields_untouched imports toks).
    + assert (Hflags : existsb snd (map (fun f : string * FieldValue QueryNode =>
                                           (f, false)) fields) = false).
      { clear. induction fields; simpl; auto. }
      rewrite Hflags. reflexivity.
    + exact H.
    + exact Hnone.
Qed.

Lemma expansion_shares_nodes_without_special_nodes_witness :
  meetsSpecialNode comparisonNode = false
  /\ expandQueryNode (sampleImports comparisonNode) comparisonNode [] 4
     = (comparisonNode, 4).
Proof.
  split; [reflexivity|].
  apply (proj2 (expansion_shares_nodes_without_special_nodes
                  (sampleImports comparisonNode) []) comparisonNode 4).
  reflexivity.
Defined.

(** C5 as stated fails on the root placeholder: [EMPTY] holds no search
    operator, and its expansion is a new object node. *)
Lemma expansion_rebuilds_empty_object :
  containsFlexSearchOperator EMPTY = false
  /\ nodeRef EMPTY < 4
  /\ nodeRef (fst (expandQueryNode (sampleImports EMPTY) EMPTY [] 4)) <> nodeRef EMPTY.
Proof.
  split; [reflexivity|]. split; [unfold EMPTY; simpl; lia|]. simpl. discriminate.
Qed.

(** An object node is always rebuilt: the node returned is the object
    allocated last. *)
Lemma object_node_always_rebuilt imports r properties toks next :
  exists specs ref,
    expandQueryNode imports (ObjectQueryNode r properties) toks next
    = (ObjectQueryNode ref specs, S ref)
    /\ map propertyName specs = map propertyName properties.
Proof.
  simpl.
  match goal with
  | |- context [forEach ?body properties next] =>
      assert (Hnames : map propertyName (fst (forEach body properties next))
                       = map propertyName properties);
      [|destruct (forEach body properties next) as [specs next']]
  end.
  - revert next. induction properties as [|p properties IH]; intros next; [reflexivity|].
    cbn [forEach].
    destruct (expandQueryNode imports (valueNode p) toks next) as [v n1].
    specialize (IH (S n1)).
    destruct (forEach _ properties (S n1)) as [rest n2]. simpl in *.
    rewrite IH. reflexivity.
  - exists specs, next'. split; [reflexivity|exact Hnames].
Qed.

(** *** Search operators held in arrays *)

(** C1, evaluated on a merge node: the loop over [Object.keys] tests
    [instanceof QueryNode] on the array [objectNodes] itself, so expansion
    returns a merge node as it is, whatever its inputs are.  In the run on
    [mergeWithOperator] the search operator is still in the tree that is
    authorized, evaluated statically and handed to [executeExt]. *)
Theorem operator_in_merge_node_reaches_backend :
  (forall imports r objectNodes toks next,
      expandQueryNode imports (MergeObjectsQueryNode r objectNodes) toks next
      = (MergeObjectsQueryNode r objectNodes, next))
  /\ containsFlexSearchOperator mergeWithOperator = true
  /\ resolveOperation (sampleImports mergeWithOperator) sampleContext sampleQuery
                      queryType None startWorld
     = (mkWorld None 4 0
          [CallDistillOperation; CallBuildQueryTree; CallTokenizeExpressions [];
           CallApplyAuthorization mergeWithOperator;
           CallEvaluateStatically mergeWithOperator;
           CallExecuteExt mergeWithOperator],
        Returned (mkExecutionResult (VString "rows") None None)).
Proof.
  split; [|split]; reflexivity.
Qed.

(** A property specification met as a node is walked like any other node:
    its [valueNode] is a node-valued field. *)
Lemma property_node_walked (p : PropertySpecification QueryNode) :
  collectTokenizations (PropertySpecificationNode p)
  = collectTokenizations (valueNode p).
Proof.
  simpl. apply app_nil_r.
Qed.

(** The same operator as the value of an object property is expanded. *)
Lemma operator_in_object_node_expanded :
  resolveOperation (sampleImports objectWithOperator) sampleContext sampleQuery
                   queryType None startWorld
  = (mkWorld None 7 0
       [CallDistillOperation; CallBuildQueryTree;
        CallTokenizeExpressions [mkTokenizable "quick fox" "en"];
        CallApplyAuthorization expandedObject;
        CallEvaluateStatically expandedObject;
        CallExecuteExt expandedObject],
     Returned (mkExecutionResult (VString "rows") None None))
  /\ containsFlexSearchOperator expandedObject = false.
Proof.
  split; reflexivity.
Qed.

(** C2, evaluated on a merge node: [collectTokenizations] finds nothing in a
    merge node, whatever its inputs are, while it finds the same operator as
    the value of an object property.  In the run on [mergeWithOperator] the
    one [tokenizeExpressions] call of the request carries the empty list. *)
Theorem operator_in_merge_node_not_collected :
  (forall r objectNodes, collectTokenizations (MergeObjectsQueryNode r objectNodes) = [])
  /\ collectTokenizations objectWithOperator = [mkTokenizable "quick fox" "en"]
  /\ containsFlexSearchOperator mergeWithOperator = true
  /\ filter isTokenizeCall
       (calls (fst (resolveOperation (sampleImports mergeWithOperator) sampleContext
                      sampleQuery queryType None startWorld)))
     = [CallTokenizeExpressions []].
Proof.
  split; [|split; [|split]]; reflexivity.
Qed.

Lemma list_max_bound {A} (g : A -> nat) (items : list A) (bound : nat) :
  list_max (map g items) < bound -> Forall (fun a => g a < bound) items.
Proof.
  intros H. apply Forall_forall. intros a Ha.
  assert (Hle : list_max (map g items) <= list_max (map g items)) by lia.
  apply list_max_le in Hle. rewrite Forall_forall in Hle.
  specialize (Hle (g a) (in_map g items a Ha)). lia.
Qed.

(** Where the walk does reach every operator, expansion removes them all,
    given that the [expand] of an operator builds a new node that holds no
    operator. *)
Section ExpansionRemovesOperators.
Variable imports : Imports.
Variable toks : list FlexSearchTokenization.
Hypothesis expand_replaces :
  forall node k, containsFlexSearchOperator (fst (expand imports node toks k)) = false.
Hypothesis expand_allocates :
  forall node k,
    k <= nodeRef (fst (expand imports node toks k))
    /\ k <= snd (expand imports node toks k).

Lemma expand_properties_cleanly properties :
  Forall (fun p => expandsCleanly imports toks (valueNode p)) properties ->
  forall next,
    Forall (fun p => maxVisitedRef (valueNode p) < next) properties ->
    existsb (fun p => operatorHeldInArray (valueNode p)) properties = false ->
    next <= snd (forEach (fun property n =>
                     let (expandedValueNode, n1) :=
                       expandQueryNode imports (valueNode property) toks n in
                     (mkPropertySpecification n1 (propertyName property)
                                              expandedValueNode, S n1))
                  properties next)
    /\ existsb (fun p => containsFlexSearchOperator (valueNode p))
         (fst (forEach (fun property n =>
                     let (expandedValueNode, n1) :=
                       expandQueryNode imports (valueNode property) toks n in
                     (mkPropertySpecification n1 (propertyName property)
                                              expandedValueNode, S n1))
                  properties next)) = false.
Proof.
  induction 1 as [|p properties Hp _ IH]; intros next Hrefs Hheld.
  - simpl. split; [lia|reflexivity].
  - inversion Hrefs as [|? ? Hpref Hrest]; subst.
    simpl in Hheld. apply orb_false_elim in Hheld. destruct Hheld as [Hhere Hheld].
    cbn [forEach].
    destruct (Hp next Hpref Hhere) as [Hmono [_ Hclean]].
    destruct (expandQueryNode imports (valueNode p) toks next) as [v n1].
    simpl in Hmono, Hclean.
    assert (Hrest' : Forall (fun p => maxVisitedRef (valueNode p) < S n1) properties).
    { eapply Forall_impl; [|exact Hrest]. simpl. intros; lia. }
    destruct (IH (S n1) Hrest' Hheld) as [Hmono' Hclean'].
    destruct (forEach _ properties (S n1)) as [rest n2].
    simpl in *. split; [lia|]. rewrite Hclean, Hclean'. reflexivity.
Qed.

Lemma expand_fields_cleanly fields :
  Forall (fun f => onHeldNodes (expandsCleanly imports toks) (snd f)) fields ->
  forall next,
    Forall (fun f => match snd f with NodeValue c => maxVisitedRef c | _ => 0 end < next)
           fields ->
    existsb (fun f => match snd f with
                      | NodeValue c => operatorHeldInArray c
                      | NodeArray cs => existsb containsFlexSearchOperator cs
                      | PlainValue _ => false
                      end) fields = false ->
    let visited :=
      forEach (fun (field : string * FieldValue QueryNode) n =>
                 match snd field with
                 | NodeValue oldValue =>
                     let (newValue, n1) := expandQueryNode imports oldValue toks n in
                     if Nat.eqb (nodeRef newValue) (nodeRef oldValue)
                     then ((field, false), n1)
                     else (((fst field, NodeValue newValue), true), n1)
                 | _ => ((field, false), n)
                 end) fields next in
    next <= snd visited
    /\ existsb fieldHoldsOperator (map fst (fst visited)) = false
    /\ (existsb snd (fst visited) = false -> map fst (fst visited) = fields).
Proof.
  induction 1 as [|[fieldName fv] fields Hf _ IH]; intros next Hrefs Hheld.
  - simpl. split; [lia|]. split; [reflexivity|reflexivity].
  - inversion Hrefs as [|? ? Href Hrest]; subst.
    simpl in Hheld. apply orb_false_elim in Hheld. destruct Hheld as [Hhere Hheld].
    cbn [forEach snd].
    destruct fv as [old|cs|v]; simpl in Hf, Href, Hhere.
    + destruct (Hf next Href Hhere) as [Hmono [Hfresh Hclean]].
      destruct (expandQueryNode imports old toks next) as [new n1].
      simpl in Hmono, Hfresh, Hclean.
      assert (Hrest' : Forall (fun f => match snd f with
                                        | NodeValue c => maxVisitedRef c
                                        | _ => 0
                                        end < n1) fields).
      { eapply Forall_impl; [|exact Hrest]. simpl. intros; lia. }
      specialize (IH n1 Hrest' Hheld). simpl in IH.
      destruct IH as [Hmono' [Hclean' Hsame]].
      assert (Hold : nodeRef old < next).
      { destruct old; simpl in Href |- *; lia. }
      destruct (Nat.eqb_spec (nodeRef new) (nodeRef old)) as [Heq|Hne].
      * destruct Hfresh as [->|Hfresh]; [|lia].
        destruct (forEach _ fields n1) as [rest n2]. simpl in *.
        split; [lia|]. split.
        -- unfold fieldHoldsOperator at 1. simpl. rewrite Hclean. exact Hclean'.
        -- intros Hflags. rewrite (Hsame Hflags). reflexivity.
      * destruct (forEach _ fields n1) as [rest n2]. simpl in *.
        split; [lia|]. split.
        -- unfold fieldHoldsOperator at 1. simpl. rewrite Hclean. exact Hclean'.
        -- discriminate.
    + specialize (IH next Hrest Hheld). simpl in IH.
      destruct IH as [Hmono' [Hclean' Hsame]].
      destruct (forEach _ fields next) as [rest n2]. simpl in *.
      split; [lia|]. split.
      * unfold fieldHoldsOperator at 1. simpl. rewrite Hhere. exact Hclean'.
      * intros Hflags. rewrite (Hsame Hflags). reflexivity.
    + specialize (IH next Hrest Hheld). simpl in IH.
      destruct IH as [Hmono' [Hclean' Hsame]].
      destruct (forEach _ fields next) as [rest n2]. simpl in *.
      split; [lia|]. split.
      * exact Hclean'.
      * intros Hflags. rewrite (Hsame Hflags). reflexivity.
Qed.

Lemma expansion_cleans_visited_nodes : forall n, expandsCleanly imports toks n.
Proof.
  induction n as [r e l fields H|r properties H|r className fields H]
    using QueryNode_induction; intros next Hrefs Hheld.
  - simpl. destruct (expand_allocates
                       (FlexSearchComplexOperatorQueryNode r e l fields) next)
      as [Hfresh Hmono].
    split; [exact Hmono|]. split; [right; exact Hfresh|apply expand_replaces].
  - simpl in Hrefs, Hheld.
    assert (Hprops : Forall (fun p => maxVisitedRef (valueNode p) < next) properties).
    { apply (list_max_bound (fun p : PropertySpecification QueryNode =>
                               maxVisitedRef (valueNode p))).
      eapply Nat.le_lt_trans; [apply Nat.le_max_r|exact Hrefs]. }
    destruct (expand_properties_cleanly properties H next Hprops Hheld)
      as [Hmono Hclean].
    simpl. destruct (forEach _ properties next) as [specs next']. simpl in *.
    split; [lia|]. split; [right; exact Hmono|exact Hclean].
  - simpl in Hrefs, Hheld.
    assert (Hfields : Forall (fun f => match snd f with
                                       | NodeValue c => maxVisitedRef c
                                       | _ => 0
                                       end < next) fields).
    { apply (list_max_bound (fun f : string * FieldValue QueryNode =>
                               match snd f with
                               | NodeValue c => maxVisitedRef c
                               | _ => 0
                               end)).
      eapply Nat.le_lt_trans; [apply Nat.le_max_r|exact Hrefs]. }
    destruct (expand_fields_cleanly fields H next Hfields Hheld)
      as [Hmono [Hclean Hsame]].
    rewrite expandQueryNode_other.
    destruct (forEach _ fields next) as [visited next']. simpl in *.
    destruct (existsb snd visited).
    + simpl. split; [lia|]. split; [right; exact Hmono|exact Hclean].
    + simpl. split; [exact Hmono|]. split; [left; reflexivity|].
      rewrite <- (Hsame eq_refl). exact Hclean.
Qed.

End ExpansionRemovesOperators.

Lemma expansion_removes_visited_operators imports toks :
  (forall node k, containsFlexSearchOperator (fst (expand imports node toks k)) = false) ->
  (forall node k,
      k <= nodeRef (fst (expand imports node toks k))
      /\ k <= snd (expand imports node toks k)) ->
  forall n next,
    maxVisitedRef n < next ->
    operatorHeldInArray n = false ->
    containsFlexSearchOperator (fst (expandQueryNode imports n toks next)) = false.
Proof.
  intros Hreplaces Hallocates n next Hrefs Hheld.
  apply (expansion_cleans_visited_nodes imports toks Hreplaces Hallocates n next Hrefs
           Hheld).
Qed.

(** * Properties of requests, expansion and generated input types *)

(** ** The operation resolver: the course of a request *)

(** What a [try] block that returns has done, step by step. *)
Lemma prepareQueryTree_returned imports this info rootType opts watch w w1 tree watch' :
  prepareQueryTree imports this info rootType opts watch w
  = (w1, Returned (tree, watch')) ->
  exists selection built k1 tokens k3,
    distillOperation imports info = Returned selection
    /\ buildConditionalObjectQueryNode imports EMPTY rootType selection
         (mkFieldContext [] (flexSearchMaxFilterableAndSortableAmount opts)
                         (flexSearchRecursionDepth opts)) (nextRef w)
       = Returned (built, k1)
    /\ tokenizeExpressions (databaseAdapter this) (collectTokenizations built)
       = Returned tokens
    /\ applyAuthorizationToQueryTree imports
         (fst (expandQueryNode imports built tokens k1)) (requestRolesOf opts)
         (snd (expandQueryNode imports built tokens k1))
       = Returned (tree, k3)
    /\ calls w1
       = calls w ++ [CallDistillOperation; CallBuildQueryTree;
                     CallTokenizeExpressions (collectTokenizations built);
                     CallApplyAuthorization
                       (fst (expandQueryNode imports built tokens k1))].
Proof.
  unfold prepareQueryTree, queryFlexSearchTokens, expandQueryTree, bind, record,
    liftOutcome, getNextRef, setNextRef, stopIf, stop, now, ret, requestRolesOf.
  simpl.
  destruct (distillOperation imports info) as [selection|e]; simpl.
  2:{ destruct watch; discriminate. }
  destruct watch as [running|]; simpl.
  all: match goal with
       | |- context [buildConditionalObjectQueryNode ?i ?a ?b ?c ?d ?e] =>
           destruct (buildConditionalObjectQueryNode i a b c d e) as [[built k1]|e'] eqn:Hbuild
       end; simpl; try discriminate.
  all: destruct (tokenizeExpressions (databaseAdapter this) (collectTokenizations built))
         as [tokens|e'] eqn:Htok; simpl; try discriminate.
  all: destruct (expandQueryNode imports built tokens k1) as [expanded k2] eqn:Hexp; simpl.
  all: match goal with
       | |- context [applyAuthorizationToQueryTree ?i ?a ?b ?c] =>
           destruct (applyAuthorizationToQueryTree i a b c) as [[authorized k3]|e'] eqn:Hauth
       end; simpl; try discriminate.
  all: intros [= <- <- <-].
  all: exists selection, built, k1, tokens, k3.
  all: rewrite Htok, Hexp; simpl.
  all: repeat split; try assumption; try reflexivity.
  all: repeat rewrite <- app_assoc; reflexivity.
Qed.

Ltac run_finish :=
  unfold finishOperation, runOnAdapter, buildProfile, stopIf, stop, now,
    bind, record, liftOutcome, ret;
  simpl.

(** What the statements after the [try] block do, case by case. *)
Lemma finishOperation_cases imports this info opts watch topLevelWatch start tree w :
  let run := finishOperation imports this info opts watch topLevelWatch start tree w in
  registeredContext (fst run) = registeredContext w
  /\ (forall result, snd run = Returned result ->
        present (profile result) = present watch && present topLevelWatch && present start)
  /\ match evaluateQueryStatically imports tree with
     | (true, value) =>
         calls (fst run) = calls w ++ [CallEvaluateStatically tree]
         /\ exists p, snd run = Returned (mkExecutionResult value None p)
     | (false, _) =>
         match executeExt (databaseAdapter this) with
         | Some extended =>
             calls (fst run)
             = calls w ++ [CallEvaluateStatically tree; CallExecuteExt tree]
             /\ match extended (mkExecutionArgs tree opts) with
                | Returned res =>
                    exists p,
                      snd run
                      = Returned (mkExecutionResult (resData res) (resError res) p)
                | Thrown e => snd run = Thrown e
                end
         | None =>
             calls (fst run)
             = calls w ++ [CallEvaluateStatically tree; CallExecute tree]
             /\ match execute (databaseAdapter this) tree with
                | Returned value =>
                    exists p, snd run = Returned (mkExecutionResult value None p)
                | Thrown e => snd run = Thrown e
                end
         end
     end.
Proof.
  run_finish.
  destruct (evaluateQueryStatically imports tree) as [[|] value];
    destruct watch as [running|], topLevelWatch as [top|], start as [began|];
    simpl;
    try (destruct (executeExt (databaseAdapter this)) as [extended|]; simpl;
         [destruct (extended (mkExecutionArgs tree opts)) as [res|e]
         |destruct (execute (databaseAdapter this) tree) as [value'|e]]; simpl).
  all: repeat rewrite <- app_assoc; simpl.
  all: split; [reflexivity|]; split;
    [intros result H; try discriminate H; injection H as <-; reflexivity|].
  all: try (split; [reflexivity|]); try reflexivity.
  all: eexists; reflexivity.
Qed.

(** The statements before the guard: they register the context, read the
    clock three times if timings are needed, and leave the rest alone. *)
Lemma resolveOperation_head imports this operationInfo rootType options chosen w :
  effectiveOptions this operationInfo options = Returned chosen ->
  exists w0 watch topLevelWatch start,
    resolveOperation imports this operationInfo rootType options w
    = (if mutationRejected operationInfo chosen
       then (w0, Thrown "Mutations are not allowed")
       else
         match prepareQueryTree imports this operationInfo rootType chosen watch w0 with
         | (w1, Returned prepared) =>
             finishOperation imports this operationInfo chosen (snd prepared)
                             topLevelWatch start (fst prepared) (unregisterContext w1)
         | (w1, Thrown e) => (unregisterContext w1, Thrown e)
         end)
    /\ calls w0 = calls w
    /\ nextRef w0 = nextRef w
    /\ present watch = needsTimings this chosen
    /\ present topLevelWatch = needsTimings this chosen
    /\ present start = needsTimings this chosen
    /\ (forall running, watch = Some running -> watchTimings running = []).
Proof.
  intros Hopts. unfold resolveOperation.
  unfold bind at 1. unfold registerContext.
  unfold bind at 1. unfold liftOutcome. rewrite Hopts.
  destruct (needsTimings this chosen).
  - exists (mkWorld (Some this) (nextRef w) (S (S (S (clockReadings w)))) (calls w)),
           (Some (mkWatch (getPreciseTime imports (clockReadings w)) [])),
           (Some (mkWatch (getPreciseTime imports (S (clockReadings w))) [])),
           (Some (getPreciseTime imports (S (S (clockReadings w))))).
    split; [|repeat split; try reflexivity;
              intros running Hsome; inversion Hsome; reflexivity].
    unfold newWatchIf, newWatch, now, tryFinally, throw, bind, ret.
    cbn [registeredContext nextRef clockReadings calls].
    destruct (mutationRejected operationInfo chosen); [reflexivity|].
    match goal with |- context [prepareQueryTree ?a ?b ?c ?d ?e ?f ?g] =>
      destruct (prepareQueryTree a b c d e f g) as [w1 [prepared|e']] end; reflexivity.
  - exists (mkWorld (Some this) (nextRef w) (clockReadings w) (calls w)), None, None, None.
    split; [|repeat split; try reflexivity;
              intros running Hsome; inversion Hsome; reflexivity].
    unfold newWatchIf, newWatch, now, tryFinally, throw, bind, ret.
    cbn [registeredContext nextRef clockReadings calls].
    destruct (mutationRejected operationInfo chosen); [reflexivity|].
    match goal with |- context [prepareQueryTree ?a ?b ?c ?d ?e ?f ?g] =>
      destruct (prepareQueryTree a b c d e f g) as [w1 [prepared|e']] end; reflexivity.
Qed.

Lemma prepareQueryTree_keeps_watch imports this info rootType opts watch w tree watch' :
  snd (prepareQueryTree imports this info rootType opts watch w) = Returned (tree, watch') ->
  present watch' = present watch.
Proof.
  intros H. apply prepareQueryTree_watch in H.
  destruct watch as [running|].
  - destruct H as [stopped [-> _]]. reflexivity.
  - subst. reflexivity.
Qed.

(** Everything a request that returns has done. *)
Lemma resolveOperation_returned imports this operationInfo rootType options w result :
  snd (resolveOperation imports this operationInfo rootType options w) = Returned result ->
  exists chosen selection built k1 tokens authorized k3,
    effectiveOptions this operationInfo options = Returned chosen
    /\ mutationRejected operationInfo chosen = false
    /\ distillOperation imports operationInfo = Returned selection
    /\ buildConditionalObjectQueryNode imports EMPTY rootType selection
         (mkFieldContext [] (flexSearchMaxFilterableAndSortableAmount chosen)
                         (flexSearchRecursionDepth chosen)) (nextRef w)
       = Returned (built, k1)
    /\ tokenizeExpressions (databaseAdapter this) (collectTokenizations built)
       = Returned tokens
    /\ applyAuthorizationToQueryTree imports
         (fst (expandQueryNode imports built tokens k1)) (requestRolesOf chosen)
         (snd (expandQueryNode imports built tokens k1))
       = Returned (authorized, k3)
    /\ present (profile result) = needsTimings this chosen
    /\ match evaluateQueryStatically imports authorized with
       | (true, value) =>
           calls (fst (resolveOperation imports this operationInfo rootType options w))
           = calls w
             ++ preparationCalls built (fst (expandQueryNode imports built tokens k1))
                                 authorized
           /\ data result = value /\ error result = None
       | (false, _) =>
           match executeExt (databaseAdapter this) with
           | Some extended =>
               calls (fst (resolveOperation imports this operationInfo rootType options w))
               = calls w
                 ++ preparationCalls built
                      (fst (expandQueryNode imports built tokens k1)) authorized
                 ++ [CallExecuteExt authorized]
               /\ exists res,
                   extended (mkExecutionArgs authorized chosen) = Returned res
                   /\ data result = resData res /\ error result = resError res
           | None =>
               calls (fst (resolveOperation imports this operationInfo rootType options w))
               = calls w
                 ++ preparationCalls built
                      (fst (expandQueryNode imports built tokens k1)) authorized
                 ++ [CallExecute authorized]
               /\ execute (databaseAdapter this) authorized = Returned (data result)
               /\ error result = None
           end
       end.
Proof.
  intros Hrun.
  destruct (effectiveOptions this operationInfo options) as [chosen|e] eqn:Hopts.
  2:{ rewrite (throwing_options_callback_leaves_context_registered
                 imports this operationInfo rootType options e w Hopts) in Hrun.
      discriminate Hrun. }
  destruct (resolveOperation_head imports this operationInfo rootType options chosen w
              Hopts)
    as [w0 [watch [topLevelWatch [start [Heq [Hcalls0 [Hnext0 [Hw [Ht [Hs _]]]]]]]]]].
  rewrite Heq in *. clear Heq.
  destruct (mutationRejected operationInfo chosen) eqn:Hguard; [discriminate Hrun|].
  destruct (prepareQueryTree imports this operationInfo rootType chosen watch w0)
    as [w1 [[authorized watch']|e]] eqn:Hprep; [|discriminate Hrun].
  cbn [fst snd] in *.
  destruct (prepareQueryTree_returned _ _ _ _ _ _ _ _ _ _ Hprep)
    as [selection [built [k1 [tokens [k3 [Hdistill [Hbuild [Htok [Hauth Hlog]]]]]]]]].
  assert (Hwatch' : present watch' = present watch).
  { apply (prepareQueryTree_keeps_watch imports this operationInfo rootType chosen
             watch w0 authorized). rewrite Hprep. reflexivity. }
  exists chosen, selection, built, k1, tokens, authorized, k3.
  rewrite Hnext0 in Hbuild.
  do 6 (split; [assumption || reflexivity|]).
  destruct (finishOperation_cases imports this operationInfo chosen watch' topLevelWatch
              start authorized (unregisterContext w1)) as [_ [Hprofile Hcases]].
  split.
  { rewrite (Hprofile result Hrun), Hwatch', Hw, Ht, Hs.
    destruct (needsTimings this chosen); reflexivity. }
  change (calls (unregisterContext w1)) with (calls w1) in Hcases.
  rewrite Hlog, Hcalls0 in Hcases. unfold preparationCalls.
  destruct (evaluateQueryStatically imports authorized) as [[|] value].
  - destruct Hcases as [Hcalls [p Hres]]. rewrite Hcalls, <- app_assoc.
    split; [reflexivity|]. rewrite Hres in Hrun. injection Hrun as <-.
    split; reflexivity.
  - destruct (executeExt (databaseAdapter this)) as [extended|].
    + destruct Hcases as [Hcalls Hres]. rewrite Hcalls, <- app_assoc.
      split; [reflexivity|].
      destruct (extended (mkExecutionArgs authorized chosen)) as [res|e].
      * destruct Hres as [p Hres]. rewrite Hres in Hrun. injection Hrun as <-.
        exists res. repeat split; reflexivity.
      * rewrite Hres in Hrun. discriminate Hrun.
    + destruct Hcases as [Hcalls Hres]. rewrite Hcalls, <- app_assoc.
      split; [reflexivity|].
      destruct (execute (databaseAdapter this) authorized) as [value'|e].
      * destruct Hres as [p Hres]. rewrite Hres in Hrun. injection Hrun as <-.
        split; reflexivity.
      * rewrite Hres in Hrun. discriminate Hrun.
Qed.

(** X1. A request that returns has called its collaborators in one order:
    distillation, building of the query tree, one tokenization call with what
    [collectTokenizations] gathers from the built tree, authorization of the
    expanded tree, static evaluation of the authorized tree, and then at most
    one call of the backend, on the authorized tree. *)
Theorem request_runs_the_pipeline_in_order :
  forall imports this operationInfo rootType options w result,
    snd (resolveOperation imports this operationInfo rootType options w) = Returned result ->
    exists chosen selection built tokens k1 authorized k3 backendCalls,
      effectiveOptions this operationInfo options = Returned chosen
      /\ distillOperation imports operationInfo = Returned selection
      /\ buildConditionalObjectQueryNode imports EMPTY rootType selection
           (mkFieldContext [] (flexSearchMaxFilterableAndSortableAmount chosen)
                           (flexSearchRecursionDepth chosen)) (nextRef w)
         = Returned (built, k1)
      /\ tokenizeExpressions (databaseAdapter this) (collectTokenizations built)
         = Returned tokens
      /\ applyAuthorizationToQueryTree imports
           (fst (expandQueryNode imports built tokens k1)) (requestRolesOf chosen)
           (snd (expandQueryNode imports built tokens k1))
         = Returned (authorized, k3)
      /\ calls (fst (resolveOperation imports this operationInfo rootType options w))
         = calls w
           ++ [CallDistillOperation; CallBuildQueryTree;
               CallTokenizeExpressions (collectTokenizations built);
               CallApplyAuthorization (fst (expandQueryNode imports built tokens k1));
               CallEvaluateStatically authorized]
           ++ backendCalls
      /\ (backendCalls = [] \/ backendCalls = [CallExecuteExt authorized]
          \/ backendCalls = [CallExecute authorized]).
Proof.
  intros imports this operationInfo rootType options w result Hrun.
  destruct (resolveOperation_returned _ _ _ _ _ _ _ Hrun)
    as [chosen [selection [built [k1 [tokens [authorized [k3
         [Hopts [_ [Hdistill [Hbuild [Htok [Hauth [_ Hcases]]]]]]]]]]]]]].
  unfold preparationCalls in Hcases.
  destruct (evaluateQueryStatically imports authorized) as [[|] value].
  - destruct Hcases as [Hcalls _].
    exists chosen, selection, built, tokens, k1, authorized, k3, [].
    do 5 (split; [assumption|]). rewrite app_nil_r. split; [exact Hcalls|auto].
  - destruct (executeExt (databaseAdapter this)) as [extended|].
    + destruct Hcases as [Hcalls _].
      exists chosen, selection, built, tokens, k1, authorized, k3,
             [CallExecuteExt authorized].
      do 5 (split; [assumption|]). split; [exact Hcalls|auto].
    + destruct Hcases as [Hcalls _].
      exists chosen, selection, built, tokens, k1, authorized, k3,
             [CallExecute authorized].
      do 5 (split; [assumption|]). split; [exact Hcalls|auto].
Qed.

Lemma request_runs_the_pipeline_in_order_witness :
  exists built authorized backendCalls,
    calls (fst (resolveOperation (sampleImports objectWithOperator) sampleContext
                  sampleQuery queryType None startWorld))
    = calls startWorld
      ++ [CallDistillOperation; CallBuildQueryTree;
          CallTokenizeExpressions (collectTokenizations built);
          CallApplyAuthorization authorized;
          CallEvaluateStatically authorized]
      ++ backendCalls.
Proof.
  destruct (request_runs_the_pipeline_in_order
              (sampleImports objectWithOperator) sampleContext sampleQuery queryType
              None startWorld (mkExecutionResult (VString "rows") None None) eq_refl)
    as [chosen [selection [built [tokens [k1 [authorized [k3 [backendCalls
         [_ [_ [_ [_ [Hauth [Hcalls _]]]]]]]]]]]]]].
  simpl in Hauth. injection Hauth as Hsame _.
  exists built, authorized, backendCalls. rewrite Hcalls, Hsame. reflexivity.
Defined.

(** X2. Static evaluation decides about the backend: when
    [evaluateQueryStatically] answers that the authorized tree can be
    evaluated statically, a request that returns has made no backend call and
    its envelope holds the static result and no error; otherwise it has made
    exactly one backend call. *)
Theorem static_result_skips_the_backend :
  forall imports this operationInfo rootType options w result,
    snd (resolveOperation imports this operationInfo rootType options w) = Returned result ->
    exists authorized added,
      calls (fst (resolveOperation imports this operationInfo rootType options w))
      = calls w ++ added
      /\ In (CallEvaluateStatically authorized) added
      /\ if fst (evaluateQueryStatically imports authorized)
         then existsb isBackendCall added = false
              /\ data result = snd (evaluateQueryStatically imports authorized)
              /\ error result = None
         else length (filter isBackendCall added) = 1.
Proof.
  intros imports this operationInfo rootType options w result Hrun.
  destruct (resolveOperation_returned _ _ _ _ _ _ _ Hrun)
    as [chosen [selection [built [k1 [tokens [authorized [k3
         [_ [_ [_ [_ [_ [_ [_ Hcases]]]]]]]]]]]]]].
  exists authorized.
  unfold preparationCalls in Hcases.
  destruct (evaluateQueryStatically imports authorized) as [[|] value]; cbn [fst snd].
  - destruct Hcases as [Hcalls [Hdata Herror]].
    eexists. split; [exact Hcalls|]. split; [simpl; auto 10|].
    split; [reflexivity|]. split; assumption.
  - destruct (executeExt (databaseAdapter this)) as [extended|];
      destruct Hcases as [Hcalls _];
      (eexists; split; [exact Hcalls|]; split; [simpl; auto 10|reflexivity]).
Qed.

Lemma static_result_skips_the_backend_witness :
  exists authorized added,
    calls (fst (resolveOperation (staticImports comparisonNode (VBool false))
                  sampleContext sampleQuery queryType None startWorld))
    = calls startWorld ++ added
    /\ In (CallEvaluateStatically authorized) added
    /\ existsb isBackendCall added = false.
Proof.
  destruct (static_result_skips_the_backend
              (staticImports comparisonNode (VBool false)) sampleContext sampleQuery
              queryType None startWorld (mkExecutionResult (VBool false) None None)
              eq_refl)
    as [authorized [added [Hcalls [Hin Hstatic]]]].
  exists authorized, added. simpl in Hstatic. destruct Hstatic as [Hnone _].
  repeat split; assumption.
Defined.

(** X3. With an adapter that has no [executeExt], the envelope of a request
    that returns never carries an error: the result of [execute] is wrapped
    as [{ data }]. *)
Theorem plain_execute_reports_no_error :
  forall imports this operationInfo rootType options w result,
    executeExt (databaseAdapter this) = None ->
    snd (resolveOperation imports this operationInfo rootType options w) = Returned result ->
    error result = None.
Proof.
  intros imports this operationInfo rootType options w result Hplain Hrun.
  destruct (resolveOperation_returned _ _ _ _ _ _ _ Hrun)
    as [chosen [selection [built [k1 [tokens [authorized [k3
         [_ [_ [_ [_ [_ [_ [_ Hcases]]]]]]]]]]]]]].
  rewrite Hplain in Hcases.
  destruct (evaluateQueryStatically imports authorized) as [[|] value].
  - destruct Hcases as [_ [_ Herror]]. exact Herror.
  - destruct Hcases as [_ [_ Herror]]. exact Herror.
Qed.

Lemma plain_execute_reports_no_error_witness :
  snd (resolveOperation (sampleImports comparisonNode)
         (mkContext false None (plainAdapter (Returned (VString "rows"))))
         sampleQuery queryType None startWorld)
  = Returned (mkExecutionResult (VString "rows") None None)
  /\ error (mkExecutionResult (VString "rows") None None) = None.
Proof.
  split; [reflexivity|].
  apply (plain_execute_reports_no_error (sampleImports comparisonNode)
           (mkContext false None (plainAdapter (Returned (VString "rows"))))
           sampleQuery queryType None startWorld); reflexivity.
Defined.

(** X4. The envelope of a request that returns has a profile exactly when
    timings are needed: the profile is [undefined] if and only if there is no
    profile consumer and neither [recordPlan] nor [recordTimings] is set in
    the options the request runs with. *)
Theorem profile_built_iff_timings_needed :
  forall imports this operationInfo rootType options w result,
    snd (resolveOperation imports this operationInfo rootType options w) = Returned result ->
    exists chosen,
      effectiveOptions this operationInfo options = Returned chosen
      /\ (profile result = None
          <-> profileConsumer this = false /\ recordPlan chosen = false
              /\ recordTimings chosen = false).
Proof.
  intros imports this operationInfo rootType options w result Hrun.
  destruct (resolveOperation_returned _ _ _ _ _ _ _ Hrun)
    as [chosen [selection [built [k1 [tokens [authorized [k3
         [Hopts [_ [_ [_ [_ [_ [Hprofile _]]]]]]]]]]]]]].
  exists chosen. split; [exact Hopts|].
  unfold needsTimings in Hprofile.
  destruct (profile result) as [p|]; simpl in Hprofile; split.
  - discriminate.
  - intros [H1 [H2 H3]]. rewrite H1, H2, H3 in Hprofile. discriminate Hprofile.
  - intros _. symmetry in Hprofile.
    apply orb_false_elim in Hprofile. destruct Hprofile as [Hprofile H3].
    apply orb_false_elim in Hprofile. destruct Hprofile as [H1 H2]. auto.
  - reflexivity.
Qed.

Lemma profile_built_iff_timings_needed_witness :
  exists chosen,
    effectiveOptions sampleContext sampleQuery None = Returned chosen
    /\ recordTimings chosen = false.
Proof.
  destruct (profile_built_iff_timings_needed
              (sampleImports comparisonNode) sampleContext sampleQuery queryType None
              startWorld (mkExecutionResult (VString "rows") None None) eq_refl)
    as [chosen [Hopts [Hnone _]]].
  exists chosen. split; [exact Hopts|].
  destruct (Hnone eq_refl) as [_ [_ H]]. exact H.
Defined.

(** X5. An [executeExt] that rejects makes the request throw the same error,
    unlike an error that the adapter returns in its answer; the context has
    been unregistered by then. *)
Theorem rejected_backend_call_is_thrown :
  forall imports this operationInfo rootType options chosen w tree before extended
         message,
    effectiveOptions this operationInfo options = Returned chosen ->
    executeExt (databaseAdapter this) = Some extended ->
    calls (fst (resolveOperation imports this operationInfo rootType options w))
    = calls w ++ before ++ [CallExecuteExt tree] ->
    extended (mkExecutionArgs tree chosen) = Thrown message ->
    snd (resolveOperation imports this operationInfo rootType options w) = Thrown message
    /\ registeredContext
         (fst (resolveOperation imports this operationInfo rootType options w)) = None.
Proof.
  intros imports this operationInfo rootType options chosen w tree before extended
         message Hopts Hext Hlog Hanswer.
  destruct (resolveOperation_head imports this operationInfo rootType options chosen w
              Hopts)
    as [w0 [watch [topLevelWatch [start [Heq [Hcalls0 _]]]]]].
  rewrite Heq in *. clear Heq.
  destruct (mutationRejected operationInfo chosen).
  { simpl in Hlog. rewrite Hcalls0 in Hlog.
    rewrite <- (app_nil_r (calls w)) in Hlog at 1. apply app_inv_head in Hlog.
    destruct before; discriminate. }
  destruct (prepareQueryTree_log imports this operationInfo rootType chosen watch w0)
    as [added [Hadded [Hnoback _]]].
  destruct (prepareQueryTree imports this operationInfo rootType chosen watch w0)
    as [w1 [[tree' watch']|e]] eqn:Hprep; simpl in Hadded.
  2:{ simpl in Hlog. rewrite Hadded, Hcalls0 in Hlog. apply app_inv_head in Hlog.
      subst added. rewrite existsb_app in Hnoback. simpl in Hnoback.
      rewrite orb_true_r in Hnoback. discriminate. }
  cbn [fst snd] in *.
  destruct (finishOperation_cases imports this operationInfo chosen watch' topLevelWatch
              start tree' (unregisterContext w1)) as [Hcontext [_ Hcases]].
  split; [|rewrite Hcontext; reflexivity].
  change (calls (unregisterContext w1)) with (calls w1) in Hcases.
  rewrite Hext in Hcases.
  destruct (evaluateQueryStatically imports tree') as [[|] value].
  - destruct Hcases as [Hcalls _]. rewrite Hcalls, Hadded, Hcalls0, <- app_assoc in Hlog.
    apply app_inv_head in Hlog. apply app_inj_tail in Hlog.
    destruct Hlog as [_ H]. discriminate H.
  - destruct Hcases as [Hcalls Hres].
    rewrite Hcalls, Hadded, Hcalls0, <- app_assoc in Hlog.
    apply app_inv_head in Hlog.
    change (added ++ [CallEvaluateStatically tree'; CallExecuteExt tree'])
      with (added ++ [CallEvaluateStatically tree'] ++ [CallExecuteExt tree']) in Hlog.
    rewrite app_assoc in Hlog. apply app_inj_tail in Hlog. destruct Hlog as [_ [= ->]].
    rewrite Hanswer in Hres. exact Hres.
Qed.

Lemma rejected_backend_call_is_thrown_witness :
  snd (resolveOperation (sampleImports comparisonNode)
         (mkContext false None (rejectingAdapter "connection lost"))
         sampleQuery queryType None startWorld)
  = Thrown "connection lost"
  /\ registeredContext
       (fst (resolveOperation (sampleImports comparisonNode)
               (mkContext false None (rejectingAdapter "connection lost"))
               sampleQuery queryType None startWorld)) = None.
Proof.
  apply (rejected_backend_call_is_thrown (sampleImports comparisonNode)
           (mkContext false None (rejectingAdapter "connection lost"))
           sampleQuery queryType None noOptions startWorld comparisonNode
           [CallDistillOperation; CallBuildQueryTree; CallTokenizeExpressions [];
            CallApplyAuthorization comparisonNode; CallEvaluateStatically comparisonNode]
           (fun _ => Thrown "connection lost") "connection lost"); reflexivity.
Defined.

(** X6. When the tokenization call of the adapter fails, the request throws
    its error; nothing is called after it (no authorization, no static
    evaluation, no backend) and the context is unregistered. *)
Theorem failed_tokenization_fails_the_request :
  forall imports this operationInfo rootType options chosen w selection built k1 message,
    effectiveOptions this operationInfo options = Returned chosen ->
    mutationRejected operationInfo chosen = false ->
    distillOperation imports operationInfo = Returned selection ->
    buildConditionalObjectQueryNode imports EMPTY rootType selection
      (mkFieldContext [] (flexSearchMaxFilterableAndSortableAmount chosen)
                      (flexSearchRecursionDepth chosen)) (nextRef w)
    = Returned (built, k1) ->
    tokenizeExpressions (databaseAdapter this) (collectTokenizations built)
    = Thrown message ->
    snd (resolveOperation imports this operationInfo rootType options w) = Thrown message
    /\ calls (fst (resolveOperation imports this operationInfo rootType options w))
       = calls w ++ [CallDistillOperation; CallBuildQueryTree;
                     CallTokenizeExpressions (collectTokenizations built)]
    /\ registeredContext
         (fst (resolveOperation imports this operationInfo rootType options w)) = None.
Proof.
  intros imports this operationInfo rootType options chosen w selection built k1 message
         Hopts Hguard Hdistill Hbuild Htok.
  destruct (resolveOperation_head imports this operationInfo rootType options chosen w
              Hopts)
    as [w0 [watch [topLevelWatch [start [Heq [Hcalls0 [Hnext0 _]]]]]]].
  rewrite Heq, Hguard. clear Heq.
  unfold prepareQueryTree, queryFlexSearchTokens, stopIf, stop, now, record,
    liftOutcome, getNextRef, setNextRef, ret, bind.
  rewrite Hdistill.
  destruct watch as [running|]; cbn [nextRef registeredContext clockReadings calls];
    rewrite Hnext0, Hbuild; cbn [fst snd nextRef registeredContext clockReadings calls];
    rewrite Htok; cbn [fst snd calls registeredContext unregisterContext];
    rewrite Hcalls0, <- !app_assoc; repeat split; reflexivity.
Qed.

Lemma failed_tokenization_fails_the_request_witness :
  resolveOperation (sampleImports comparisonNode)
    (mkContext false None (untokenizingAdapter "analyzer missing"))
    sampleQuery queryType None startWorld
  = (mkWorld None 4 0 [CallDistillOperation; CallBuildQueryTree;
                       CallTokenizeExpressions []],
     Thrown "analyzer missing")
  /\ snd (resolveOperation (sampleImports comparisonNode)
            (mkContext false None (untokenizingAdapter "analyzer missing"))
            sampleQuery queryType None startWorld)
     = Thrown "analyzer missing".
Proof.
  split; [reflexivity|].
  apply (failed_tokenization_fails_the_request (sampleImports comparisonNode)
           (mkContext false None (untokenizingAdapter "analyzer missing"))
           sampleQuery queryType None noOptions startWorld (VObject []) comparisonNode 4
           "analyzer missing"); reflexivity.
Defined.

(** *** The registered context *)

(** X7. After [resolveOperation] the context is still registered exactly when
    the request threw before the [try] block: when the options callback
    threw, or when the mutation guard rejected the request.  On every other
    path, returning or throwing, it is unregistered. *)
Theorem context_stays_registered_iff_thrown_before_try :
  forall imports this operationInfo rootType options w,
    registeredContext
      (fst (resolveOperation imports this operationInfo rootType options w))
    = match effectiveOptions this operationInfo options with
      | Returned chosen =>
          if mutationRejected operationInfo chosen then Some this else None
      | Thrown _ => Some this
      end.
Proof.
  intros imports this operationInfo rootType options w.
  destruct (effectiveOptions this operationInfo options) as [chosen|e] eqn:Hopts.
  - destruct (mutationRejected operationInfo chosen) eqn:Hguard.
    + unfold resolveOperation, bind, registerContext, liftOutcome.
      rewrite Hopts.
      unfold newWatchIf, newWatch, now, tryFinally, throw, bind, ret.
      destruct (needsTimings this chosen);
        cbn [registeredContext nextRef clockReadings calls fst snd];
        rewrite Hguard; reflexivity.
    + exact (context_unregistered_past_guard imports this operationInfo rootType
               options chosen w Hopts Hguard).
  - rewrite (throwing_options_callback_leaves_context_registered
               imports this operationInfo rootType options e w Hopts).
    reflexivity.
Qed.

(** *** The samples of the profile *)

(** The watch of the phases is not stopped for the database phase while the
    query tree is prepared. *)
Lemma prepareQueryTree_no_database_sample imports this info rootType opts running w tree
      watch' :
  snd (prepareQueryTree imports this info rootType opts (Some running) w)
  = Returned (tree, watch') ->
  readTiming "database" running = None ->
  exists stopped, watch' = Some stopped /\ readTiming "database" stopped = None.
Proof.
  unfold prepareQueryTree, queryFlexSearchTokens, expandQueryTree, bind, record,
    liftOutcome, getNextRef, setNextRef, stopIf, stop, now, ret, bind. simpl.
  repeat (step; simpl); try discriminate.
  all: intros [= <- <-] Hnone.
  all: eexists; (split; [reflexivity|]).
  all: unfold readTiming in *; cbn [watchTimings]; rewrite !getKey_setKey; simpl;
    exact Hnone.
Qed.

(** The profile the statements after the [try] block build when the adapter
    reports no timings. *)
Lemma finishOperation_profile imports this info opts running topLevelWatch start tree w
      result :
  (forall extended args res,
      executeExt (databaseAdapter this) = Some extended ->
      extended args = Returned res -> resTimings res = None) ->
  readTiming "database" running = None ->
  snd (finishOperation imports this info opts (Some running) topLevelWatch start tree w)
  = Returned result ->
  forall p,
    profile result = Some p ->
    database (timings p) = [("total", None)]
    /\ dbConnection (timings p) = [("total", Some 0%Z)].
Proof.
  intros Hsilent Hnone.
  assert (Hstopped : forall t,
             readTiming "database"
               (mkWatch t (setKey "staticEvaluation" (Some (t - lastTime running)%Z)
                                  (watchTimings running))) = None).
  { intros t. unfold readTiming in *. cbn [watchTimings]. rewrite getKey_setKey.
    simpl. exact Hnone. }
  run_finish.
  destruct (evaluateQueryStatically imports tree) as [[|] value];
    destruct topLevelWatch as [top|], start as [began|]; simpl.
  all: try (intros [= <-] p Hp; simpl in Hp; try discriminate Hp;
            injection Hp as <-; simpl; rewrite ?Hstopped; split; reflexivity).
  all: destruct (executeExt (databaseAdapter this)) as [extended|] eqn:Hext; simpl.
  all: try (destruct (extended (mkExecutionArgs tree opts)) as [res|e] eqn:Hres;
            simpl; [pose proof (Hsilent _ _ _ eq_refl Hres) as Htimings|]).
  all: try (destruct (execute (databaseAdapter this) tree) as [value'|e]; simpl).
  all: try discriminate.
  all: intros [= <-] p Hp; simpl in Hp; try discriminate Hp; injection Hp as <-; simpl.
  all: try rewrite Htimings; simpl; rewrite ?Hstopped; split; reflexivity.
Qed.

(** X8. When the adapter reports no timings, the [database] entry of the
    profile is [{ total: undefined }]: it is read from the watch of the
    preparation phases, which is never stopped for the database phase (the
    top-level watch is), and [dbConnection] is [{ total: 0 }]. *)
Theorem profile_has_no_database_sample_of_its_own :
  forall imports this operationInfo rootType options w result p,
    (forall extended args res,
        executeExt (databaseAdapter this) = Some extended ->
        extended args = Returned res -> resTimings res = None) ->
    snd (resolveOperation imports this operationInfo rootType options w)
    = Returned result ->
    profile result = Some p ->
    database (timings p) = [("total", None)]
    /\ dbConnection (timings p) = [("total", Some 0%Z)].
Proof.
  intros imports this operationInfo rootType options w result p Hsilent Hrun Hp.
  destruct (effectiveOptions this operationInfo options) as [chosen|e] eqn:Hopts.
  2:{ rewrite (throwing_options_callback_leaves_context_registered
                 imports this operationInfo rootType options e w Hopts) in Hrun.
      discriminate Hrun. }
  destruct (resolveOperation_head imports this operationInfo rootType options chosen w
              Hopts)
    as [w0 [watch [topLevelWatch [start [Heq [_ [_ [_ [_ [_ Hfresh]]]]]]]]]].
  rewrite Heq in Hrun. clear Heq.
  destruct (mutationRejected operationInfo chosen); [discriminate Hrun|].
  destruct (prepareQueryTree imports this operationInfo rootType chosen watch w0)
    as [w1 [[authorized watch']|e]] eqn:Hprep; [|discriminate Hrun].
  cbn [fst snd] in Hrun.
  destruct watch as [running|].
  - assert (Hnone : readTiming "database" running = None).
    { unfold readTiming. rewrite (Hfresh running eq_refl). reflexivity. }
    destruct (prepareQueryTree_no_database_sample imports this operationInfo rootType
                chosen running w0 authorized watch')
      as [stopped [-> Hstopped]]; [rewrite Hprep; reflexivity|exact Hnone|].
    exact (finishOperation_profile imports this operationInfo chosen stopped
             topLevelWatch start authorized (unregisterContext w1) result Hsilent
             Hstopped Hrun p Hp).
  - assert (Hwatch' : watch' = None).
    { pose proof (prepareQueryTree_watch imports this operationInfo rootType chosen
                    None w0 authorized watch') as H.
      rewrite Hprep in H. exact (H eq_refl). }
    subst watch'.
    destruct (finishOperation_cases imports this operationInfo chosen None
                topLevelWatch start authorized (unregisterContext w1))
      as [_ [Hprofile _]].
    specialize (Hprofile result Hrun). rewrite Hp in Hprofile. discriminate Hprofile.
Qed.

Lemma profile_has_no_database_sample_of_its_own_witness :
  snd profiledRun
  = Returned (mkExecutionResult (VString "rows") None (Some sampleProfile))
  /\ database (timings sampleProfile) = [("total", None)]
  /\ dbConnection (timings sampleProfile) = [("total", Some 0%Z)].
Proof.
  split; [vm_compute; reflexivity|].
  apply (profile_has_no_database_sample_of_its_own
           (sampleImports comparisonNode) (profiledContext rowsResult) sampleQuery
           queryType None startWorld
           (mkExecutionResult (VString "rows") None (Some sampleProfile))).
  - intros extended args res [= <-] [= <-]. reflexivity.
  - vm_compute. reflexivity.
  - reflexivity.
Defined.

(** ** Expansion and collection *)

Lemma flat_map_nil {A B} (f : A -> list B) (l : list A) :
  flat_map f l = [] -> Forall (fun a => f a = []) l.
Proof.
  induction l as [|a l IH]; simpl; intros H; constructor.
  - apply app_eq_nil in H. apply H.
  - apply IH. apply app_eq_nil in H. apply H.
Qed.

Lemma expandQueryNode_fields imports r className fields toks next :
  expandQueryNode imports (OtherQueryNode r className fields) toks next
  = let (visited, next') := forEach (visitField imports toks) fields next in
    if existsb snd visited
    then (OtherQueryNode next' className (map fst visited), S next')
    else (OtherQueryNode r className fields, next').
Proof. reflexivity. Qed.

Lemma expandQueryNode_properties imports r properties toks next :
  expandQueryNode imports (ObjectQueryNode r properties) toks next
  = let (specs, next') := forEach (visitProperty imports toks) properties next in
    (ObjectQueryNode next' specs, S next').
Proof. reflexivity. Qed.

Section ExpansionWithoutOperators.
Variable imports : Imports.
Variable toks : list FlexSearchTokenization.

Lemma expanded_properties_same_shape properties :
  Forall (fun p => forall next,
              collectTokenizations (valueNode p) = [] ->
              withoutRefs (fst (expandQueryNode imports (valueNode p) toks next))
              = withoutRefs (valueNode p)) properties ->
  Forall (fun p => collectTokenizations (valueNode p) = []) properties ->
  forall next,
    map (fun p => mkPropertySpecification 0 (propertyName p) (withoutRefs (valueNode p)))
        (fst (forEach (visitProperty imports toks) properties next))
    = map (fun p => mkPropertySpecification 0 (propertyName p)
                                            (withoutRefs (valueNode p))) properties.
Proof.
  induction 1 as [|p properties Hp _ IH]; intros Hnone next; [reflexivity|].
  inversion Hnone as [|? ? Hhere Hrest]; subst.
  cbn [forEach]. unfold visitProperty at 1. specialize (Hp next Hhere).
  destruct (expandQueryNode imports (valueNode p) toks next) as [v n1].
  specialize (IH Hrest (S n1)).
  destruct (forEach (visitProperty imports toks) properties (S n1)) as [rest n2].
  cbn [fst snd map propertyName valueNode] in *.
  rewrite Hp, IH. reflexivity.
Qed.

Lemma expanded_fields_same_shape fields :
  Forall (fun f => onHeldNodes
                     (fun c => forall next,
                          collectTokenizations c = [] ->
                          withoutRefs (fst (expandQueryNode imports c toks next))
                          = withoutRefs c) (snd f)) fields ->
  Forall (fun f : string * FieldValue QueryNode =>
            match snd f with
            | NodeValue c => collectTokenizations c
            | _ => []
            end = []) fields ->
  forall next,
    map fieldWithoutRefs (map fst (fst (forEach (visitField imports toks) fields next)))
    = map fieldWithoutRefs fields.
Proof.
  induction 1 as [|[fieldName fv] fields Hf _ IH]; intros Hnone next; [reflexivity|].
  inversion Hnone as [|? ? Hhere Hrest]; subst.
  cbn [forEach]. unfold visitField at 1. cbn [snd fst].
  destruct fv as [old|cs|v]; simpl in Hf, Hhere.
  - specialize (Hf next Hhere).
    destruct (expandQueryNode imports old toks next) as [new n1].
    specialize (IH Hrest n1).
    destruct (Nat.eqb (nodeRef new) (nodeRef old));
      destruct (forEach (visitField imports toks) fields n1) as [rest n2];
      cbn [fst snd map] in *.
    + rewrite IH. reflexivity.
    + rewrite IH. unfold fieldWithoutRefs at 1 3. cbn [fst snd]. rewrite Hf.
      reflexivity.
  - specialize (IH Hrest next).
    destruct (forEach (visitField imports toks) fields next) as [rest n2].
    cbn [fst snd map] in *. rewrite IH. reflexivity.
  - specialize (IH Hrest next).
    destruct (forEach (visitField imports toks) fields next) as [rest n2].
    cbn [fst snd map] in *. rewrite IH. reflexivity.
Qed.

(** X9. If [collectTokenizations] gathers nothing from a tree, expanding it
    gives a tree that differs from it in the identity of nodes at most:
    classes, keys, property names, plain values and arrays are as before. *)
Theorem expansion_without_operators_keeps_the_tree :
  forall n next,
    collectTokenizations n = [] ->
    withoutRefs (fst (expandQueryNode imports n toks next)) = withoutRefs n.
Proof.
  induction n as [r e l fields H|r properties H|r className fields H]
    using QueryNode_induction; intros next Hnone.
  - discriminate Hnone.
  - simpl in Hnone. apply flat_map_nil in Hnone.
    pose proof (expanded_properties_same_shape properties H Hnone next) as Hshape.
    rewrite expandQueryNode_properties.
    destruct (forEach (visitProperty imports toks) properties next) as [specs next'].
    cbn [fst withoutRefs] in *. rewrite Hshape. reflexivity.
  - simpl in Hnone. apply flat_map_nil in Hnone.
    pose proof (expanded_fields_same_shape fields H Hnone next) as Hshape.
    rewrite expandQueryNode_fields.
    destruct (forEach (visitField imports toks) fields next) as [visited next'].
    cbn [fst] in Hshape.
    destruct (existsb snd visited); cbn [fst withoutRefs]; [|reflexivity].
    f_equal. exact Hshape.
Qed.

End ExpansionWithoutOperators.

Lemma expansion_without_operators_keeps_the_tree_witness :
  collectTokenizations objectWithComparison = []
  /\ withoutRefs (fst (expandQueryNode (sampleImports objectWithComparison)
                         objectWithComparison [] 6))
     = withoutRefs objectWithComparison.
Proof.
  split; [reflexivity|].
  apply (expansion_without_operators_keeps_the_tree (sampleImports objectWithComparison) []).
  reflexivity.
Defined.

(** *** What expansion leaves to collect *)

Section ExpansionLeavesNothingToCollect.
Variable imports : Imports.
Variable toks : list FlexSearchTokenization.
Hypothesis expand_collects_nothing :
  forall node k, collectTokenizations (fst (expand imports node toks k)) = [].
Hypothesis expand_allocates :
  forall node k,
    k <= nodeRef (fst (expand imports node toks k))
    /\ k <= snd (expand imports node toks k).

Lemma expanded_properties_collect_nothing properties :
  Forall (fun p => leavesNothingToCollect imports toks (valueNode p)) properties ->
  forall next,
    Forall (fun p => maxVisitedRef (valueNode p) < next) properties ->
    next <= snd (forEach (visitProperty imports toks) properties next)
    /\ flat_map (fun p => collectTokenizations (valueNode p))
         (fst (forEach (visitProperty imports toks) properties next)) = [].
Proof.
  induction 1 as [|p properties Hp _ IH]; intros next Hrefs.
  - simpl. split; [lia|reflexivity].
  - inversion Hrefs as [|? ? Hpref Hrest]; subst.
    cbn [forEach]. unfold visitProperty at 1 3.
    destruct (Hp next Hpref) as [Hmono [_ Hclean]].
    destruct (expandQueryNode imports (valueNode p) toks next) as [v n1].
    cbn [fst snd] in Hmono, Hclean.
    assert (Hrest' : Forall (fun p => maxVisitedRef (valueNode p) < S n1) properties).
    { eapply Forall_impl; [|exact Hrest]. simpl. intros; lia. }
    destruct (IH (S n1) Hrest') as [Hmono' Hclean'].
    destruct (forEach (visitProperty imports toks) properties (S n1)) as [rest n2].
    cbn [fst snd flat_map valueNode] in *. split; [lia|].
    rewrite Hclean, Hclean'. reflexivity.
Qed.

Lemma expanded_fields_collect_nothing fields :
  Forall (fun f => onHeldNodes (leavesNothingToCollect imports toks) (snd f)) fields ->
  forall next,
    Forall (fun f => match snd f with NodeValue c => maxVisitedRef c | _ => 0 end < next)
           fields ->
    next <= snd (forEach (visitField imports toks) fields next)
    /\ flat_map (fun f : string * FieldValue QueryNode =>
                   match snd f with
                   | NodeValue c => collectTokenizations c
                   | _ => []
                   end)
         (map fst (fst (forEach (visitField imports toks) fields next))) = []
    /\ (existsb snd (fst (forEach (visitField imports toks) fields next)) = false ->
        map fst (fst (forEach (visitField imports toks) fields next)) = fields).
Proof.
  induction 1 as [|[fieldName fv] fields Hf _ IH]; intros next Hrefs.
  - simpl. split; [lia|]. split; reflexivity.
  - inversion Hrefs as [|? ? Href Hrest]; subst.
    cbn [forEach]. unfold visitField at 1 3 5 7. cbn [snd fst].
    destruct fv as [old|cs|v]; simpl in Hf, Href.
    + destruct (Hf next Href) as [Hmono [Hfresh Hclean]].
      destruct (expandQueryNode imports old toks next) as [new n1].
      cbn [fst snd] in Hmono, Hfresh, Hclean.
      assert (Hrest' : Forall (fun f => match snd f with
                                        | NodeValue c => maxVisitedRef c
                                        | _ => 0
                                        end < n1) fields).
      { eapply Forall_impl; [|exact Hrest]. simpl. intros; lia. }
      destruct (IH n1 Hrest') as [Hmono' [Hclean' Hsame]].
      assert (Hold : nodeRef old < next).
      { destruct old; simpl in Href |- *; lia. }
      destruct (Nat.eqb_spec (nodeRef new) (nodeRef old)) as [Heq|Hne].
      * destruct Hfresh as [->|Hfresh]; [|lia].
        destruct (forEach (visitField imports toks) fields n1) as [rest n2].
        cbn [fst snd map flat_map existsb orb] in *.
        split; [lia|]. split.
        -- rewrite Hclean. exact Hclean'.
        -- intros Hflags. rewrite (Hsame Hflags). reflexivity.
      * destruct (forEach (visitField imports toks) fields n1) as [rest n2].
        cbn [fst snd map flat_map existsb orb] in *.
        split; [lia|]. split.
        -- rewrite Hclean. exact Hclean'.
        -- discriminate.
    + destruct (IH next Hrest) as [Hmono' [Hclean' Hsame]].
      destruct (forEach (visitField imports toks) fields next) as [rest n2].
      cbn [fst snd map flat_map existsb orb] in *.
      split; [lia|]. split; [exact Hclean'|].
      intros Hflags. rewrite (Hsame Hflags). reflexivity.
    + destruct (IH next Hrest) as [Hmono' [Hclean' Hsame]].
      destruct (forEach (visitField imports toks) fields next) as [rest n2].
      cbn [fst snd map flat_map existsb orb] in *.
      split; [lia|]. split; [exact Hclean'|].
      intros Hflags. rewrite (Hsame Hflags). reflexivity.
Qed.

Lemma expansion_leaves_nothing_to_collect :
  forall n, leavesNothingToCollect imports toks n.
Proof.
  induction n as [r e l fields H|r properties H|r className fields H]
    using QueryNode_induction; intros next Hrefs.
  - simpl. destruct (expand_allocates
                       (FlexSearchComplexOperatorQueryNode r e l fields) next)
      as [Hfresh Hmono].
    split; [exact Hmono|]. split; [right; exact Hfresh|apply expand_collects_nothing].
  - simpl in Hrefs.
    assert (Hprops : Forall (fun p => maxVisitedRef (valueNode p) < next) properties).
    { apply (list_max_bound (fun p : PropertySpecification QueryNode =>
                               maxVisitedRef (valueNode p))).
      eapply Nat.le_lt_trans; [apply Nat.le_max_r|exact Hrefs]. }
    destruct (expanded_properties_collect_nothing properties H next Hprops)
      as [Hmono Hclean].
    rewrite expandQueryNode_properties.
    destruct (forEach (visitProperty imports toks) properties next) as [specs next'].
    cbn [fst snd nodeRef] in *.
    split; [lia|]. split; [right; exact Hmono|exact Hclean].
  - simpl in Hrefs.
    assert (Hfields : Forall (fun f => match snd f with
                                       | NodeValue c => maxVisitedRef c
                                       | _ => 0
                                       end < next) fields).
    { apply (list_max_bound (fun f : string * FieldValue QueryNode =>
                               match snd f with
                               | NodeValue c => maxVisitedRef c
                               | _ => 0
                               end)).
      eapply Nat.le_lt_trans; [apply Nat.le_max_r|exact Hrefs]. }
    destruct (expanded_fields_collect_nothing fields H next Hfields)
      as [Hmono [Hclean Hsame]].
    rewrite expandQueryNode_fields.
    destruct (forEach (visitField imports toks) fields next) as [visited next'].
    cbn [fst snd] in *.
    destruct (existsb snd visited).
    + cbn [fst snd nodeRef]. split; [lia|]. split; [right; exact Hmono|exact Hclean].
    + cbn [fst snd]. split; [exact Hmono|]. split; [left; reflexivity|].
      rewrite <- (Hsame eq_refl). exact Hclean.
Qed.

End ExpansionLeavesNothingToCollect.

(** X10. Expansion and collection walk the same nodes: from an expanded tree
    [collectTokenizations] gathers nothing, given that the [expand] of an
    operator answers a newly allocated node from which nothing is gathered,
    and that the references of the visited nodes are in use. *)
Theorem expanded_tree_has_nothing_to_collect :
  forall imports toks,
    (forall node k, collectTokenizations (fst (expand imports node toks k)) = []) ->
    (forall node k,
        k <= nodeRef (fst (expand imports node toks k))
        /\ k <= snd (expand imports node toks k)) ->
    forall n next,
      maxVisitedRef n < next ->
      collectTokenizations (fst (expandQueryNode imports n toks next)) = [].
Proof.
  intros imports toks Hnothing Hallocates n next Hrefs.
  apply (expansion_leaves_nothing_to_collect imports toks Hnothing Hallocates n next
           Hrefs).
Qed.

Lemma expanded_tree_has_nothing_to_collect_witness :
  collectTokenizations objectWithOperator = [mkTokenizable "quick fox" "en"]
  /\ collectTokenizations
       (fst (expandQueryNode (sampleImports objectWithOperator) objectWithOperator
               [] 4)) = [].
Proof.
  split; [reflexivity|].
  apply (expanded_tree_has_nothing_to_collect (sampleImports objectWithOperator) []).
  - intros node k. reflexivity.
  - intros node k. simpl. lia.
  - simpl. lia.
Defined.

(** *** What expansion keeps of a node *)

Lemma visited_fields_keep_slots imports toks fields :
  forall next,
    Forall2 keepsSlot fields
            (map fst (fst (forEach (visitField imports toks) fields next))).
Proof.
  induction fields as [|[fieldName fv] fields IH]; intros next; [constructor|].
  cbn [forEach]. unfold visitField at 1. cbn [snd fst].
  destruct fv as [old|cs|v].
  - destruct (expandQueryNode imports old toks next) as [new n1].
    specialize (IH n1).
    destruct (Nat.eqb (nodeRef new) (nodeRef old));
      destruct (forEach (visitField imports toks) fields n1) as [rest n2];
      cbn [fst snd map] in *;
      (constructor; [split; [reflexivity|eexists; reflexivity]|exact IH]).
  - specialize (IH next).
    destruct (forEach (visitField imports toks) fields next) as [rest n2].
    cbn [fst snd map] in *. constructor; [split; reflexivity|exact IH].
  - specialize (IH next).
    destruct (forEach (visitField imports toks) fields next) as [rest n2].
    cbn [fst snd map] in *. constructor; [split; reflexivity|exact IH].
Qed.

Lemma keepsSlot_same fields : Forall2 keepsSlot fields fields.
Proof.
  induction fields as [|[fieldName fv] fields IH]; constructor; [|exact IH].
  split; [reflexivity|]. destruct fv; simpl; eauto.
Qed.

(** X11. Expansion keeps what a node is: an operator is handed to its own
    [expand]; an object node gives an object node with the same property
    names in the same order; any other node gives a node of the same class
    with the same keys in the same order, in which plain values and arrays
    are as they were and a node-valued field holds a node. *)
Theorem expansion_keeps_class_and_keys :
  forall imports toks n next,
    match n with
    | FlexSearchComplexOperatorQueryNode _ _ _ _ =>
        expandQueryNode imports n toks next = expand imports n toks next
    | ObjectQueryNode _ properties =>
        exists ref specs,
          fst (expandQueryNode imports n toks next) = ObjectQueryNode ref specs
          /\ map propertyName specs = map propertyName properties
    | OtherQueryNode _ className fields =>
        exists ref fields',
          fst (expandQueryNode imports n toks next) = OtherQueryNode ref className fields'
          /\ Forall2 keepsSlot fields fields'
    end.
Proof.
  intros imports toks [r e l fields|r properties|r className fields] next.
  - reflexivity.
  - destruct (object_node_always_rebuilt imports r properties toks next)
      as [specs [ref [Hrun Hnames]]].
    exists ref, specs. rewrite Hrun. split; [reflexivity|exact Hnames].
  - rewrite expandQueryNode_fields.
    pose proof (visited_fields_keep_slots imports toks fields next) as Hslots.
    destruct (forEach (visitField imports toks) fields next) as [visited next'].
    cbn [fst] in Hslots.
    destruct (existsb snd visited); cbn [fst].
    + exists next', (map fst visited). split; [reflexivity|exact Hslots].
    + exists r, fields. split; [reflexivity|apply keepsSlot_same].
Qed.

(** ** Create input types: affected fields *)

Lemma add_keeps_distinct f fields :
  NoDup (map fieldRef fields) -> NoDup (map fieldRef (add f fields)).
Proof.
  unfold add. intros Hdistinct.
  destruct (existsb (sameField f) fields) eqn:Hthere; [exact Hdistinct|].
  rewrite map_app. simpl.
  apply NoDup_app; [exact Hdistinct|repeat constructor; intros []|].
  intros r Hin [Heq|[]]. subst r.
  apply in_map_iff in Hin. destruct Hin as [g [Href Hg]].
  assert (Htrue : existsb (sameField f) fields = true).
  { apply existsb_exists. exists g. split; [exact Hg|].
    unfold sameField. rewrite Href. apply Nat.eqb_refl. }
  rewrite Htrue in Hthere. discriminate.
Qed.

Lemma add_keeps_members F f fields :
  existsb (sameField F) fields = true -> existsb (sameField F) (add f fields) = true.
Proof.
  unfold add. intros H. destruct (existsb (sameField f) fields); [exact H|].
  rewrite existsb_app, H. reflexivity.
Qed.

Lemma add_has_member f fields : existsb (sameField f) (add f fields) = true.
Proof.
  unfold add. destruct (existsb (sameField f) fields) eqn:H; [exact H|].
  rewrite existsb_app. simpl. unfold sameField at 2. rewrite Nat.eqb_refl.
  apply orb_true_r.
Qed.

(** A property of the set that every step of a loop keeps is kept by the loop. *)
Lemma forEachField_keeps {A} (body : A -> FieldSet -> outcome FieldSet)
    (Kept : FieldSet -> Prop) (items : list A) :
  Forall (fun a => forall acc out, body a acc = Returned out -> Kept acc -> Kept out)
         items ->
  forall acc out, forEachField body items acc = Returned out -> Kept acc -> Kept out.
Proof.
  induction 1 as [|a items Ha _ IH]; intros acc out; simpl.
  - intros [= <-] H. exact H.
  - destruct (body a acc) as [acc'|e] eqn:Hbody; [|discriminate].
    intros Hrest Hacc. exact (IH _ _ Hrest (Ha _ _ Hbody Hacc)).
Qed.

Lemma collectBasic_keeps (Kept : FieldSet -> Prop) :
  (forall f fields, Kept fields -> Kept (add f fields)) ->
  forall field value fields, Kept fields -> Kept (collectBasic field value fields).
Proof.
  intros Hadd field value fields H. unfold collectBasic.
  destruct (isUndefined value); [exact H|apply Hadd; exact H].
Qed.

(** Whatever adding a field keeps, collecting the affected fields keeps. *)
Lemma collectAffectedFields_keeps (Kept : FieldSet -> Prop) :
  (forall f fields, Kept fields -> Kept (add f fields)) ->
  forall t value acc out,
    collectAffectedFields t value acc = Returned out -> Kept acc -> Kept out.
Proof.
  intros Hadd t.
  induction t using inputType_induction
    with (OnField := fun f =>
            forall value acc out,
              collectAffectedFieldsOf f value acc = Returned out ->
              Kept acc -> Kept out).
  - rename H into IHfields. intros value acc out Hrun. simpl in Hrun.
    eapply forEachField_keeps; [|exact Hrun].
    eapply Forall_impl; [|exact IHfields].
    intros f IHf acc0 out0. destruct (isApplicable value f).
    + apply IHf.
    + intros [= <-] H. exact H.
  - intros value acc out [= <-]. apply collectBasic_keeps. exact Hadd.
  - intros value acc out [= <-]. apply collectBasic_keeps. exact Hadd.
  - intros value acc out Hrun Hacc. simpl in Hrun.
    pose proof (collectBasic_keeps Kept Hadd field value acc Hacc) as Hbasic.
    destruct (isNullish value); [injection Hrun as <-; exact Hbasic|].
    destruct value; try discriminate. exact (IHt _ _ _ Hrun Hbasic).
  - intros value acc out Hrun Hacc. simpl in Hrun.
    pose proof (collectBasic_keeps Kept Hadd field value acc Hacc) as Hbasic.
    destruct (isNullish value); [injection Hrun as <-; exact Hbasic|].
    destruct value; try discriminate.
    eapply forEachField_keeps; [|exact Hrun|exact Hbasic].
    apply Forall_forall. intros item _ acc0 out0 Hcall.
    destruct item; try discriminate. exact (IHt _ _ _ Hcall).
Qed.

(** X12. [getAffectedFields] lists no field twice, however often the input
    touches it (say in the items of a list of nested objects). *)
Theorem affected_fields_reported_once :
  forall t value affected,
    getAffectedFields t value = Returned affected ->
    NoDup (map fieldRef affected).
Proof.
  intros t value affected Hrun.
  apply (collectAffectedFields_keeps (fun fields => NoDup (map fieldRef fields))
           (fun f fields => add_keeps_distinct f fields) t value [] affected Hrun).
  constructor.
Qed.

Lemma affected_fields_reported_once_witness :
  getAffectedFields routeInput twoStops = Returned [titleField; stopsField; streetField]
  /\ NoDup (map fieldRef [titleField; stopsField; streetField]).
Proof.
  split; [reflexivity|].
  apply (affected_fields_reported_once routeInput twoStops). reflexivity.
Defined.

Lemma collectAffectedFieldsOf_keeps (Kept : FieldSet -> Prop) :
  (forall f fields, Kept fields -> Kept (add f fields)) ->
  forall f value acc out,
    collectAffectedFieldsOf f value acc = Returned out -> Kept acc -> Kept out.
Proof.
  intros Hadd f value acc out Hrun Hacc.
  pose proof (collectBasic_keeps Kept Hadd (fieldOf f) value acc Hacc) as Hbasic.
  destruct f as [field|field|field t|field t]; simpl in Hrun, Hbasic.
  - injection Hrun as <-. exact Hbasic.
  - injection Hrun as <-. exact Hbasic.
  - destruct (isNullish value); [injection Hrun as <-; exact Hbasic|].
    destruct value; try discriminate.
    exact (collectAffectedFields_keeps Kept Hadd _ _ _ _ Hrun Hbasic).
  - destruct (isNullish value); [injection Hrun as <-; exact Hbasic|].
    destruct value; try discriminate.
    eapply forEachField_keeps; [|exact Hrun|exact Hbasic].
    apply Forall_forall. intros item _ acc0 out0 Hitem.
    destruct item; try discriminate.
    exact (collectAffectedFields_keeps Kept Hadd _ _ _ _ Hitem).
Qed.

(** A field that is given puts itself into the set. *)
Lemma collectAffectedFieldsOf_adds_own f value acc out :
  isUndefined value = false ->
  collectAffectedFieldsOf f value acc = Returned out ->
  existsb (sameField (fieldOf f)) out = true.
Proof.
  intros Hgiven Hrun.
  assert (Hbasic : existsb (sameField (fieldOf f)) (collectBasic (fieldOf f) value acc)
                   = true).
  { unfold collectBasic. rewrite Hgiven. apply add_has_member. }
  pose (Kept := fun fields : FieldSet => existsb (sameField (fieldOf f)) fields = true).
  assert (Hadd : forall g fields, Kept fields -> Kept (add g fields)).
  { intros g fields. apply add_keeps_members. }
  destruct f as [field|field|field t|field t]; simpl in Hrun, Hbasic, Kept.
  - injection Hrun as <-. exact Hbasic.
  - injection Hrun as <-. exact Hbasic.
  - destruct (isNullish value); [injection Hrun as <-; exact Hbasic|].
    destruct value; try discriminate.
    exact (collectAffectedFields_keeps Kept Hadd _ _ _ _ Hrun Hbasic).
  - destruct (isNullish value); [injection Hrun as <-; exact Hbasic|].
    destruct value; try discriminate.
    eapply (forEachField_keeps _ Kept); [|exact Hrun|exact Hbasic].
    apply Forall_forall. intros item _ acc0 out0 Hitem.
    destruct item; try discriminate.
    exact (collectAffectedFields_keeps Kept Hadd _ _ _ _ Hitem).
Qed.

(** X13. A declared input field for which the input holds a value, [null]
    included, is among the affected fields whenever [getAffectedFields]
    returns. *)
Theorem given_field_is_affected :
  forall t value affected f,
    getAffectedFields t value = Returned affected ->
    In f (fieldsOf t) ->
    isUndefined (getProp (inputFieldName f) value) = false ->
    existsb (sameField (fieldOf f)) affected = true.
Proof.
  intros [class typeName fields] value affected f Hrun Hf Hgiven.
  unfold getAffectedFields in Hrun. simpl in Hrun, Hf.
  assert (Happ : isApplicable value f = true).
  { unfold isApplicable. rewrite (getProp_given_hasProperty _ _ Hgiven).
    reflexivity. }
  pose (Kept := fun collected : FieldSet =>
                  existsb (sameField (fieldOf f)) collected = true).
  assert (Hadd : forall g collected, Kept collected -> Kept (add g collected)).
  { intros g collected. apply add_keeps_members. }
  revert Hrun. generalize (@nil Field).
  induction fields as [|g fields IH]; [destruct Hf|].
  intros acc Hrun. simpl in Hrun.
  destruct Hf as [->|Hf].
  - rewrite Happ in Hrun.
    destruct (collectAffectedFieldsOf f (getProp (inputFieldName f) value) acc)
      as [acc'|e] eqn:Hcall; [|discriminate].
    eapply (forEachField_keeps _ Kept);
      [|exact Hrun|exact (collectAffectedFieldsOf_adds_own _ _ _ _ Hgiven Hcall)].
    apply Forall_forall. intros h _ acc0 out0.
    destruct (isApplicable value h).
    + apply (collectAffectedFieldsOf_keeps Kept Hadd).
    + intros Hskip H. injection Hskip as <-. exact H.
  - revert Hrun.
    destruct (isApplicable value g);
      [destruct (collectAffectedFieldsOf g (getProp (inputFieldName g) value) acc)
         as [acc'|e]|];
      intros Hrun; try discriminate Hrun; exact (IH Hf _ Hrun).
Qed.

Lemma given_field_is_affected_witness :
  isUndefined (getProp "title" twoStops) = false
  /\ existsb (sameField titleField) [titleField; stopsField; streetField] = true.
Proof.
  split; [reflexivity|].
  apply (given_field_is_affected routeInput twoStops [titleField; stopsField; streetField]
           (BasicCreateInputField titleField)).
  - reflexivity.
  - simpl. auto.
  - reflexivity.
Defined.

(** ** Create input types: prepared values *)

(** The parts of a run of [prepareValue] that returns. *)
Lemma prepareValue_returned runtime class typeName fields value d prepared d' :
  prepareValue runtime (mkCreateObjectInputType class typeName fields) value d
  = (Returned prepared, d') ->
  exists pairs d1 additional,
    mapP (fun inputField =>
            if isApplicable value inputField
            then andThen (getPropertiesWith (coerceValue runtime inputField)
                            (fieldOf inputField)
                            (getProp (inputFieldName inputField) value))
                         (fun properties => pure (toPairs properties))
            else pure []) fields d = (Returned pairs, d1)
    /\ getAdditionalProperties runtime class d1 = (Returned additional, d')
    /\ prepared = fromPairs (concat pairs ++ additional).
Proof.
  intros Hrun. simpl in Hrun. unfold andThen at 1 in Hrun.
  match type of Hrun with
  | context [mapP ?b fields d] =>
      destruct (mapP b fields d) as [[pairs|e] d1] eqn:Hpairs
  end; [|discriminate].
  unfold andThen at 1 in Hrun.
  destruct (getAdditionalProperties runtime class d1) as [[additional|e] d2] eqn:Hadd;
    [|discriminate].
  unfold pure, toPairs in Hrun. injection Hrun as <- <-.
  exists pairs, d1, additional. repeat split; assumption.
Qed.

(** X14. Every key of a prepared value is the name of a declared input field
    that applies to the input, or one of the keys of the additional properties
    of the class of the input type: other keys of the input are dropped. *)
Theorem prepared_keys_are_declared :
  forall runtime class typeName fields value d prepared d' k,
    prepareValue runtime (mkCreateObjectInputType class typeName fields) value d
    = (Returned prepared, d') ->
    hasKey k prepared = true ->
    (exists f, In f fields /\ inputFieldName f = k /\ isApplicable value f = true)
    \/ In k (additionalKeys runtime class).
Proof.
  intros runtime class typeName fields value d prepared d' k Hrun Hkey.
  destruct (prepareValue_returned _ _ _ _ _ _ _ _ Hrun)
    as [pairs [d1 [additional [Hpairs [Hadd ->]]]]].
  rewrite hasKey_getKey in Hkey.
  destruct (getKey k (fromPairs (concat pairs ++ additional))) as [x|] eqn:Hget;
    [|discriminate].
  apply getKey_fromPairs_In in Hget. apply in_app_or in Hget.
  destruct Hget as [Hin|Hin].
  - left. apply mapP_results in Hpairs. clear Hrun Hadd.
    induction Hpairs as [|f ps fields pairs Hbody _ IH]; [destruct Hin|].
    simpl in Hin. apply in_app_or in Hin. destruct Hin as [Hin|Hin].
    + destruct Hbody as [d2 [d3 Hbody]].
      destruct (isApplicable value f) eqn:Happ.
      * unfold andThen, getPropertiesWith in Hbody. unfold andThen in Hbody.
        destruct (coerceValue runtime f _ d2) as [[y|e] d4]; [|discriminate].
        unfold pure, toPairs in Hbody. injection Hbody as <- _.
        destruct Hin as [[= <- <-]|[]].
        exists f. split; [left; reflexivity|]. split; [reflexivity|exact Happ].
      * unfold pure in Hbody. injection Hbody as <- _. destruct Hin.
    + destruct (IH Hin) as [g [Hg Hrest]]. exists g. split; [right; exact Hg|exact Hrest].
  - right. exact (proj1 (additionalProperties_strings _ _ _ _ _ Hadd _ _ Hin)).
Qed.

Lemma prepared_keys_are_declared_witness :
  hasKey "createdAt" preparedStops = true
  /\ ((exists f, In f (fieldsOf routeInput) /\ inputFieldName f = "createdAt"
                 /\ isApplicable twoStops f = true)
      \/ In "createdAt" (additionalKeys sampleRuntime CreateRootEntityInputTypeClass)).
Proof.
  split; [reflexivity|].
  apply (prepared_keys_are_declared sampleRuntime CreateRootEntityInputTypeClass
           "CreateRouteInput" (fieldsOf routeInput) twoStops (mkDrawn 0 0) preparedStops
           (mkDrawn 1 0) "createdAt"); reflexivity.
Defined.

(** X15. For a basic input field with a default value whose property reads
    [undefined] in the input (no own key of that name holds a value and the
    name is not that of a member inherited from [Object.prototype]), the
    prepared value holds the default value (the field being the one input
    field of its name, and its name none of the keys of the additional
    properties). *)
Theorem missing_value_prepared_as_default :
  forall runtime class typeName fields value d prepared d' field,
    prepareValue runtime (mkCreateObjectInputType class typeName fields) value d
    = (Returned prepared, d') ->
    In (BasicCreateInputField field) fields ->
    (forall g, In g fields -> inputFieldName g = name field ->
               g = BasicCreateInputField field) ->
    hasDefaultValue field = true ->
    getProp (name field) value = VUndefined ->
    ~ In (name field) (additionalKeys runtime class) ->
    getKey (name field) prepared = Some (defaultValue field).
Proof.
  intros runtime class typeName fields value d prepared d' field Hrun Hf Honly Hdefault
         Hmissing Hfree.
  destruct (prepareValue_returned _ _ _ _ _ _ _ _ Hrun)
    as [pairs [d1 [additional [Hpairs [Hadd ->]]]]].
  assert (Happ : isApplicable value (BasicCreateInputField field) = true).
  { unfold isApplicable, appliesToMissingFields. simpl. rewrite Hdefault.
    apply orb_true_r. }
  destruct (prepared_pairs_origin _ _ _ _ _ _ Hpairs _ Hf Happ)
    as [x [d3 [d4 [_ Hin]]]].
  destruct (@In_getKey_fromPairs _ (name field) x (concat pairs ++ additional))
    as [y Hy]; [apply in_or_app; left; exact Hin|].
  rewrite Hy. f_equal.
  apply getKey_fromPairs_In in Hy. apply in_app_or in Hy. destruct Hy as [Hy|Hy].
  - destruct (prepared_pairs_source _ _ _ _ _ _ Hpairs _ _ Hy)
      as [g [d5 [d6 [Hg [Hname Hc]]]]].
    rewrite (Honly g Hg Hname) in Hc. simpl in Hc.
    unfold inputFieldName in Hc. simpl in Hc. rewrite Hmissing in Hc.
    unfold valueOrDefault in Hc. simpl in Hc. rewrite Hdefault in Hc.
    unfold pure in Hc. injection Hc as <- _. reflexivity.
  - exfalso. apply Hfree.
    exact (proj1 (additionalProperties_strings _ _ _ _ _ Hadd _ _ Hy)).
Qed.

Lemma missing_value_prepared_as_default_witness :
  getProp "status" [("title", VString "late")] = VUndefined
  /\ prepareValue sampleRuntime metaInput [] (mkDrawn 0 0)
     = (Returned [("constructor", VFunction "constructor")], mkDrawn 0 0)
  /\ getKey "status" [("status", VString "new"); ("title", VString "late")]
     = Some (VString "new").
Proof.
  split; [reflexivity|]. split; [reflexivity|].
  apply (missing_value_prepared_as_default sampleRuntime CreateObjectInputTypeClass
           "CreateTicketInput" (fieldsOf sampleInput) [("title", VString "late")]
           (mkDrawn 0 0) [("status", VString "new"); ("title", VString "late")]
           (mkDrawn 0 0) statusField).
  - reflexivity.
  - simpl. auto.
  - simpl. intros g [<- | [<- | [<- | []]]] Hname;
      solve [reflexivity | discriminate Hname].
  - reflexivity.
  - reflexivity.
  - simpl. auto.
Defined.

Lemma getKey_fromPairs_last {V} (k : string) (before after : list (string * V)) :
  getKey k (fromPairs (before ++ after))
  = match getKey k (rev after) with
    | Some v => Some v
    | None => getKey k (rev before)
    end.
Proof.
  unfold fromPairs. rewrite getKey_assign, rev_app_distr, getKey_app.
  destruct (getKey k (rev after)); [reflexivity|].
  destruct (getKey k (rev before)); reflexivity.
Qed.

(** The counters of dates read and identifiers drawn only grow. *)
Lemma notBefore_same d : notBefore d d.
Proof. unfold notBefore. lia. Qed.

Lemma notBefore_then d1 d2 d3 : notBefore d1 d2 -> notBefore d2 d3 -> notBefore d1 d3.
Proof. unfold notBefore. lia. Qed.

Lemma mapP_not_before {A B} (body : A -> P B) (items : list A) :
  Forall (fun a => forall d, notBefore d (snd (body a d))) items ->
  forall d, notBefore d (snd (mapP body items d)).
Proof.
  induction 1 as [|a items Ha _ IH]; intros d; cbn [mapP]; [apply notBefore_same|].
  unfold andThen at 1. specialize (Ha d).
  destruct (body a d) as [[b|e] d1]; cbn [snd] in *; [|exact Ha].
  unfold andThen. specialize (IH d1).
  destruct (mapP body items d1) as [[bs|e] d2]; cbn [snd pure] in *;
    exact (notBefore_then _ _ _ Ha IH).
Qed.

Lemma getAdditionalProperties_not_before runtime class d :
  notBefore d (snd (getAdditionalProperties runtime class d)).
Proof.
  unfold notBefore. destruct class; simpl; lia.
Qed.

(** The loop of [prepareValue] over the fields, given that coercion keeps
    the counters from going back. *)
Lemma prepared_fields_not_before runtime value fields :
  Forall (fun f => forall v d, notBefore d (snd (coerceValue runtime f v d))) fields ->
  forall d,
    notBefore d
      (snd (mapP (fun inputField =>
                    if isApplicable value inputField
                    then andThen (getPropertiesWith (coerceValue runtime inputField)
                                    (fieldOf inputField)
                                    (getProp (inputFieldName inputField) value))
                                 (fun properties => pure (toPairs properties))
                    else pure []) fields d)).
Proof.
  intros Hfields. apply mapP_not_before.
  eapply Forall_impl; [|exact Hfields].
  intros f Hf d0. cbv beta.
  destruct (isApplicable value f); [|apply notBefore_same].
  unfold andThen, getPropertiesWith. unfold andThen.
  specialize (Hf (if isUndefined (getProp (inputFieldName f) value)
                     && hasDefaultValue (fieldOf f)
                  then defaultValue (fieldOf f)
                  else getProp (inputFieldName f) value) d0).
  destruct (coerceValue runtime f _ d0) as [[x|e] d1]; exact Hf.
Qed.

Lemma prepareValue_not_before runtime t :
  forall value d, notBefore d (snd (prepareValue runtime t value d)).
Proof.
  induction t using inputType_induction
    with (OnField := fun f =>
            forall value d, notBefore d (snd (coerceValue runtime f value d))).
  - rename H into IHfields. intros value d.
    pose proof (prepared_fields_not_before runtime value fields IHfields d) as Hloop.
    simpl. unfold andThen at 1.
    destruct (mapP _ fields d) as [[pairs|e] d1]; [|exact Hloop].
    unfold andThen.
    pose proof (getAdditionalProperties_not_before runtime class d1) as Hadd.
    destruct (getAdditionalProperties runtime class d1) as [[additional|e] d2];
      cbn [snd pure] in *; exact (notBefore_then _ _ _ Hloop Hadd).
  - intros value d. apply notBefore_same.
  - intros value d. simpl. destruct (isNull value); apply notBefore_same.
  - intros value d. simpl. destruct (isNullish value); [apply notBefore_same|].
    destruct value; try apply notBefore_same.
    unfold andThen. specialize (IHt props d).
    destruct (prepareValue runtime t props d) as [[prepared|e] d1]; exact IHt.
  - intros value d. simpl. destruct (isNull value); [apply notBefore_same|].
    destruct (isUndefined value); [apply notBefore_same|].
    destruct value; try apply notBefore_same.
    unfold andThen.
    match goal with
    | |- context [mapP ?b items d] =>
        assert (Hloop : notBefore d (snd (mapP b items d)));
        [|destruct (mapP b items d) as [[prepared|e] d1]; exact Hloop]
    end.
    apply mapP_not_before. apply Forall_forall. intros item _ d0.
    destruct item; try apply notBefore_same.
    unfold andThen. specialize (IHt props d0).
    destruct (prepareValue runtime t props d0) as [[prepared|e] d1]; exact IHt.
Qed.

Lemma coerceValue_not_before runtime f value d :
  notBefore d (snd (coerceValue runtime f value d)).
Proof.
  destruct f as [field|field|field t|field t]; simpl.
  - apply notBefore_same.
  - destruct (isNull value); apply notBefore_same.
  - destruct (isNullish value); [apply notBefore_same|].
    destruct value; try apply notBefore_same.
    unfold andThen. pose proof (prepareValue_not_before runtime t props d) as H.
    destruct (prepareValue runtime t props d) as [[prepared|e] d1]; exact H.
  - destruct (isNull value); [apply notBefore_same|].
    destruct (isUndefined value); [apply notBefore_same|].
    destruct value; try apply notBefore_same.
    unfold andThen.
    match goal with
    | |- context [mapP ?b items d] =>
        assert (Hloop : notBefore d (snd (mapP b items d)));
        [|destruct (mapP b items d) as [[prepared|e] d1]; exact Hloop]
    end.
    apply mapP_not_before. apply Forall_forall. intros item _ d0.
    destruct item; try apply notBefore_same.
    unfold andThen. pose proof (prepareValue_not_before runtime t props d0) as H.
    destruct (prepareValue runtime t props d0) as [[prepared|e] d1]; exact H.
Qed.

(** X16. A value prepared for a root or child entity holds one and the same
    date under the created-at and the updated-at key, read from the clock
    during this call: input given under those keys is overwritten. *)
Theorem entity_timestamps_are_generated :
  forall runtime class typeName fields value d prepared d',
    class <> CreateObjectInputTypeClass ->
    prepareValue runtime (mkCreateObjectInputType class typeName fields) value d
    = (Returned prepared, d') ->
    exists reading,
      datesRead d <= reading < datesRead d'
      /\ getKey (ENTITY_CREATED_AT runtime) prepared
         = Some (VString (isoDate runtime reading))
      /\ getKey (ENTITY_UPDATED_AT runtime) prepared
         = Some (VString (isoDate runtime reading)).
Proof.
  intros runtime class typeName fields value d prepared d' Hentity Hrun.
  destruct (prepareValue_returned _ _ _ _ _ _ _ _ Hrun)
    as [pairs [d1 [additional [Hpairs [Hadd ->]]]]].
  assert (Hloop : notBefore d d1).
  { assert (Hfields : Forall (fun f => forall v d0,
                                  notBefore d0 (snd (coerceValue runtime f v d0)))
                             fields).
    { apply Forall_forall. intros f _ v d0. apply coerceValue_not_before. }
    pose proof (prepared_fields_not_before runtime value fields Hfields d) as H.
    rewrite Hpairs in H. exact H. }
  exists (datesRead d1). rewrite !getKey_fromPairs_last.
  destruct Hloop as [Hdates _].
  destruct class; [contradiction| |]; simpl in Hadd;
    unfold andThen, getCurrentISODate, drawUuid, pure in Hadd; simpl in Hadd;
    injection Hadd as <- <-; simpl; (split; [lia|]);
    unfold fromPairs, assign; simpl;
    repeat (match goal with
            | |- context [String.eqb ?a ?b] =>
                destruct (String.eqb_spec a b); subst; simpl
            end; rewrite ?String.eqb_refl; simpl);
    try (split; reflexivity); try congruence.
Qed.

Lemma entity_timestamps_are_generated_witness :
  exists reading,
    0 <= reading < 1
    /\ getKey "createdAt" preparedStops = Some (VString (isoDate sampleRuntime reading))
    /\ getKey "updatedAt" preparedStops = Some (VString (isoDate sampleRuntime reading)).
Proof.
  apply (entity_timestamps_are_generated sampleRuntime CreateRootEntityInputTypeClass
           "CreateRouteInput" (fieldsOf routeInput) twoStops (mkDrawn 0 0) preparedStops
           (mkDrawn 1 0)).
  - discriminate.
  - reflexivity.
Defined.

(** X17. A value prepared for a child entity holds under the id key an
    identifier drawn during this call, given that the three system keys
    differ. *)
Theorem child_entity_id_is_generated :
  forall runtime typeName fields value d prepared d',
    ID_FIELD runtime <> ENTITY_CREATED_AT runtime ->
    ID_FIELD runtime <> ENTITY_UPDATED_AT runtime ->
    prepareValue runtime
      (mkCreateObjectInputType CreateChildEntityInputTypeClass typeName fields) value d
    = (Returned prepared, d') ->
    exists draw,
      uuidsDrawn d <= draw < uuidsDrawn d'
      /\ getKey (ID_FIELD runtime) prepared = Some (VString (uuid runtime draw)).
Proof.
  intros runtime typeName fields value d prepared d' Hcreated Hupdated Hrun.
  destruct (prepareValue_returned _ _ _ _ _ _ _ _ Hrun)
    as [pairs [d1 [additional [Hpairs [Hadd ->]]]]].
  assert (Hloop : notBefore d d1).
  { assert (Hfields : Forall (fun f => forall v d0,
                                  notBefore d0 (snd (coerceValue runtime f v d0)))
                             fields).
    { apply Forall_forall. intros f _ v d0. apply coerceValue_not_before. }
    pose proof (prepared_fields_not_before runtime value fields Hfields d) as H.
    rewrite Hpairs in H. exact H. }
  exists (uuidsDrawn d1). rewrite getKey_fromPairs_last.
  destruct Hloop as [_ Hdraws].
  simpl in Hadd. unfold andThen, getCurrentISODate, drawUuid, pure in Hadd.
  simpl in Hadd. injection Hadd as <- <-. simpl. split; [lia|].
  unfold fromPairs, assign. simpl.
  repeat (match goal with
          | |- context [String.eqb ?a ?b] =>
              destruct (String.eqb_spec a b); subst; simpl
          end; rewrite ?String.eqb_refl; simpl);
    try reflexivity; congruence.
Qed.

Lemma child_entity_id_is_generated_witness :
  exists draw,
    0 <= draw < 1
    /\ getKey "id" samplePrepared = Some (VString (uuid sampleRuntime draw)).
Proof.
  apply (child_entity_id_is_generated sampleRuntime "CreateRouteInput" sampleListInput
           sampleListValue (mkDrawn 0 0) samplePrepared (mkDrawn 1 1)).
  - discriminate.
  - discriminate.
  - reflexivity.
Defined.

(** A loop throws when the body throws for one of its items. *)
Lemma mapP_throws {A B} (body : A -> P B) (items : list A) (a : A) :
  In a items ->
  (forall d, exists e d', body a d = (Thrown e, d')) ->
  forall d, exists e d', mapP body items d = (Thrown e, d').
Proof.
  intros Hin Hthrows.
  induction items as [|a0 items IH]; [destruct Hin|]. intros d. simpl.
  unfold andThen at 1.
  destruct Hin as [->|Hin].
  - destruct (Hthrows d) as [e [d' ->]]. eauto.
  - destruct (body a0 d) as [[b|e] d1]; [|eauto].
    unfold andThen. destruct (IH Hin d1) as [e [d' ->]]. eauto.
Qed.

Lemma forEachField_throws {A} (body : A -> FieldSet -> outcome FieldSet)
    (items : list A) (a : A) :
  In a items ->
  (forall acc, exists e, body a acc = Thrown e) ->
  forall acc, exists e, forEachField body items acc = Thrown e.
Proof.
  intros Hin Hthrows.
  induction items as [|a0 items IH]; [destruct Hin|]. intros acc. simpl.
  destruct Hin as [->|Hin].
  - destruct (Hthrows acc) as [e ->]. eauto.
  - destruct (body a0 acc) as [acc'|e]; [apply (IH Hin)|eauto].
Qed.

(** X18. When the input holds anything but a list, [null] or [undefined] for a
    list of nested objects, both [prepareValue] and [getAffectedFields]
    throw. *)
Theorem object_list_field_rejects_other_values :
  forall runtime class typeName fields value field t,
    In (ObjectListCreateInputField field t) fields ->
    notAList (getProp (name field) value) = true ->
    (forall d, exists message d',
        prepareValue runtime (mkCreateObjectInputType class typeName fields) value d
        = (Thrown message, d'))
    /\ (exists message,
          getAffectedFields (mkCreateObjectInputType class typeName fields) value
          = Thrown message).
Proof.
  intros runtime class typeName fields value field t Hin Hbad.
  assert (Happ : isApplicable value (ObjectListCreateInputField field t) = true).
  { unfold isApplicable, inputFieldName. simpl.
    rewrite getProp_given_hasProperty; [reflexivity|].
    destruct (getProp (name field) value); solve [reflexivity | discriminate Hbad]. }
  split.
  - intros d. simpl. unfold andThen at 1.
    match goal with
    | |- context [mapP ?b fields d] =>
        destruct (mapP_throws b fields (ObjectListCreateInputField field t) Hin) with (d := d)
          as [e [d' Hthrown]]
    end.
    + intros d0. rewrite Happ. unfold andThen, getPropertiesWith, inputFieldName.
      simpl. unfold andThen.
      destruct (getProp (name field) value); try discriminate; simpl; eauto.
    + rewrite Hthrown. eauto.
  - unfold getAffectedFields. simpl.
    match goal with
    | |- context [forEachField ?b fields []] =>
        apply (forEachField_throws b fields (ObjectListCreateInputField field t) Hin)
    end.
    intros acc. rewrite Happ. unfold inputFieldName. simpl.
    destruct (getProp (name field) value); try discriminate; simpl; eauto.
Qed.

Lemma object_list_field_rejects_other_values_witness :
  (forall d, exists message d',
      prepareValue sampleRuntime routeInput [("stops", VString "Main Street")] d
      = (Thrown message, d'))
  /\ (exists message,
        getAffectedFields routeInput [("stops", VString "Main Street")]
        = Thrown message).
Proof.
  apply (object_list_field_rejects_other_values sampleRuntime
           CreateRootEntityInputTypeClass "CreateRouteInput" (fieldsOf routeInput)
           [("stops", VString "Main Street")] stopsField sampleAddressInput).
  - simpl. auto.
  - reflexivity.
Defined.

(** ** Generated create input types *)

Lemma generate_unfold model deeper type :
  generate model (S deeper) type
  = match flatMapOutcome (generateFields model deeper) (objectTypeFields type) with
    | Returned inputFields =>
        Returned (mkCreateObjectInputType (inputClassOf type) (inputTypeName type)
                                          inputFields)
    | Thrown e => Thrown e
    end.
Proof. reflexivity. Qed.

(** What [generateFields] answers for one model field. *)
Lemma generateFields_returned model stack f inputFields :
  generateFields model stack f = Returned inputFields ->
  if hasInputField model f
  then exists g,
      inputFields = [g] /\ fieldOf g = fieldObject f
      /\ isListField g = isList f && negb (isRootEntity model (typeOf f))
  else inputFields = [].
Proof.
  destruct f as [fo system list relation type].
  unfold generateFields, generateFieldsWith, hasInputField, isRootEntity. simpl.
  destruct system; simpl; [intros [= <-]; reflexivity|].
  destruct type as [n|n|n]; simpl.
  - destruct list; intros [= <-]; eexists; repeat split; reflexivity.
  - destruct list; intros [= <-]; eexists; repeat split; reflexivity.
  - destruct (kind (model n)) as [key| | |]; simpl.
    + destruct relation; simpl; [intros [= <-]; reflexivity|].
      destruct key; [|discriminate]. intros [= <-].
      eexists. repeat split; try reflexivity. simpl. rewrite andb_false_r. reflexivity.
    + destruct (generate model stack (model n)); [|discriminate].
      intros [= <-]. destruct list; eexists; repeat split; reflexivity.
    + destruct (generate model stack (model n)); [|discriminate].
      intros [= <-]. destruct list; eexists; repeat split; reflexivity.
    + destruct (generate model stack (model n)); [|discriminate].
      intros [= <-]. destruct list; eexists; repeat split; reflexivity.
Qed.

Lemma flatMapOutcome_returned {A B} (callback : A -> outcome (list B)) items result :
  flatMapOutcome callback items = Returned result ->
  exists parts,
    Forall2 (fun a part => callback a = Returned part) items parts
    /\ result = concat parts.
Proof.
  revert result. induction items as [|a items IH]; intros result; simpl.
  - intros [= <-]. exists []. split; [constructor|reflexivity].
  - destruct (callback a) as [bs|e] eqn:Ha; [|discriminate].
    destruct (flatMapOutcome callback items) as [rest|e]; [|discriminate].
    intros [= <-]. destruct (IH rest eq_refl) as [parts [Hparts ->]].
    exists (bs :: parts). split; [constructor; assumption|reflexivity].
Qed.

(** The input fields made for a list of model fields: one for each field
    that has one, in the order of the model. *)
Lemma generated_fields_follow_model model stack fields inputFields :
  flatMapOutcome (generateFields model stack) fields = Returned inputFields ->
  Forall2 (fun g f => fieldOf g = fieldObject f
                      /\ isListField g
                         = isList f && negb (isRootEntity model (typeOf f)))
          inputFields (filter (hasInputField model) fields).
Proof.
  intros Hrun. apply flatMapOutcome_returned in Hrun.
  destruct Hrun as [parts [Hparts ->]].
  induction Hparts as [|f part fields parts Hf _ IH]; simpl; [constructor|].
  apply generateFields_returned in Hf.
  destruct (hasInputField model f).
  - destruct Hf as [g [-> [Hfield Hlist]]]. simpl. constructor; [split; assumption|exact IH].
  - subst part. exact IH.
Qed.

(** A call of [generate] that returns had room on the stack and generated
    the fields of the type. *)
Lemma generate_returned model stack type inputType :
  generate model stack type = Returned inputType ->
  exists deeper inputFields,
    stack = S deeper
    /\ flatMapOutcome (generateFields model deeper) (objectTypeFields type)
       = Returned inputFields
    /\ inputType
       = mkCreateObjectInputType (inputClassOf type) (inputTypeName type) inputFields.
Proof.
  destruct stack as [|deeper]; [discriminate|]. rewrite generate_unfold.
  destruct (flatMapOutcome (generateFields model deeper) (objectTypeFields type))
    as [inputFields|e] eqn:Hfields; [|discriminate].
  intros [= <-]. exists deeper, inputFields.
  split; [reflexivity|]. split; [exact Hfields|reflexivity].
Qed.

(** X19. The input type generated for an object type is of the class of that
    type (root entity, child entity, other) and has one input field for each
    model field that is neither a system field nor a relation, for the same
    field and in the order of the model; the input field is list-valued
    exactly when the model field is a list and not a reference to a root
    entity. *)
Theorem generated_input_fields_follow_the_model :
  forall model stack type inputType,
    generate model stack type = Returned inputType ->
    classOf inputType = inputClassOf type
    /\ map fieldOf (fieldsOf inputType)
       = map fieldObject (filter (hasInputField model) (objectTypeFields type))
    /\ Forall2 (fun g f => isListField g
                           = isList f && negb (isRootEntity model (typeOf f)))
               (fieldsOf inputType)
               (filter (hasInputField model) (objectTypeFields type)).
Proof.
  intros model stack type inputType Hrun.
  destruct (generate_returned _ _ _ _ Hrun) as [deeper [inputFields [_ [Hfields ->]]]].
  simpl. clear Hrun.
  apply generated_fields_follow_model in Hfields.
  split; [reflexivity|]. split.
  - induction Hfields as [|g f gs fs [Hg _] _ IH]; simpl; [reflexivity|].
    rewrite Hg, IH. reflexivity.
  - induction Hfields as [|g f gs fs [_ Hl] _ IH]; constructor; assumption.
Qed.

Lemma generated_input_fields_follow_the_model_witness :
  classOf routeInput = CreateRootEntityInputTypeClass
  /\ map fieldOf (fieldsOf routeInput)
     = [titleField; tagsField; stopsField; driverField]
  /\ Forall2 (fun g f => isListField g
                         = isList f && negb (isRootEntity sampleModel (typeOf f)))
             (fieldsOf routeInput) (filter (hasInputField sampleModel) routeFields).
Proof.
  apply (generated_input_fields_follow_the_model sampleModel 2 routeType routeInput).
  reflexivity.
Defined.

(** *** When generation returns *)

Lemma flatMapOutcome_returns_iff {A B} (callback : A -> outcome (list B)) items :
  (exists result, flatMapOutcome callback items = Returned result)
  <-> Forall (fun a => exists part, callback a = Returned part) items.
Proof.
  induction items as [|a items IH]; simpl.
  - split; [constructor|eauto].
  - split.
    + intros [result Hrun].
      destruct (callback a) as [bs|e] eqn:Ha; [|discriminate].
      destruct (flatMapOutcome callback items) as [rest|e]; [|discriminate].
      constructor; [eauto|]. apply IH. eauto.
    + intros Hall. inversion Hall as [|? ? [part Ha] Hrest]; subst.
      rewrite Ha. apply IH in Hrest. destruct Hrest as [rest ->]. eauto.
Qed.

(** [generateFields] returns for a field exactly when the field is no
    reference without key and [generate] returns for the nested type, if
    the field has one. *)
Lemma generateFields_returns_iff model stack f :
  (exists part, generateFields model stack f = Returned part)
  <-> referenceWithoutKey model f = false
      /\ forall nested,
          nestedTypeOf model f = Some nested ->
          exists inputType, generate model stack nested = Returned inputType.
Proof.
  destruct f as [fo system list relation type].
  unfold generateFields, generateFieldsWith, referenceWithoutKey, nestedTypeOf. simpl.
  destruct system; simpl.
  { split; [intros _; split; [reflexivity|discriminate]|eauto]. }
  destruct type as [n|n|n]; simpl.
  - split; [intros _; split; [reflexivity|discriminate]|destruct list; eauto].
  - split; [intros _; split; [reflexivity|discriminate]|destruct list; eauto].
  - destruct (kind (model n)) as [key| | |]; simpl.
    + destruct relation; simpl.
      * split; [intros _; split; [destruct key; reflexivity|discriminate]|eauto].
      * destruct key; simpl.
        -- split; [intros _; split; [reflexivity|discriminate]|eauto].
        -- split; [intros [part H]; discriminate H|intros [H _]; discriminate H].
    + split.
      * intros [part H]. split; [reflexivity|]. intros nested [= <-].
        destruct (generate model stack (model n)); [eauto|discriminate H].
      * intros [_ H]. destruct (H _ eq_refl) as [inputType ->]. eauto.
    + split.
      * intros [part H]. split; [reflexivity|]. intros nested [= <-].
        destruct (generate model stack (model n)); [eauto|discriminate H].
      * intros [_ H]. destruct (H _ eq_refl) as [inputType ->]. eauto.
    + split.
      * intros [part H]. split; [reflexivity|]. intros nested [= <-].
        destruct (generate model stack (model n)); [eauto|discriminate H].
      * intros [_ H]. destruct (H _ eq_refl) as [inputType ->]. eauto.
Qed.

Lemma generate_returns_iff model deeper type :
  (exists inputType, generate model (S deeper) type = Returned inputType)
  <-> Forall (fun f => exists part, generateFields model deeper f = Returned part)
             (objectTypeFields type).
Proof.
  rewrite <- flatMapOutcome_returns_iff, generate_unfold.
  destruct (flatMapOutcome (generateFields model deeper) (objectTypeFields type));
    split; eauto; intros [x H]; discriminate H.
Qed.

(** More room on the stack does not change what [generate] returns. *)
Lemma flatMapOutcome_same {A B} (callback callback' : A -> outcome (list B)) items :
  Forall (fun a => forall part, callback a = Returned part -> callback' a = Returned part)
         items ->
  forall result,
    flatMapOutcome callback items = Returned result ->
    flatMapOutcome callback' items = Returned result.
Proof.
  induction 1 as [|a items Ha _ IH]; intros result; simpl; [auto|].
  destruct (callback a) as [bs|e] eqn:Hcall; [|discriminate].
  rewrite (Ha _ eq_refl).
  destruct (flatMapOutcome callback items) as [rest|e]; [|discriminate].
  rewrite (IH _ eq_refl). auto.
Qed.

Lemma generate_with_more_stack model :
  forall stack stack' type inputType,
    stack <= stack' ->
    generate model stack type = Returned inputType ->
    generate model stack' type = Returned inputType.
Proof.
  induction stack as [|deeper IH]; intros stack' type inputType Hle; [discriminate|].
  destruct stack' as [|deeper']; [lia|].
  rewrite !generate_unfold.
  destruct (flatMapOutcome (generateFields model deeper) (objectTypeFields type))
    as [inputFields|e] eqn:Hfields; [|discriminate].
  intros [= <-].
  rewrite (flatMapOutcome_same (generateFields model deeper)
             (generateFields model deeper') (objectTypeFields type)) with
    (result := inputFields); [reflexivity| |exact Hfields].
  apply Forall_forall. intros f _ part.
  unfold generateFields, generateFieldsWith.
  destruct (isSystemField f); [auto|].
  destruct (typeOf f) as [n|n|n]; [auto|auto|].
  destruct (kind (model n)); [auto| | |];
    (destruct (generate model deeper (model n)) as [nested|e] eqn:Hnested;
     [|discriminate];
     rewrite (IH deeper' (model n) nested); [auto|lia|exact Hnested]).
Qed.

(** One stack that has room for each field of a list. *)
Lemma generable_fields_share_a_stack model fields :
  (forall f, In f fields -> referenceWithoutKey model f = false) ->
  (forall f nested,
      In f fields -> nestedTypeOf model f = Some nested ->
      exists stack inputType, generate model stack nested = Returned inputType) ->
  exists stack,
    Forall (fun f => exists part, generateFields model stack f = Returned part) fields.
Proof.
  induction fields as [|f fields IH]; intros Hkeys Hnested.
  - exists 0. constructor.
  - destruct IH as [rest Hrest].
    + intros g Hg. apply Hkeys. right. exact Hg.
    + intros g nested Hg. apply Hnested. right. exact Hg.
    + assert (Hown : exists own, forall nested,
                   nestedTypeOf model f = Some nested ->
                   exists inputType, generate model own nested = Returned inputType).
      { destruct (nestedTypeOf model f) as [nested|] eqn:Hf.
        - destruct (Hnested f nested (or_introl eq_refl) Hf) as [own [inputType Hown]].
          exists own. intros nested' [= <-]. eauto.
        - exists 0. discriminate. }
      destruct Hown as [own Hown].
      exists (Nat.max own rest). constructor.
      * apply generateFields_returns_iff. split; [apply Hkeys; left; reflexivity|].
        intros nested Hf. destruct (Hown nested Hf) as [inputType Hrun].
        exists inputType.
        apply (generate_with_more_stack model own); [apply Nat.le_max_l|exact Hrun].
      * eapply Forall_impl; [|exact Hrest].
        intros g Hg. apply generateFields_returns_iff.
        apply generateFields_returns_iff in Hg. destruct Hg as [Hkey Hg].
        split; [exact Hkey|]. intros nested Hn. destruct (Hg nested Hn) as [inputType Hrun].
        exists inputType.
        apply (generate_with_more_stack model rest); [apply Nat.le_max_r|exact Hrun].
Qed.

(** A field that throws makes the whole type throw. *)
Lemma flatMapOutcome_throws {A B} (callback : A -> outcome (list B)) items a :
  In a items ->
  (exists e, callback a = Thrown e) ->
  exists e, flatMapOutcome callback items = Thrown e.
Proof.
  intros Hin [e Ha].
  induction items as [|a0 items IH]; [destruct Hin|]. simpl.
  destruct Hin as [->|Hin].
  - rewrite Ha. eauto.
  - destruct (callback a0); [|eauto].
    destruct (IH Hin) as [e' ->]. eauto.
Qed.

(** X20. For some size of the call stack [generate] returns exactly for the
    generable object types: those from which, through the fields that get an
    object input field, only finitely deep nesting and no reference to a
    root entity type without key field is reached; more room on the stack
    never changes what is returned.  For an object type that contains
    itself, as [Skill] does in the model of the repository, [generate]
    throws whatever the size of the stack. *)
Theorem generate_returns_for_generable_types :
  forall model type,
    ((exists stack inputType, generate model stack type = Returned inputType)
     <-> Generable model type)
    /\ (forall stack stack' inputType,
           stack <= stack' ->
           generate model stack type = Returned inputType ->
           generate model stack' type = Returned inputType)
    /\ (forall f,
           In f (objectTypeFields type) -> nestedTypeOf model f = Some type ->
           forall stack, exists e, generate model stack type = Thrown e).
Proof.
  intros model type. split; [|split].
  - split.
    + intros [stack [inputType Hrun]]. revert type inputType Hrun.
      induction stack as [|deeper IH]; intros type inputType Hrun; [discriminate|].
      assert (Hfields : Forall (fun f => exists part,
                                    generateFields model deeper f = Returned part)
                               (objectTypeFields type)).
      { apply generate_returns_iff. eauto. }
      rewrite Forall_forall in Hfields.
      constructor.
      * intros f Hf. apply (generateFields_returns_iff model deeper f). auto.
      * intros f nested Hf Hnested.
        destruct (proj1 (generateFields_returns_iff model deeper f) (Hfields f Hf))
          as [_ Hgen].
        destruct (Hgen nested Hnested) as [nestedInput Hrun'].
        exact (IH nested nestedInput Hrun').
    + induction 1 as [type Hkeys _ IH].
      destruct (generable_fields_share_a_stack model (objectTypeFields type) Hkeys IH)
        as [stack Hall].
      apply generate_returns_iff in Hall. destruct Hall as [inputType Hrun].
      exists (S stack), inputType. exact Hrun.
  - intros stack stack' inputType. apply generate_with_more_stack.
  - intros f Hf Hself stack.
    induction stack as [|deeper IH]; [exists stackOverflow; reflexivity|].
    rewrite generate_unfold.
    destruct (flatMapOutcome_throws (generateFields model deeper)
                (objectTypeFields type) f Hf) as [e He].
    + destruct IH as [e He].
      destruct (generateFields model deeper f) as [part|e'] eqn:Hpart; [|eauto].
      exfalso.
      destruct (proj1 (generateFields_returns_iff model deeper f)
                      (ex_intro _ part Hpart)) as [_ Hgen].
      destruct (Hgen type Hself) as [inputType Hrun].
      rewrite He in Hrun. discriminate Hrun.
    + rewrite He. eauto.
Qed.

Lemma generate_returns_for_generable_types_witness :
  Generable sampleModel routeType
  /\ generate sampleModel 2 auditedType = Thrown "Type Log does not have a key field"
  /\ (forall stack, exists e, generate sampleModel stack skillType = Thrown e).
Proof.
  destruct (generate_returns_for_generable_types sampleModel routeType)
    as [[Hreturns _] _].
  destruct (generate_returns_for_generable_types sampleModel skillType)
    as [_ [_ Hself]].
  split; [|split].
  - apply Hreturns. exists 2, routeInput. reflexivity.
  - reflexivity.
  - apply (Hself (mkModelField skillsField false true false (ObjectTypeNamed "Skill"))).
    + simpl. auto.
    + reflexivity.
Defined.

(** *** Preparing values with a generated input type *)

Lemma Forall2_member_left {A B} (R : A -> B -> Prop) (l : list A) (l' : list B) a :
  Forall2 R l l' -> In a l -> exists b, In b l' /\ R a b.
Proof.
  induction 1 as [|x y l l' Hxy _ IH]; intros Hin; [destruct Hin|].
  destruct Hin as [->|Hin].
  - exists y. split; [left; reflexivity|exact Hxy].
  - destruct (IH Hin) as [b [Hb HR]]. exists b. split; [right; exact Hb|exact HR].
Qed.

Lemma NoDup_map_same {A B} (g : A -> B) (l : list A) a b :
  NoDup (map g l) -> In a l -> In b l -> g a = g b -> a = b.
Proof.
  induction l as [|x l IH]; intros Hdistinct Ha Hb Hsame; [destruct Ha|].
  simpl in Hdistinct. inversion Hdistinct as [|? ? Hfresh Hrest]; subst.
  destruct Ha as [->|Ha], Hb as [->|Hb].
  - reflexivity.
  - exfalso. apply Hfresh. rewrite Hsame. apply in_map. exact Hb.
  - exfalso. apply Hfresh. rewrite <- Hsame. apply in_map. exact Ha.
  - exact (IH Hrest Ha Hb Hsame).
Qed.

(** Each input field of a generated type is made for a field of the model. *)
Lemma generated_field_origin model stack type inputType g :
  generate model stack type = Returned inputType ->
  In g (fieldsOf inputType) ->
  exists f,
    In f (objectTypeFields type) /\ hasInputField model f = true
    /\ fieldOf g = fieldObject f
    /\ isListField g = isList f && negb (isRootEntity model (typeOf f)).
Proof.
  intros Hrun Hg.
  destruct (generate_returned _ _ _ _ Hrun) as [deeper [inputFields [_ [Hfields ->]]]].
  simpl in Hg.
  apply generated_fields_follow_model in Hfields.
  destruct (Forall2_member_left _ _ _ g Hfields Hg) as [f [Hf [Hfield Hlist]]].
  apply filter_In in Hf. destruct Hf as [Hf Hhas].
  exists f. repeat split; assumption.
Qed.

(** X21. A list field of the model, other than a reference, is never
    prepared as [null] by the generated input type, given that the names of
    the model fields differ. *)
Theorem generated_list_field_never_prepared_as_null :
  forall runtime model stack type inputType value d prepared d' f,
    generate model stack type = Returned inputType ->
    NoDup (map (fun f => name (fieldObject f)) (objectTypeFields type)) ->
    In f (objectTypeFields type) ->
    isList f = true ->
    isRootEntity model (typeOf f) = false ->
    prepareValue runtime inputType value d = (Returned prepared, d') ->
    getKey (name (fieldObject f)) prepared <> Some VNull.
Proof.
  intros runtime model stack type inputType value d prepared d' f Hgen Hnames Hf Hlist
         Hobject Hrun Hnull.
  destruct inputType as [class typeName fields].
  destruct (prepareValue_returned _ _ _ _ _ _ _ _ Hrun)
    as [pairs [d1 [additional [Hpairs [Hadd ->]]]]].
  apply getKey_fromPairs_In in Hnull. apply in_app_or in Hnull.
  destruct Hnull as [Hin|Hin].
  - destruct (prepared_pairs_source _ _ _ _ _ _ Hpairs _ _ Hin)
      as [g [d3 [d4 [Hg [Hname Hc]]]]].
    destruct (generated_field_origin model stack type _ g Hgen Hg)
      as [f' [Hf' [_ [Hfield Hlist']]]].
    assert (Hsame : f' = f).
    { apply (NoDup_map_same (fun f => name (fieldObject f)) (objectTypeFields type));
        try assumption.
      rewrite <- Hfield. exact Hname. }
    subst f'. rewrite Hlist, Hobject in Hlist'.
    destruct (coerceValue_list_field _ _ _ _ _ _ Hlist' Hc) as [Hnot _].
    apply Hnot. reflexivity.
  - destruct (additionalProperties_strings _ _ _ _ _ Hadd _ _ Hin) as [_ [s Hs]].
    discriminate Hs.
Qed.

Lemma generated_list_field_never_prepared_as_null_witness :
  getProp "tags" [("tags", VNull)] = VNull
  /\ getKey "tags"
       [("tags", VArray []);
        ("createdAt", VString "2019-01-01T00:00:00.000Z");
        ("updatedAt", VString "2019-01-01T00:00:00.000Z")] <> Some VNull.
Proof.
  split; [reflexivity|].
  apply (generated_list_field_never_prepared_as_null sampleRuntime sampleModel 2
           routeType routeInput
           [("tags", VNull)] (mkDrawn 0 0)
           [("tags", VArray []);
            ("createdAt", VString "2019-01-01T00:00:00.000Z");
            ("updatedAt", VString "2019-01-01T00:00:00.000Z")]
           (mkDrawn 1 0)
           (mkModelField tagsField false true false (ScalarType "String"))).
  - reflexivity.
  - simpl. repeat constructor; simpl; intuition discriminate.
  - simpl. auto.
  - reflexivity.
  - reflexivity.
  - reflexivity.
Defined.

(** X22. A value prepared by a generated input type has no other keys than
    the names of the model fields that got an input field and the keys of
    the additional properties: what the caller gives under the name of a
    system field or of a relation is not taken over. *)
Theorem generated_type_prepares_only_model_fields :
  forall runtime model stack type inputType value d prepared d' k,
    generate model stack type = Returned inputType ->
    prepareValue runtime inputType value d = (Returned prepared, d') ->
    hasKey k prepared = true ->
    (exists f, In f (objectTypeFields type) /\ hasInputField model f = true
               /\ name (fieldObject f) = k)
    \/ In k (additionalKeys runtime (inputClassOf type)).
Proof.
  intros runtime model stack type inputType value d prepared d' k Hgen Hrun Hkey.
  assert (Hclass : classOf inputType = inputClassOf type).
  { destruct (generate_returned _ _ _ _ Hgen) as [deeper [inputFields [_ [_ ->]]]].
    reflexivity. }
  destruct inputType as [class typeName fields]. simpl in Hclass. subst class.
  destruct (prepareValue_returned _ _ _ _ _ _ _ _ Hrun)
    as [pairs [d1 [additional [Hpairs [Hadd ->]]]]].
  rewrite hasKey_getKey in Hkey.
  destruct (getKey k (fromPairs (concat pairs ++ additional))) as [x|] eqn:Hget;
    [|discriminate].
  apply getKey_fromPairs_In in Hget. apply in_app_or in Hget.
  destruct Hget as [Hin|Hin].
  - left.
    destruct (prepared_pairs_source _ _ _ _ _ _ Hpairs _ _ Hin)
      as [g [d3 [d4 [Hg [Hname _]]]]].
    destruct (generated_field_origin model stack type _ g Hgen Hg)
      as [f [Hf [Hhas [Hfield _]]]].
    exists f. repeat split; try assumption.
    rewrite <- Hfield. exact Hname.
  - right. exact (proj1 (additionalProperties_strings _ _ _ _ _ Hadd _ _ Hin)).
Qed.

Lemma generated_type_prepares_only_model_fields_witness :
  prepareValue sampleRuntime routeInput
    [("id", VString "mine"); ("tags", VNull); ("rides", VArray [])] (mkDrawn 0 0)
  = (Returned [("tags", VArray []);
               ("createdAt", VString "2019-01-01T00:00:00.000Z");
               ("updatedAt", VString "2019-01-01T00:00:00.000Z")], mkDrawn 1 0)
  /\ ((exists f, In f routeFields /\ hasInputField sampleModel f = true
                 /\ name (fieldObject f) = "tags")
      \/ In "tags" (additionalKeys sampleRuntime CreateRootEntityInputTypeClass)).
Proof.
  split; [reflexivity|].
  apply (generated_type_prepares_only_model_fields sampleRuntime sampleModel 2
           routeType routeInput
           [("id", VString "mine"); ("tags", VNull); ("rides", VArray [])] (mkDrawn 0 0)
           [("tags", VArray []);
            ("createdAt", VString "2019-01-01T00:00:00.000Z");
            ("updatedAt", VString "2019-01-01T00:00:00.000Z")] (mkDrawn 1 0) "tags");
    reflexivity.
Defined.
